(** * Substack analysis pipeline: normalizer, extractors, assembler, roster

    A shallow embedding of the text-to-metrics pipeline of the repository:
    - [lib/text-cleaner.ts]          (content normalizer),
    - [lib/neuropsych-analyzer.ts]   (report assembler and its extractors),
    - [scripts/analyze-posts.ts]     (batch script with its own extractors),
    - [lib/data-manager.ts]          (file-backed roster and analyses),
    - [app/api/analyze/route.ts]     (the analyze endpoint),
    - [lib/rss-parser.ts]            (feed retriever),
    - [scripts/analyze-influencer.ts], [scripts/fetch-posts.ts]
                                     (command-line scripts),
    - [app/influencers/[slug]/page.tsx] (what the analysis page shows),
    - [lib/data-loader.ts]           (static loader).

    Text is a sequence of 8-bit code units (Latin-1), the regular
    expressions of the source are terms of a small regex syntax run by a
    backtracking matcher written after the ECMAScript matcher semantics
    (continuation passing, leftmost match, ordered alternation, greedy and
    lazy repetition). The ratios of the emotional tone are computed in
    binary64, as the source computes them. The data directories are maps
    from file names to records; a write under a name the file system does
    not take rejects. *)

From Stdlib Require Import Ascii String DecimalString DecimalNat ZArith.
From Stdlib Require Import SpecFloat.
From stdpp Require Import base list strings gmap sorting.

Set Default Proof Using "Type".
Set Warnings "-register-all".
Local Open Scope nat_scope.

(** ** Code units *)

Abbreviation text := (list ascii).

Definition str (s : string) : text := list_ascii_of_string s.

Definition code (c : ascii) : nat := nat_of_ascii c.

Definition isDigit (c : ascii) : bool :=
  (48 <=? code c) && (code c <=? 57).

Definition isUpperAscii (c : ascii) : bool :=
  (65 <=? code c) && (code c <=? 90).

Definition isLowerAscii (c : ascii) : bool :=
  (97 <=? code c) && (code c <=? 122).

(** [\w] is [[A-Za-z0-9_]]. *)
Definition isWordChar (c : ascii) : bool :=
  isDigit c || isUpperAscii c || isLowerAscii c || (code c =? 95).

(** Line terminators below U+0100: LF and CR. *)
Definition isLineTerminator (c : ascii) : bool :=
  (code c =? 10) || (code c =? 13).

(** [\s] below U+0100: TAB, LF, VT, FF, CR, SPACE, NBSP. *)
Definition isWhiteSpace (c : ascii) : bool :=
  ((9 <=? code c) && (code c <=? 13)) || (code c =? 32) || (code c =? 160).

(** Canonicalize of the [i] flag (no [u] flag): the upper-case form when
    it is a single code unit of the same range. Below U+0100 that maps a-z
    and U+00E0-U+00FE (except the division sign) 32 down; the upper-case
    forms of U+00B5, U+00DF and U+00FF lie outside and leave them as they
    are. *)
Definition canonicalize (c : ascii) : ascii :=
  if isLowerAscii c
     || ((224 <=? code c) && (code c <=? 254) && negb (code c =? 247))
  then ascii_of_nat (code c - 32) else c.

(** [String.prototype.toLowerCase] on one Latin-1 code unit: A-Z and the
    upper-case letters U+00C0-U+00DE (except the multiplication sign). *)
Definition toLowerChar (c : ascii) : ascii :=
  if isUpperAscii c
     || ((192 <=? code c) && (code c <=? 222) && negb (code c =? 215))
  then ascii_of_nat (code c + 32) else c.

(** ** Regular expressions *)

Inductive regex : Type :=
| Eps
| Char (c : ascii)
| Class (p : ascii -> bool)
| Seq (r1 r2 : regex)
| Alt (r1 r2 : regex)
| Star (r : regex)
| LazyStar (r : regex)
| LineStart
| LineEnd
| WordBoundary.

Record flags := { ignoreCase : bool; multiline : bool }.

Definition flags_none : flags := {| ignoreCase := false; multiline := false |}.
Definition flags_g : flags := {| ignoreCase := false; multiline := false |}.
Definition flags_gi : flags := {| ignoreCase := true; multiline := false |}.
Definition flags_gm : flags := {| ignoreCase := false; multiline := true |}.

(** A literal such as [Subscribe now]. *)
Fixpoint lit_chars (s : text) : regex :=
  match s with
  | [] => Eps
  | [c] => Char c
  | c :: t => Seq (Char c) (lit_chars t)
  end.

Definition Lit (s : string) : regex := lit_chars (str s).

(** [r1|r2|...|rn] *)
Fixpoint alts (rs : list regex) : regex :=
  match rs with
  | [] => Class (fun _ => false)
  | [r] => r
  | r :: t => Alt r (alts t)
  end.

(** [r1 r2 ... rn] *)
Fixpoint seqs (rs : list regex) : regex :=
  match rs with
  | [] => Eps
  | [r] => r
  | r :: t => Seq r (seqs t)
  end.

Definition Plus (r : regex) : regex := Seq r (Star r).
Definition Opt (r : regex) : regex := Alt r Eps.
Definition AtLeast2 (r : regex) : regex := Seq r (Seq r (Star r)).
Definition AtLeast3 (r : regex) : regex := Seq r (Seq r (Seq r (Star r))).

Definition digit : regex := Class isDigit.
Definition space : regex := Class isWhiteSpace.
Definition dot : regex := Class (fun c => negb (isLineTerminator c)).

(** ** The matcher *)

Definition charMatches (fl : flags) (c a : ascii) : bool :=
  if ignoreCase fl
  then bool_decide (canonicalize c = canonicalize a)
  else bool_decide (c = a).

Definition classMatches (fl : flags) (p : ascii -> bool) (a : ascii) : bool :=
  if ignoreCase fl
  then p a || p (canonicalize a) || p (toLowerChar a)
  else p a.

Definition atLineStart (fl : flags) (prev : option ascii) : bool :=
  match prev with
  | None => true
  | Some c => multiline fl && isLineTerminator c
  end.

Definition atLineEnd (fl : flags) (s : text) : bool :=
  match s with
  | [] => true
  | c :: _ => multiline fl && isLineTerminator c
  end.

Definition isWordAt (o : option ascii) : bool :=
  match o with
  | None => false
  | Some c => isWordChar c
  end.

Definition atWordBoundary (prev : option ascii) (s : text) : bool :=
  xorb (isWordAt prev) (isWordAt (head s)).

Definition orElse {A} (x y : option A) : option A :=
  match x with
  | Some _ => x
  | None => y
  end.

(** The state of a match is the code unit before the current position
    (for [^] and [\b]) and the rest of the input; a continuation receives
    the state after the sub-match and decides the rest of the pattern. An
    iteration of a repetition that consumes nothing is rejected, as in
    ECMAScript's RepeatMatcher. *)
Definition cont := option ascii -> text -> option text.

(** The loop of a repetition [r*] or [r*?] over the matcher [m] of [r]:
    greedy, another iteration is tried before the continuation, lazy, after
    it. The fuel is the length of the input plus one, and each iteration
    must consume input. *)
Fixpoint starLoop (m : option ascii -> text -> cont -> option text)
    (greedy : bool) (k : cont) (fuel : nat) (prev : option ascii) (s : text)
    : option text :=
  match fuel with
  | O => k prev s
  | S fuel' =>
      let again :=
        m prev s (fun prev' s' =>
          if length s' <? length s then starLoop m greedy k fuel' prev' s'
          else None) in
      if greedy then orElse again (k prev s) else orElse (k prev s) again
  end.

Fixpoint rmatch (fl : flags) (r : regex) (prev : option ascii) (s : text)
    (k : cont) {struct r} : option text :=
  match r with
  | Eps => k prev s
  | Char c =>
      match s with
      | a :: t => if charMatches fl c a then k (Some a) t else None
      | [] => None
      end
  | Class p =>
      match s with
      | a :: t => if classMatches fl p a then k (Some a) t else None
      | [] => None
      end
  | Seq r1 r2 => rmatch fl r1 prev s (fun prev' s' => rmatch fl r2 prev' s' k)
  | Alt r1 r2 => orElse (rmatch fl r1 prev s k) (rmatch fl r2 prev s k)
  | Star r1 => starLoop (rmatch fl r1) true k (S (length s)) prev s
  | LazyStar r1 => starLoop (rmatch fl r1) false k (S (length s)) prev s
  | LineStart => if atLineStart fl prev then k prev s else None
  | LineEnd => if atLineEnd fl s then k prev s else None
  | WordBoundary => if atWordBoundary prev s then k prev s else None
  end.

Record RegExp := { source : regex; reFlags : flags }.

(** One match attempt at the current position: the rest of the input after
    the match, if there is one. *)
Definition exec (re : RegExp) (prev : option ascii) (s : text) : option text :=
  rmatch (reFlags re) (source re) prev s (fun _ s' => Some s').

(** ** String methods *)

Module Str.

Definition toLowerCase (s : text) : text := map toLowerChar s.

(** [String.prototype.replace] with a global pattern and a replacement
    string without [$]: [skip] counts the code units of the current match
    still to be dropped. *)
Fixpoint replaceFrom (re : RegExp) (rep : text) (prev : option ascii)
    (s : text) (skip : nat) : text :=
  match s with
  | [] =>
      match skip, exec re prev [] with
      | O, Some _ => rep
      | _, _ => []
      end
  | c :: t =>
      match skip with
      | S n => replaceFrom re rep (Some c) t n
      | O =>
          match exec re prev s with
          | Some rest =>
              match length s - length rest with
              | O => rep ++ c :: replaceFrom re rep (Some c) t 0
              | S n => rep ++ replaceFrom re rep (Some c) t n
              end
          | None => c :: replaceFrom re rep (Some c) t 0
          end
      end
  end.

Definition replace (re : RegExp) (rep : text) (s : text) : text :=
  replaceFrom re rep None s 0.

(** [String.prototype.match] with a global pattern, followed by [|| []]:
    the list of matched substrings, empty when there is no match. *)
Fixpoint matchFrom (re : RegExp) (prev : option ascii) (s : text)
    (skip : nat) : list text :=
  match s with
  | [] =>
      match skip, exec re prev [] with
      | O, Some _ => [[]]
      | _, _ => []
      end
  | c :: t =>
      match skip with
      | S n => matchFrom re (Some c) t n
      | O =>
          match exec re prev s with
          | Some rest =>
              let n := length s - length rest in
              take n s :: matchFrom re (Some c) t (n - 1)
          | None => matchFrom re (Some c) t 0
          end
      end
  end.

Definition match_ (re : RegExp) (s : text) : list text :=
  matchFrom re None s 0.

(** [String.prototype.split] with a pattern without capture groups: [cur]
    is the piece being collected, in reverse. A match that ends where
    the previous piece ended does not split. *)
Fixpoint splitFrom (re : RegExp) (prev : option ascii) (s : text)
    (cur : text) (skip : nat) : list text :=
  match s with
  | [] => [rev cur]
  | c :: t =>
      match skip with
      | S n => splitFrom re (Some c) t [] n
      | O =>
          match exec re prev s with
          | Some rest =>
              match length s - length rest, cur with
              | O, [] => splitFrom re (Some c) t [c] 0
              | O, _ :: _ => rev cur :: splitFrom re (Some c) t [c] 0
              | S n, _ => rev cur :: splitFrom re (Some c) t [] n
              end
          | None => splitFrom re (Some c) t (c :: cur) 0
          end
      end
  end.

Definition split (re : RegExp) (s : text) : list text :=
  match s with
  | [] => match exec re None [] with Some _ => [] | None => [[]] end
  | _ => splitFrom re None s [] 0
  end.

(** [String.prototype.trim] *)
Fixpoint trimStart (s : text) : text :=
  match s with
  | c :: t => if isWhiteSpace c then trimStart t else s
  | [] => []
  end.

Definition trimEnd (s : text) : text := rev (trimStart (rev s)).

Definition trim (s : text) : text := trimEnd (trimStart s).

(** [String.prototype.includes] *)
Fixpoint isPrefix (p s : text) : bool :=
  match p, s with
  | [], _ => true
  | a :: p', b :: s' => bool_decide (a = b) && isPrefix p' s'
  | _ :: _, [] => false
  end.

Fixpoint includes (s w : text) : bool :=
  isPrefix w s ||
  match s with
  | [] => false
  | _ :: t => includes t w
  end.

(** [Array.prototype.join] *)
Fixpoint join (sep : text) (parts : list text) : text :=
  match parts with
  | [] => []
  | [p] => p
  | p :: rest => p ++ sep ++ join sep rest
  end.

(** [String.prototype.replace] with a pattern that is not global: the
    first match only. *)
Fixpoint replaceFirstFrom (re : RegExp) (rep : text) (prev : option ascii)
    (s : text) : text :=
  match exec re prev s with
  | Some rest => rep ++ rest
  | None =>
      match s with
      | [] => []
      | c :: t => c :: replaceFirstFrom re rep (Some c) t
      end
  end.

Definition replaceFirst (re : RegExp) (rep : text) (s : text) : text :=
  replaceFirstFrom re rep None s.

(** [String.prototype.endsWith] *)
Definition endsWith (s suffix : text) : bool :=
  isPrefix (rev suffix) (rev s).

End Str.

(** ** Content normalizer ([lib/text-cleaner.ts]) *)

Definition nl : ascii := "010"%char.

Definition RE (r : regex) (fl : flags) : RegExp :=
  {| source := r; reFlags := fl |}.

Definition notGt (c : ascii) : bool := negb (bool_decide (c = ">"%char)).
Definition notSpace (c : ascii) : bool := negb (isWhiteSpace c).

(** [/<[^>]*>/g] *)
Definition reTag : RegExp :=
  RE (seqs [Char "<"; Star (Class notGt); Char ">"]) flags_g.

(** [/Subscribe now|View in browser|Share this post|Leave a comment/gi] *)
Definition reBoilerplate : RegExp :=
  RE (alts [Lit "Subscribe now"; Lit "View in browser";
            Lit "Share this post"; Lit "Leave a comment"]) flags_gi.

(** [/Paid subscribers only/gi] *)
Definition rePaidOnly : RegExp := RE (Lit "Paid subscribers only") flags_gi.

(** [/This is a subscriber-only post/gi] *)
Definition reSubscriberOnly : RegExp :=
  RE (Lit "This is a subscriber-only post") flags_gi.

(** [/^.*?Newsletter by.*?\n/gm] *)
Definition reNewsletterBy : RegExp :=
  RE (seqs [LineStart; LazyStar dot; Lit "Newsletter by"; LazyStar dot;
            Char nl]) flags_gm.

(** [/Subscribe to.*?$/gm] *)
Definition reSubscribeTo : RegExp :=
  RE (seqs [Lit "Subscribe to"; LazyStar dot; LineEnd]) flags_gm.

(** [/Unsubscribe.*?$/gm] *)
Definition reUnsubscribe : RegExp :=
  RE (seqs [Lit "Unsubscribe"; LazyStar dot; LineEnd]) flags_gm.

(** [/https?:\/\/[^\s]+/g] *)
Definition reUrl : RegExp :=
  RE (seqs [Lit "http"; Opt (Char "s"); Lit "://"; Plus (Class notSpace)])
     flags_g.

(** [/\n{3,}/g] *)
Definition reNewlines : RegExp := RE (AtLeast3 (Char nl)) flags_g.

(** [/\s{2,}/g] *)
Definition reSpaces : RegExp := RE (AtLeast2 space) flags_g.

(** [/Sign up now|Start your free trial|Upgrade to paid/gi] *)
Definition reCta : RegExp :=
  RE (alts [Lit "Sign up now"; Lit "Start your free trial";
            Lit "Upgrade to paid"]) flags_gi.

(** [/Share|Comment|Like/gi] *)
Definition reCtaWords : RegExp :=
  RE (alts [Lit "Share"; Lit "Comment"; Lit "Like"]) flags_gi.

Definition cleanSubstackContent (content : text) : text :=
  (* Remove HTML tags *)
  let cleaned := Str.replace reTag [] content in
  (* Remove Substack-specific elements *)
  let cleaned := Str.replace reBoilerplate [] cleaned in
  let cleaned := Str.replace rePaidOnly [] cleaned in
  let cleaned := Str.replace reSubscriberOnly [] cleaned in
  (* Remove common footer/header content *)
  let cleaned := Str.replace reNewsletterBy [] cleaned in
  let cleaned := Str.replace reSubscribeTo [] cleaned in
  let cleaned := Str.replace reUnsubscribe [] cleaned in
  (* Remove URLs *)
  let cleaned := Str.replace reUrl [] cleaned in
  (* Remove excessive whitespace *)
  let cleaned := Str.replace reNewlines [nl; nl] cleaned in
  let cleaned := Str.replace reSpaces (str " ") cleaned in
  (* Remove common Substack CTAs *)
  let cleaned := Str.replace reCta [] cleaned in
  let cleaned := Str.replace reCtaWords [] cleaned in
  (* Trim *)
  Str.trim cleaned.

(** ** Errors and dynamic values *)

(** A computation that returns a value or throws (a rejected promise). *)
Inductive result (A : Type) : Type :=
| Ok (a : A)
| Throw (e : text).
Arguments Ok {A} a.
Arguments Throw {A} e.

#[global] Instance result_ret : MRet result := fun A a => Ok a.
#[global] Instance result_bind : MBind result := fun A B f m =>
  match m with
  | Ok a => f a
  | Throw e => Throw e
  end.

(** [try { body } catch { handler }] *)
Definition tryCatch {A} (body : result A) (handler : text -> A) : A :=
  match body with
  | Ok a => a
  | Throw e => handler e
  end.

(** Values the code does not check before use: parsed JSON (request bodies,
    model responses) and what is built from it. Numbers are restricted to
    the integer-valued ones. *)
Inductive jsval : Type :=
| JUndefined
| JNull
| JBool (b : bool)
| JNum (n : Z)
| JStr (s : text)
| JArr (l : list jsval)
| JObj (fields : list (text * jsval)).

Definition truthy (v : jsval) : bool :=
  match v with
  | JUndefined | JNull => false
  | JBool b => b
  | JNum n => negb (n =? 0)%Z
  | JStr s => negb (bool_decide (s = []))
  | JArr _ | JObj _ => true
  end.

(** [v || d] *)
Definition orDefault (v d : jsval) : jsval := if truthy v then v else d.

(** The value of a key in a parsed object: of duplicate keys the last one
    counts. *)
Fixpoint lookupField (k : text) (fields : list (text * jsval)) : option jsval :=
  match fields with
  | [] => None
  | (k', v) :: rest =>
      match lookupField k rest with
      | Some v' => Some v'
      | None => if decide (k = k') then Some v else None
      end
  end.

(** [v.k] for the keys the code reads (none of them is a property of a
    prototype): reading a property of [null] or [undefined] throws, other
    values without the key give [undefined]. *)
Definition getProp (v : jsval) (k : string) : result jsval :=
  match v with
  | JUndefined | JNull =>
      Throw (str "TypeError: Cannot read properties of null or undefined")
  | JObj fields => Ok (default JUndefined (lookupField (str k) fields))
  | _ => Ok JUndefined
  end.

Definition natToText (n : nat) : text :=
  str (DecimalString.NilEmpty.string_of_uint (Nat.to_uint n)).

Definition intToText (n : Z) : text :=
  str (DecimalString.NilEmpty.string_of_int (Z.to_int n)).

(** ** Data model ([types/index.ts]) *)

Record Influencer := {
  inf_id : text;
  inf_name : text;
  inf_slug : text;
  substackUrl : text;
  rssUrl : text;
  inf_description : jsval;
  lastAnalyzed : option text;
  postCount : option nat
}.

Record Post := {
  post_id : text;
  title : text;
  content : text;
  cleanContent : text;
  pubDate : text;
  link : text;
  author : option text;
  categories : option (list text)
}.

Record Positioning := {
  archetype : jsval;
  authority : jsval;
  relatability : jsval;
  expertise : jsval;
  description : jsval
}.

Record Tone := {
  primary : jsval;
  secondary : jsval;
  emotionalRange : jsval
}.

(** The model-backed path stores what the model answered without checking
    it, so the fields of a brand profile are dynamic values. *)
Record BrandProfile := {
  positioning : Positioning;
  tone : Tone;
  uniqueValue : jsval
}.

Inductive Complexity := simple | moderate | complex.

Record EmotionalTone := {
  positive : Z;
  negative : Z;
  neutral : Z
}.

Record LanguagePatterns := {
  commonPhrases : list text;
  vocabularyComplexity : Complexity;
  sentenceStructure : text;
  rhetoricalDevices : list text;
  powerWords : list text;
  emotionalTone : EmotionalTone
}.

Inductive Impact := low | medium | high.

Record PsychologicalTrigger := {
  type : text;
  frequency : nat;
  examples : list text;
  impact : Impact
}.

Record TransformationNarrative := {
  beforeState : text;
  afterState : text;
  journey : list text;
  promises : list text;
  evidence : list text
}.

Record MissionVision := {
  mission : text;
  vision : text;
  values : list text;
  beliefs : list text;
  goals : list text
}.

Record NeuropsychAnalysis := {
  influencerId : text;
  analyzedAt : text;
  posts : list Post;
  brandProfile : BrandProfile;
  languagePatterns : LanguagePatterns;
  psychologicalTriggers : list PsychologicalTrigger;
  transformationNarrative : TransformationNarrative;
  missionVision : MissionVision;
  overallAssessment : text
}.

#[global] Instance Impact_eq_dec : EqDecision Impact.
Proof. solve_decision. Defined.

(** ** Shared pieces of the extractors *)

(** A [Map<string, number>] keeps its keys in insertion order. *)
Abbreviation PhraseMap := (list (text * nat)).

Fixpoint mapGet (k : text) (m : PhraseMap) : option nat :=
  match m with
  | [] => None
  | (k', v) :: rest => if decide (k' = k) then Some v else mapGet k rest
  end.

Fixpoint mapSet (k : text) (v : nat) (m : PhraseMap) : PhraseMap :=
  match m with
  | [] => [(k, v)]
  | (k', v') :: rest =>
      if decide (k' = k) then (k', v) :: rest else (k', v') :: mapSet k v rest
  end.

(** [phraseMap.set(phrase, (phraseMap.get(phrase) || 0) + 1)] *)
Definition countPhrase (m : PhraseMap) (phrase : text) : PhraseMap :=
  mapSet phrase (default 0 (mapGet phrase m) + 1) m.

(** [entries.sort((a, b) => b[1] - a[1])]: a stable sort by descending
    count. *)
Fixpoint insertByCount (x : text * nat) (l : PhraseMap) : PhraseMap :=
  match l with
  | [] => [x]
  | y :: t => if snd y <=? snd x then x :: y :: t else y :: insertByCount x t
  end.

Definition sortByCountDesc (l : PhraseMap) : PhraseMap :=
  foldr insertByCount [] l.

(** [Array.from(phraseMap.entries()).sort(...).slice(0, 5)] mapped to the
    phrases. *)
Definition topPhrases (m : PhraseMap) : list text :=
  map fst (take 5 (sortByCountDesc m)).

(** [Array.from(new Set(xs))]: the distinct elements in the order of their
    first occurrence. *)
Definition setAdd (acc : list text) (x : text) : list text :=
  if decide (x ∈ acc) then acc else acc ++ [x].

Definition setFromArray (xs : list text) : list text :=
  foldl setAdd [] xs.

(** Numbers are binary64 values ([prec = 53], [emax = 1024]), rounded to
    nearest, ties to even. *)
Definition toNumber (n : Z) : spec_float :=
  binary_normalize 53 1024 n 0 false.

(** [Math.round]: the nearest integer, halves towards positive infinity.
    The value of a finite number is [m * 2 ^ e], so the result is the
    floor of [(2 * m * 2 ^ e + 1) / 2]. The extractors divide by a positive
    count, so infinities and NaN do not reach it. *)
Definition mathRound (x : spec_float) : Z :=
  match x with
  | S754_finite s m e =>
      let n := if s then Z.neg m else Z.pos m in
      if (0 <=? e)%Z then (n * 2 ^ e)%Z
      else ((2 * n + 2 ^ (- e)) / (2 * 2 ^ (- e)))%Z
  | _ => 0%Z
  end.

(** [Math.round((num / den) * scale)]: the quotient and the product are
    each rounded to binary64 before [Math.round] is taken. *)
Definition roundRatio (num den scale : Z) : Z :=
  mathRound
    (SFmul 53 1024 (SFdiv 53 1024 (toNumber num) (toNumber den))
       (toNumber scale)).

(** [/\s+/] and [/[.!?]+/] *)
Definition reWhitespace : RegExp := RE (Plus space) flags_none.

Definition isSentenceEnd (c : ascii) : bool :=
  bool_decide (c = "."%char) || bool_decide (c = "!"%char)
  || bool_decide (c = "?"%char).

Definition reSentenceEnd : RegExp :=
  RE (Plus (Class isSentenceEnd)) flags_none.

(** ** Report assembler ([lib/neuropsych-analyzer.ts]) *)

Module Analyzer.

Record OpenAI := { apiKey : text }.

(** What the assembler reads from outside: the credential of the
    environment, and the remote completion service. [chat client prompt]
    stands for the request, the selection of the first choice and
    [JSON.parse] of its content ([{}] when empty): it throws when any of
    them does. *)
Record Env := {
  OPENAI_API_KEY : option text;
  chat : OpenAI -> text -> result jsval
}.

(** The module variable [openai] is threaded as state. *)
Definition getOpenAIClient (env : Env) (openai : option OpenAI)
    : option OpenAI * option OpenAI :=
  match OPENAI_API_KEY env with
  | None => (None, openai)
  | Some key =>
      if bool_decide (key = []) then (None, openai)
      else match openai with
           | Some client => (Some client, openai)
           | None =>
               let client := {| apiKey := key |} in (Some client, Some client)
           end
  end.

Definition getDefaultBrandProfile : BrandProfile :=
  {| positioning :=
       {| archetype := JStr (str "Creator");
          authority := JNum 75;
          relatability := JNum 80;
          expertise := JNum 85;
          description :=
            JStr (str "A thought leader sharing practical insights from experience") |};
     tone :=
       {| primary := JStr (str "Conversational");
          secondary := JArr [JStr (str "Inspiring"); JStr (str "Educational")];
          emotionalRange := JStr (str "Balanced with optimistic lean") |};
     uniqueValue :=
       JStr (str "Bridging the gap between theory and practice with real-world examples") |}.

Definition brandPrompt (content : text) : text :=
  str "Analyze the following content and identify the brand profile:
  1. What archetype does this person embody? (e.g., Sage, Hero, Creator, Ruler, etc.)
  2. Rate their authority level (0-100)
  3. Rate their relatability (0-100)
  4. Rate their expertise demonstration (0-100)
  5. What is their primary and secondary tone?
  6. What is their unique value proposition?
  
  Content: " ++ take 3000 content ++ str "
  
  Respond in JSON format.".

(** The object literal built from the parsed answer: each field is the
    model's value when truthy and a fixed default otherwise. *)
Definition profileOfAnswer (answer : jsval) : result BrandProfile :=
  archetype_ ← getProp answer "archetype";
  authority_ ← getProp answer "authority";
  relatability_ ← getProp answer "relatability";
  expertise_ ← getProp answer "expertise";
  description_ ← getProp answer "description";
  primaryTone_ ← getProp answer "primaryTone";
  secondaryTones_ ← getProp answer "secondaryTones";
  emotionalRange_ ← getProp answer "emotionalRange";
  uniqueValue_ ← getProp answer "uniqueValue";
  mret
    {| positioning :=
         {| archetype := orDefault archetype_ (JStr (str "Creator"));
            authority := orDefault authority_ (JNum 75);
            relatability := orDefault relatability_ (JNum 80);
            expertise := orDefault expertise_ (JNum 85);
            description :=
              orDefault description_
                (JStr (str "A thought leader sharing insights")) |};
       tone :=
         {| primary := orDefault primaryTone_ (JStr (str "Conversational"));
            secondary :=
              orDefault secondaryTones_
                (JArr [JStr (str "Inspiring"); JStr (str "Educational")]);
            emotionalRange := orDefault emotionalRange_ (JStr (str "Balanced")) |};
       uniqueValue :=
         orDefault uniqueValue_
           (JStr (str "Practical insights from real experience")) |}.

Definition analyzeBrandProfile (env : Env) (openai : option OpenAI)
    (content : text) : BrandProfile * option OpenAI :=
  let '(client, openai) := getOpenAIClient env openai in
  match client with
  | None => (getDefaultBrandProfile, openai)
  | Some client =>
      (tryCatch
         (answer ← chat env client (brandPrompt content);
          profileOfAnswer answer)
         (fun _ => getDefaultBrandProfile),
       openai)
  end.

Definition powerWordList : list text :=
  map str ["transform"; "success"; "growth"; "master"; "achieve"; "powerful";
           "breakthrough"; "revolutionary"]%string.

(** [/\b(great|amazing|excellent|fantastic|wonderful|success|love|happy)\b/gi] *)
Definition rePositive : RegExp :=
  RE (seqs [WordBoundary;
            alts [Lit "great"; Lit "amazing"; Lit "excellent"; Lit "fantastic";
                  Lit "wonderful"; Lit "success"; Lit "love"; Lit "happy"];
            WordBoundary]) flags_gi.

(** [/\b(bad|terrible|awful|hate|fail|wrong|mistake|problem)\b/gi] *)
Definition reNegative : RegExp :=
  RE (seqs [WordBoundary;
            alts [Lit "bad"; Lit "terrible"; Lit "awful"; Lit "hate";
                  Lit "fail"; Lit "wrong"; Lit "mistake"; Lit "problem"];
            WordBoundary]) flags_gi.

Definition positiveWords (content : text) : list text :=
  Str.match_ rePositive content.

Definition negativeWords (content : text) : list text :=
  Str.match_ reNegative content.

(** The loop over the sentences that fills [phraseMap]. *)
Definition countSentence (m : PhraseMap) (sentence : text) : PhraseMap :=
  let cleaned := Str.trim (Str.toLowerCase sentence) in
  if (10 <? length cleaned) && (length cleaned <? 100)
  then countPhrase m cleaned else m.

Definition analyzeLanguagePatterns (content : text) : LanguagePatterns :=
  let words := Str.split reWhitespace content in
  let sentences := Str.split reSentenceEnd content in
  let phraseMap := foldl countSentence [] sentences in
  let commonPhrases := topPhrases phraseMap in
  let foundPowerWords :=
    filter (fun word => Str.includes (Str.toLowerCase content) word = true)
      powerWordList in
  let positiveWords := positiveWords content in
  let negativeWords := negativeWords content in
  let totalEmotionalWords := length positiveWords + length negativeWords + 100 in
  {| commonPhrases := commonPhrases;
     vocabularyComplexity :=
       if 20 * length sentences <? length words then complex else moderate;
     sentenceStructure := str "Varied with mix of short and long sentences";
     rhetoricalDevices := map str ["Storytelling"; "Questions"; "Metaphors"]%string;
     powerWords := foundPowerWords;
     emotionalTone :=
       {| positive :=
            roundRatio (Z.of_nat (length positiveWords))
              (Z.of_nat totalEmotionalWords) 100;
          negative :=
            roundRatio (Z.of_nat (length negativeWords))
              (Z.of_nat totalEmotionalWords) 100;
          neutral :=
            roundRatio
              (Z.of_nat totalEmotionalWords - Z.of_nat (length positiveWords)
               - Z.of_nat (length negativeWords))
              (Z.of_nat totalEmotionalWords) 100 |} |}.

(** [/limited time|don't miss|exclusive|only \d+|last chance/gi] *)
Definition fomoPatterns : RegExp :=
  RE (alts [Lit "limited time"; Lit "don't miss"; Lit "exclusive";
            Seq (Lit "only ") (Plus digit); Lit "last chance"]) flags_gi.

(** [/\d+\s*(people|customers|users|subscribers)|testimonial|success story/gi] *)
Definition socialProofPatterns : RegExp :=
  RE (alts [seqs [Plus digit; Star space;
                  alts [Lit "people"; Lit "customers"; Lit "users";
                        Lit "subscribers"]];
            Lit "testimonial"; Lit "success story"]) flags_gi.

(** [/expert|proven|research shows|studies indicate|years of experience/gi] *)
Definition authorityPatterns : RegExp :=
  RE (alts [Lit "expert"; Lit "proven"; Lit "research shows";
            Lit "studies indicate"; Lit "years of experience"]) flags_gi.

(** [/free|bonus|gift|complimentary|no cost/gi] *)
Definition reciprocityPatterns : RegExp :=
  RE (alts [Lit "free"; Lit "bonus"; Lit "gift"; Lit "complimentary";
            Lit "no cost"]) flags_gi.

Definition fomoTrigger (content : text) : list PsychologicalTrigger :=
  let fomoMatches := Str.match_ fomoPatterns content in
  if 0 <? length fomoMatches then
    [{| type := str "FOMO (Fear of Missing Out)";
        frequency := length fomoMatches;
        examples := take 3 fomoMatches;
        impact := if 5 <? length fomoMatches then high else medium |}]
  else [].

Definition socialTrigger (content : text) : list PsychologicalTrigger :=
  let socialMatches := Str.match_ socialProofPatterns content in
  if 0 <? length socialMatches then
    [{| type := str "Social Proof";
        frequency := length socialMatches;
        examples := take 3 socialMatches;
        impact := if 3 <? length socialMatches then high else medium |}]
  else [].

Definition authorityTrigger (content : text) : list PsychologicalTrigger :=
  let authorityMatches := Str.match_ authorityPatterns content in
  if 0 <? length authorityMatches then
    [{| type := str "Authority";
        frequency := length authorityMatches;
        examples := take 3 authorityMatches;
        impact := if 4 <? length authorityMatches then high else medium |}]
  else [].

Definition reciprocityTrigger (content : text) : list PsychologicalTrigger :=
  let reciprocityMatches := Str.match_ reciprocityPatterns content in
  if 0 <? length reciprocityMatches then
    [{| type := str "Reciprocity";
        frequency := length reciprocityMatches;
        examples := take 3 reciprocityMatches;
        impact := if 2 <? length reciprocityMatches then medium else low |}]
  else [].

(** The four [if (matches.length > 0) triggers.push(...)] blocks in order. *)
Definition analyzePsychologicalTriggers (content : text)
    : list PsychologicalTrigger :=
  fomoTrigger content ++ socialTrigger content ++ authorityTrigger content
  ++ reciprocityTrigger content.

Definition analyzeTransformationNarrative (content : text)
    : TransformationNarrative :=
  {| beforeState := str "Struggling with traditional approaches";
     afterState := str "Achieving success through innovative methods";
     journey :=
       map str ["Recognized the problem"; "Experimented with solutions";
                "Found breakthrough approach"; "Scaled and systematized";
                "Sharing knowledge with others"]%string;
     promises :=
       map str ["Learn from real experience"; "Avoid common mistakes";
                "Accelerate your growth"; "Build sustainable success"]%string;
     evidence :=
       map str ["Personal case studies"; "Client success stories";
                "Data and metrics"; "Industry recognition"]%string |}.

Definition analyzeMissionVision (content : text) : MissionVision :=
  {| mission :=
       str "To share practical insights that help entrepreneurs and creators build successful businesses";
     vision :=
       str "A world where everyone has access to the knowledge and tools needed to create value";
     values :=
       map str ["Transparency"; "Continuous Learning"; "Community";
                "Innovation"; "Practical Application"]%string;
     beliefs :=
       map str ["Success comes from consistent action";
                "Learning from others accelerates growth";
                "Building in public creates accountability";
                "Small experiments lead to big breakthroughs"]%string;
     goals :=
       map str ["Educate and inspire creators"; "Build a supportive community";
                "Share actionable strategies"; "Document the journey"]%string |}.

Definition generateOverallAssessment (content : text) : text :=
  str "This influencer demonstrates a strong command of neuropsychological branding principles. Their content consistently employs authority-building language while maintaining relatability through personal storytelling. The transformation narrative is clear and compelling, moving from struggle to success through systematic experimentation. Key psychological triggers including social proof and FOMO are strategically deployed without being overwhelming. The overall brand positioning balances expertise with accessibility, making complex topics digestible for the target audience.".

Definition getDefaultAnalysis (influencerId : text) (posts : list Post)
    (now : text) : NeuropsychAnalysis :=
  {| influencerId := influencerId;
     analyzedAt := now;
     posts := posts;
     brandProfile := getDefaultBrandProfile;
     languagePatterns :=
       {| commonPhrases := [];
          vocabularyComplexity := moderate;
          sentenceStructure := str "Varied";
          rhetoricalDevices := [str "Storytelling"];
          powerWords := [];
          emotionalTone :=
            {| positive := 60%Z; negative := 10%Z; neutral := 30%Z |} |};
     psychologicalTriggers := [];
     transformationNarrative :=
       {| beforeState := str "Starting point";
          afterState := str "Success achieved";
          journey := map str ["Discovery"; "Learning"; "Application"]%string;
          promises := map str ["Growth"; "Success"]%string;
          evidence := map str ["Results"; "Testimonials"]%string |};
     missionVision :=
       {| mission := str "To educate and inspire";
          vision := str "A better future";
          values := map str ["Innovation"; "Community"]%string;
          beliefs := [str "Continuous improvement"];
          goals := map str ["Impact"; "Growth"]%string |};
     overallAssessment := str "Analysis pending" |}.

(** The six extractors of [Promise.all], each a promise that resolves or
    rejects; only the brand profile touches the module state. [now] is the
    clock reading when the report is built. *)
Definition analyzeNeuropsychology (env : Env) (openai : option OpenAI)
    (now : text) (influencerId : text) (posts : list Post)
    : result NeuropsychAnalysis * option OpenAI :=
  let combinedContent := Str.join [nl; nl] (map cleanContent posts) in
  let '(brandProfile_, openai) := analyzeBrandProfile env openai combinedContent in
  (Ok
     (tryCatch
        (brandProfile ← Ok brandProfile_;
         languagePatterns ← Ok (analyzeLanguagePatterns combinedContent);
         psychologicalTriggers ← Ok (analyzePsychologicalTriggers combinedContent);
         transformationNarrative ← Ok (analyzeTransformationNarrative combinedContent);
         missionVision ← Ok (analyzeMissionVision combinedContent);
         overallAssessment ← Ok (generateOverallAssessment combinedContent);
         mret
           {| influencerId := influencerId;
              analyzedAt := now;
              posts := posts;
              brandProfile := brandProfile;
              languagePatterns := languagePatterns;
              psychologicalTriggers := psychologicalTriggers;
              transformationNarrative := transformationNarrative;
              missionVision := missionVision;
              overallAssessment := overallAssessment |})
        (fun _ => getDefaultAnalysis influencerId posts now)),
   openai).

End Analyzer.

(** ** Batch script ([scripts/analyze-posts.ts]) *)

Module Script.

Record AnalysisConfig := {
  cfg_name : text;
  cfg_slug : text;
  cfg_archetype : text;
  cfg_authority : Z;
  cfg_relatability : Z;
  cfg_expertise : Z;
  primaryTone : text;
  secondaryTones : list text;
  cfg_uniqueValue : text;
  cfg_mission : text;
  cfg_vision : text
}.

Definition gregIsenberg : AnalysisConfig :=
  {| cfg_name := str "Greg Isenberg";
     cfg_slug := str "greg-isenberg";
     cfg_archetype := str "The Creator-Sage Hybrid";
     cfg_authority := 85;
     cfg_relatability := 78;
     cfg_expertise := 90;
     primaryTone := str "Conversational yet Authoritative";
     secondaryTones := map str ["Analytical"; "Playful"; "Forward-thinking"]%string;
     cfg_uniqueValue :=
       str "Bridging the gap between internet culture trends and practical business opportunities";
     cfg_mission :=
       str "To democratize knowledge of building internet-native businesses";
     cfg_vision :=
       str "A world where anyone can build successful online businesses by understanding internet culture" |}.

Definition danKoe : AnalysisConfig :=
  {| cfg_name := str "Dan Koe";
     cfg_slug := str "dan-koe";
     cfg_archetype := str "The Philosopher-King";
     cfg_authority := 92;
     cfg_relatability := 72;
     cfg_expertise := 88;
     primaryTone := str "Philosophical and Contemplative";
     secondaryTones := map str ["Motivational"; "Systematic"; "Introspective"]%string;
     cfg_uniqueValue :=
       str "Combining philosophy, spirituality, and business strategy";
     cfg_mission :=
       str "To awaken creators to their potential through focus and philosophy";
     cfg_vision :=
       str "A world where individuals create their own reality through conscious business" |}.

Definition justinWelsh : AnalysisConfig :=
  {| cfg_name := str "Justin Welsh";
     cfg_slug := str "justin-welsh";
     cfg_archetype := str "The Systematic Teacher";
     cfg_authority := 88;
     cfg_relatability := 85;
     cfg_expertise := 93;
     primaryTone := str "Educational and Actionable";
     secondaryTones := map str ["Encouraging"; "Transparent"; "Data-driven"]%string;
     cfg_uniqueValue :=
       str "Step-by-step systems that anyone can follow to build a one-person business";
     cfg_mission :=
       str "To help solopreneurs build profitable one-person businesses";
     cfg_vision :=
       str "A world where anyone can achieve financial freedom through solopreneurship" |}.

(** The per-subject configuration table, keyed by slug. *)
Definition influencerConfigs : list (text * AnalysisConfig) :=
  [(str "greg-isenberg", gregIsenberg);
   (str "dan-koe", danKoe);
   (str "justin-welsh", justinWelsh)].

Definition lookupConfig (slug : text) : option AnalysisConfig :=
  snd <$> find (fun e => bool_decide (fst e = slug)) influencerConfigs.

(** [words.slice(i, i + 4).join(' ').toLowerCase()] *)
Definition windowAt (words : list text) (i : nat) : text :=
  Str.toLowerCase (Str.join (str " ") (take 4 (drop i words))).

(** The body of the loop over [i]. *)
Definition countWindow (words : list text) (m : PhraseMap) (i : nat)
    : PhraseMap :=
  let phrase := windowAt words i in
  if (10 <? length phrase) && (length phrase <? 50)
  then countPhrase m phrase else m.

(** [for (let i = 0; i < words.length - 4; i++)] *)
Definition phraseMapOf (words : list text) : PhraseMap :=
  foldl (countWindow words) [] (seq 0 (length words - 4)).

Definition fallbackPhrases : list text :=
  map str ["building systems"; "creating value"; "growth mindset";
           "consistent action"; "leverage knowledge"]%string.

Definition powerWordsList : list text :=
  map str ["transform"; "leverage"; "scale"; "master"; "achieve"; "powerful";
           "breakthrough"; "revolutionary"; "system"; "framework"; "growth";
           "success"; "focus"; "consciousness"; "create"; "build"]%string.

(** [/\b(great|amazing|excellent|fantastic|wonderful|success|love|happy|powerful|achieve|win|growth)\b/gi] *)
Definition rePositive : RegExp :=
  RE (seqs [WordBoundary;
            alts [Lit "great"; Lit "amazing"; Lit "excellent"; Lit "fantastic";
                  Lit "wonderful"; Lit "success"; Lit "love"; Lit "happy";
                  Lit "powerful"; Lit "achieve"; Lit "win"; Lit "growth"];
            WordBoundary]) flags_gi.

(** [/\b(bad|terrible|awful|hate|fail|wrong|mistake|problem|struggle|pain|lose)\b/gi] *)
Definition reNegative : RegExp :=
  RE (seqs [WordBoundary;
            alts [Lit "bad"; Lit "terrible"; Lit "awful"; Lit "hate";
                  Lit "fail"; Lit "wrong"; Lit "mistake"; Lit "problem";
                  Lit "struggle"; Lit "pain"; Lit "lose"];
            WordBoundary]) flags_gi.

Definition allContentOf (posts : list Post) : text :=
  Str.join (str " ") (map cleanContent posts).

Definition positiveWords (allContent : text) : nat :=
  length (Str.match_ rePositive allContent).

Definition negativeWords (allContent : text) : nat :=
  length (Str.match_ reNegative allContent).

(** The phrase part of [analyzeLanguagePatterns], as a function of the
    words and of the concatenated text. *)
Definition phrasesOfWords (words : list text) : list text :=
  let commonPhrases := topPhrases (phraseMapOf words) in
  if 0 <? length commonPhrases then commonPhrases else fallbackPhrases.

Definition commonPhrasesOf (allContent : text) : list text :=
  phrasesOfWords (Str.split reWhitespace allContent).

(** Where the two patterns match more often than there are words (matches
    inside one whitespace-free run), [neutral] is negative. *)
Definition analyzeLanguagePatterns (posts : list Post) : LanguagePatterns :=
  let allContent := allContentOf posts in
  let words := Str.split reWhitespace allContent in
  let sentences := Str.split reSentenceEnd allContent in
  let foundPowerWords :=
    take 7
      (filter (fun word => Str.includes (Str.toLowerCase allContent) word = true)
         powerWordsList) in
  let positiveWords := positiveWords allContent in
  let negativeWords := negativeWords allContent in
  let totalWords := length words in
  {| commonPhrases := commonPhrasesOf allContent;
     vocabularyComplexity :=
       if 20 * length sentences <? length words then complex else moderate;
     sentenceStructure :=
       str "Varied with mix of short punchy statements and detailed explanations";
     rhetoricalDevices :=
       map str ["Storytelling"; "Pattern Recognition"; "Frameworks";
                "Analogies"]%string;
     powerWords := foundPowerWords;
     emotionalTone :=
       {| positive :=
            roundRatio (Z.of_nat positiveWords) (Z.of_nat totalWords) 1000;
          negative :=
            roundRatio (Z.of_nat negativeWords) (Z.of_nat totalWords) 1000;
          neutral :=
            roundRatio
              (Z.of_nat totalWords - Z.of_nat positiveWords
               - Z.of_nat negativeWords)
              (Z.of_nat totalWords) 1000 |} |}.

Definition wordBounded (r : regex) : regex :=
  seqs [WordBoundary; r; WordBoundary].

(** [/\b(limited time|don't miss|exclusive|only \d+|last chance|closing soon|before it's too late)\b/gi] *)
Definition fomoPatterns : RegExp :=
  RE (wordBounded
        (alts [Lit "limited time"; Lit "don't miss"; Lit "exclusive";
               Seq (Lit "only ") (Plus digit); Lit "last chance";
               Lit "closing soon"; Lit "before it's too late"])) flags_gi.

Definition isK (c : ascii) : bool :=
  bool_decide (c = "k"%char) || bool_decide (c = "K"%char).

(** [/\b(\d+[kK]?\+?\s*(people|customers|users|subscribers|students|followers)|testimonial|success story|case study)\b/gi] *)
Definition socialPatterns : RegExp :=
  RE (wordBounded
        (alts [seqs [Plus digit; Opt (Class isK); Opt (Char "+"); Star space;
                     alts [Lit "people"; Lit "customers"; Lit "users";
                           Lit "subscribers"; Lit "students"; Lit "followers"]];
               Lit "testimonial"; Lit "success story"; Lit "case study"]))
     flags_gi.

(** [/\b(expert|proven|research shows|studies|years of experience|I've tested|I've built|my system)\b/gi] *)
Definition authorityPatterns : RegExp :=
  RE (wordBounded
        (alts [Lit "expert"; Lit "proven"; Lit "research shows"; Lit "studies";
               Lit "years of experience"; Lit "I've tested"; Lit "I've built";
               Lit "my system"])) flags_gi.

(** [/\b(transform|change your life|breakthrough|unlock|discover|master|become|achieve)\b/gi] *)
Definition transformPatterns : RegExp :=
  RE (wordBounded
        (alts [Lit "transform"; Lit "change your life"; Lit "breakthrough";
               Lit "unlock"; Lit "discover"; Lit "master"; Lit "become";
               Lit "achieve"])) flags_gi.

(** One [if (matches.length > 0) triggers.push(...)] block: the four blocks
    differ in pattern, label and threshold only. *)
Definition triggerOf (patterns : RegExp) (label : string) (threshold : nat)
    (allContent : text) : list PsychologicalTrigger :=
  let matches := Str.match_ patterns allContent in
  if 0 <? length matches then
    [{| type := str label;
        frequency := length matches;
        examples := take 3 (setFromArray matches);
        impact := if threshold <? length matches then high else medium |}]
  else [].

Definition triggersOfContent (allContent : text) : list PsychologicalTrigger :=
  triggerOf fomoPatterns "FOMO (Fear of Missing Out)" 5 allContent
  ++ triggerOf socialPatterns "Social Proof" 3 allContent
  ++ triggerOf authorityPatterns "Authority Building" 4 allContent
  ++ triggerOf transformPatterns "Transformation Promise" 6 allContent.

Definition analyzePsychologicalTriggers (posts : list Post)
    : list PsychologicalTrigger :=
  triggersOfContent (allContentOf posts).

(** The brand profile of [analyzeInfluencer], read off the configuration. *)
Definition brandProfileOf (config : AnalysisConfig) : BrandProfile :=
  {| positioning :=
       {| archetype := JStr (cfg_archetype config);
          authority := JNum (cfg_authority config);
          relatability := JNum (cfg_relatability config);
          expertise := JNum (cfg_expertise config);
          description :=
            JStr (cfg_name config ++ str " positions as "
                  ++ Str.toLowerCase (cfg_archetype config) ++ str ", "
                  ++ Str.toLowerCase (cfg_uniqueValue config)) |};
     tone :=
       {| primary := JStr (primaryTone config);
          secondary := JArr (map JStr (secondaryTones config));
          emotionalRange := JStr (str "Balanced with strategic emotional peaks") |};
     uniqueValue := JStr (cfg_uniqueValue config) |}.

Definition transformationNarrativeOf : TransformationNarrative :=
  {| beforeState :=
       str "Struggling with traditional approaches and conventional wisdom";
     afterState :=
       str "Thriving with new frameworks and unconventional strategies";
     journey :=
       map str ["Recognized limitations of traditional path";
                "Discovered new approaches through experimentation";
                "Developed unique systems and frameworks";
                "Achieved measurable success";
                "Now teaching others the methodology"]%string;
     promises :=
       map str ["Learn proven strategies"; "Avoid common mistakes";
                "Accelerate your growth"; "Build sustainable success";
                "Join a community of like-minded creators"]%string;
     evidence :=
       map str ["Personal success metrics"; "Student success stories";
                "Documented case studies"; "Industry recognition"]%string |}.

Definition missionVisionOf (config : AnalysisConfig) : MissionVision :=
  {| mission := cfg_mission config;
     vision := cfg_vision config;
     values :=
       map str ["Transparency"; "Continuous Learning"; "Community";
                "Innovation"; "Practical Application"]%string;
     beliefs :=
       map str ["Success comes from consistent action"; "Systems beat talent";
                "Learning accelerates growth"; "Community amplifies success";
                "Small experiments lead to breakthroughs"]%string;
     goals :=
       map str ["Educate and inspire creators"; "Build supportive communities";
                "Share actionable strategies"; "Document the journey";
                "Create lasting impact"]%string |}.

Definition overallAssessmentOf (config : AnalysisConfig) (posts : list Post)
    : text :=
  cfg_name config
  ++ str " demonstrates mastery of neuropsychological branding through "
  ++ Str.toLowerCase (cfg_archetype config)
  ++ str " positioning. The content consistently employs authority-building language ("
  ++ intToText (cfg_authority config)
  ++ str "% authority score) while maintaining relatability ("
  ++ intToText (cfg_relatability config)
  ++ str "%). The transformation narrative from traditional approaches to innovative systems resonates strongly with the target audience. Key psychological triggers are strategically deployed throughout the content, creating urgency without overwhelming. The "
  ++ Str.toLowerCase (primaryTone config)
  ++ str " tone establishes credibility while the unique value proposition of "
  ++ Str.toLowerCase (cfg_uniqueValue config)
  ++ str " differentiates from competitors. Analysis of "
  ++ natToText (length posts)
  ++ str " posts reveals consistent messaging and strategic psychological frameworks designed to inspire action while building trust.".

(** [readPosts slug] stands for reading and parsing the posts file of the
    slug. A slug without configuration makes the first use of [config]
    throw. *)
Definition analyzeInfluencer (readPosts : text -> result (list Post))
    (now : text) (slug : text) : result NeuropsychAnalysis :=
  let config := lookupConfig slug in
  posts ← readPosts slug;
  config ← match config with
           | Some c => Ok c
           | None =>
               Throw (str "TypeError: Cannot read properties of undefined")
           end;
  mret
    {| influencerId := slug;
       analyzedAt := now;
       posts := take 25 posts;
       brandProfile := brandProfileOf config;
       languagePatterns := analyzeLanguagePatterns posts;
       psychologicalTriggers := analyzePsychologicalTriggers posts;
       transformationNarrative := transformationNarrativeOf;
       missionVision := missionVisionOf config;
       overallAssessment := overallAssessmentOf config posts |}.

End Script.

(** ** Feed retriever ([lib/rss-parser.ts]) *)

Record Item := {
  item_title : option text;
  item_content : option text;
  contentSnippet : option text;
  item_pubDate : option text;
  item_link : option text;
  creator : option text;
  item_categories : option (list text)
}.

Record Feed := {
  feed_title : option text;
  items : list Item
}.

(** [o || d] on an optional string: the empty string is falsy. *)
Definition orText (o : option text) (d : text) : text :=
  match o with
  | Some (c :: t) => c :: t
  | _ => d
  end.

Definition postOfItem (feed : Feed) (now : text) (index : nat) (item : Item)
    : Post :=
  {| post_id :=
       match feed_title feed with
       | Some t => Str.replace reWhitespace (str "-") (Str.toLowerCase t)
       | None => str "undefined"
       end ++ str "-" ++ natToText index;
     title := orText (item_title item) [];
     content := orText (item_content item) (orText (contentSnippet item) []);
     cleanContent := [];
     pubDate := orText (item_pubDate item) now;
     link := orText (item_link item) [];
     author :=
       match creator item with
       | Some (c :: t) => Some (c :: t)
       | _ => feed_title feed
       end;
     categories := Some (default [] (item_categories item)) |}.

(** [parseURL] stands for the feed parser of the [rss-parser] package. *)
Definition fetchRSSFeed (parseURL : text -> result Feed) (now : text)
    (feedUrl : text) : result (list Post) :=
  match parseURL feedUrl with
  | Ok feed => Ok (imap (postOfItem feed now) (items feed))
  | Throw _ => Throw (str "Failed to fetch RSS feed")
  end.

(** [/\/$/] *)
Definition reTrailingSlash : RegExp :=
  RE (Seq (Char "/") LineEnd) flags_none.

Definition fetchSubstackFeed (parseURL : text -> result Feed) (now : text)
    (substackUrl : text) : result (list Post) :=
  let feedUrl :=
    if Str.endsWith substackUrl (str "/feed") then substackUrl
    else Str.replaceFirst reTrailingSlash [] substackUrl ++ str "/feed" in
  fetchRSSFeed parseURL now feedUrl.

(** ** Persistence adapter ([lib/data-manager.ts]) *)

(** The bytes of a file name in UTF-8: one for a code unit below U+0080,
    two for the others. *)
Definition utf8Length (name : text) : nat :=
  foldr (fun c n => (if code c <? 128 then 1 else 2) + n) 0 name.

(** The names under which [fs.writeFile] and [fs.readFile] reach a file of
    a data directory: at most 255 bytes (the NAME_MAX of the file system),
    no NUL, no path separator. The calls reject a longer name
    (ENAMETOOLONG) and a name with a NUL (ERR_INVALID_ARG_VALUE). A name
    with a separator leads out of the directory, to places the store does
    not describe: it is taken to reject as well (ENOENT), and the
    properties of whole runs are stated for names without one. *)
Definition fileNameOk (name : text) : bool :=
  forallb (fun c => negb (bool_decide (c = "/"%char))
                    && negb (bool_decide (c = "000"%char))) name
  && (utf8Length name <=? 255).

(** The data directory: the roster file ([None] when it is missing or does
    not parse) and the analyses directory, one file per influencer id. The
    directories can be written and names are compared as strings. *)
Record Store := {
  influencersFile : option (list Influencer);
  analysesDir : gmap text NeuropsychAnalysis
}.

Definition getInfluencers (st : Store) : list Influencer :=
  default [] (influencersFile st).

(** The new content of the roster: [findIndex] by id, then replacement at
    that index or [push]. *)
Definition savedRoster (influencer : Influencer) (influencers : list Influencer)
    : list Influencer :=
  match list_find (fun i => inf_id i = inf_id influencer) influencers with
  | Some (existingIndex, _) => <[existingIndex := influencer]> influencers
  | None => influencers ++ [influencer]
  end.

Definition saveInfluencer (influencer : Influencer) (st : Store) : Store :=
  {| influencersFile := Some (savedRoster influencer (getInfluencers st));
     analysesDir := analysesDir st |}.

Definition getInfluencer (slug : text) (st : Store) : option Influencer :=
  find (fun i => bool_decide (inf_slug i = slug)) (getInfluencers st).

Definition analysisFile (influencerId : text) : text :=
  influencerId ++ str ".json".

(** [fs.writeFile] of an analysis under a file name of the analyses
    directory. *)
Definition writeAnalysisFile (name : text) (analysis : NeuropsychAnalysis)
    (st : Store) : result Store :=
  if fileNameOk name then
    Ok {| influencersFile := influencersFile st;
          analysesDir := <[name := analysis]> (analysesDir st) |}
  else Throw (str "writeFile: the file name was rejected").

Definition saveAnalysis (analysis : NeuropsychAnalysis) (st : Store)
    : result Store :=
  writeAnalysisFile (analysisFile (influencerId analysis)) analysis st.

(** A file that cannot be read, for want of the file or of a name the file
    system takes, gives [null]. *)
Definition getAnalysis (influencerId : text) (st : Store)
    : option NeuropsychAnalysis :=
  if fileNameOk (analysisFile influencerId)
  then analysesDir st !! analysisFile influencerId
  else None.

(** ** Analyze endpoint ([app/api/analyze/route.ts]) *)

Inductive Payload :=
| ErrorPayload (error : text)
| SuccessPayload (influencer : Influencer) (analysisId : text).

Record Response := {
  status : nat;
  payload : Payload
}.

(** What a request brings and what the handler reads from outside:
    [requestJson] is the outcome of [request.json()], the two clock
    readings are those of the feed retrieval and of the influencer
    record; the report's own reading is [analyzedNow]. *)
Record RequestEnv := {
  requestJson : result jsval;
  parseURL : text -> result Feed;
  fetchedNow : text;
  savedNow : text;
  analyzedNow : text;
  analyzerEnv : Analyzer.Env
}.

(** A method of strings called on a value: a [TypeError] on anything else. *)
Definition asString (v : jsval) : result text :=
  match v with
  | JStr s => Ok s
  | _ => Throw (str "TypeError: not a function")
  end.

Definition validationError : Response :=
  {| status := 400;
     payload := ErrorPayload (str "Name and Substack URL are required") |}.

Definition failure : Response :=
  {| status := 500; payload := ErrorPayload (str "Failed to analyze influencer") |}.

(** The part of the handler before the first write: the request is read
    and checked, the feed fetched and cleaned, the influencer record
    built. [inl] is the early return of the validation. *)
Definition prepare (env : RequestEnv)
    : result (Response + Influencer * list Post) :=
  body ← requestJson env;
  name ← getProp body "name";
  substackUrl ← getProp body "substackUrl";
  description ← getProp body "description";
  if negb (truthy name) || negb (truthy substackUrl) then
    mret (inl validationError)
  else
    nameStr ← asString name;
    (* Create influencer slug *)
    let slug := Str.replace reWhitespace (str "-") (Str.toLowerCase nameStr) in
    let id := slug in
    (* Fetch RSS feed *)
    url ← asString substackUrl;
    posts ← fetchSubstackFeed (parseURL env) (fetchedNow env) url;
    (* Clean content *)
    let cleanedPosts :=
      map (fun post =>
             {| post_id := post_id post;
                title := title post;
                content := content post;
                cleanContent := cleanSubstackContent (content post);
                pubDate := pubDate post;
                link := link post;
                author := author post;
                categories := categories post |}) posts in
    (* Create influencer record *)
    let influencer :=
      {| inf_id := id;
         inf_name := nameStr;
         inf_slug := slug;
         substackUrl := url;
         rssUrl :=
           if Str.endsWith url (str "/feed") then url else url ++ str "/feed";
         inf_description :=
           orDefault description
             (JStr (str "Analysis of " ++ nameStr ++ str "'s content"));
         lastAnalyzed := Some (savedNow env);
         postCount := Some (length cleanedPosts) |} in
    mret (inr (influencer, cleanedPosts)).

Definition POST (env : RequestEnv) (st : Store)
    (openai : option Analyzer.OpenAI)
    : Response * Store * option Analyzer.OpenAI :=
  match prepare env with
  | Throw _ => (failure, st, openai)
  | Ok (inl response) => (response, st, openai)
  | Ok (inr (influencer, cleanedPosts)) =>
      (* Save influencer *)
      let st := saveInfluencer influencer st in
      (* Analyze neuropsychology *)
      let '(analysis, openai) :=
        Analyzer.analyzeNeuropsychology (analyzerEnv env) openai
          (analyzedNow env) (inf_id influencer) cleanedPosts in
      match analysis with
      | Throw _ => (failure, st, openai)
      | Ok analysis =>
          (* Save analysis *)
          match saveAnalysis analysis st with
          | Throw _ => (failure, st, openai)
          | Ok st =>
              ({| status := 200;
                  payload := SuccessPayload influencer (inf_id influencer) |},
               st, openai)
          end
      end
  end.

(** ** Key phrases ([lib/text-cleaner.ts], [extractKeyPhrases]) *)

Definition keyPhrasePowerWords : list text :=
  map str ["transform"; "success"; "growth"; "achieve"; "master"; "learn";
           "build"; "create"; "improve"]%string.

(** The two nested conditions of the loop body. *)
Definition isKeyPhrase (sentence : text) : bool :=
  let words := Str.split reWhitespace (Str.trim sentence) in
  (3 <=? length words) && (length words <=? 8)
  && existsb (fun word => Str.includes (Str.toLowerCase sentence) word)
       keyPhrasePowerWords.

(** The body of [sentences.forEach]: [phrases.push(sentence.trim())]. *)
Definition pushKeyPhrase (phrases : list text) (sentence : text) : list text :=
  if isKeyPhrase sentence then phrases ++ [Str.trim sentence] else phrases.

Definition extractKeyPhrases (content : text) : list text :=
  let sentences := Str.split reSentenceEnd content in
  take 10 (foldl pushKeyPhrase [] sentences).

(** ** Search and page lookup ([lib/data-manager.ts], [app/influencers/[slug]/page.tsx]) *)

(** The predicate of the filter: the description is read only when the
    name does not contain the term. *)
Definition matchesSearch (searchTerm : text) (i : Influencer) : result bool :=
  if Str.includes (Str.toLowerCase (inf_name i)) searchTerm then Ok true
  else
    d ← asString (inf_description i);
    mret (Str.includes (Str.toLowerCase d) searchTerm).

(** [Array.prototype.filter] with a predicate that may throw. *)
Fixpoint filterResult {A} (p : A -> result bool) (l : list A)
    : result (list A) :=
  match l with
  | [] => Ok []
  | x :: rest =>
      keep ← p x;
      kept ← filterResult p rest;
      mret (if keep : bool then x :: kept else kept)
  end.

Definition searchInfluencers (query : text) (st : Store)
    : result (list Influencer) :=
  let influencers := getInfluencers st in
  let searchTerm := Str.toLowerCase query in
  filterResult (matchesSearch searchTerm) influencers.

(** What the analysis page shows for a slug: [notFound()] without an
    influencer of that slug, a note when the influencer has no analysis
    file, the analysis otherwise. *)
Inductive PageView :=
| NotFound
| AnalysisPending (influencer : Influencer)
| AnalysisShown (influencer : Influencer) (analysis : NeuropsychAnalysis).

Definition InfluencerAnalysisPage (slug : text) (st : Store) : PageView :=
  match getInfluencer slug st with
  | None => NotFound
  | Some influencer =>
      match getAnalysis (inf_id influencer) st with
      | None => AnalysisPending influencer
      | Some analysis => AnalysisShown influencer analysis
      end
  end.

(** ** Command-line analysis ([scripts/analyze-influencer.ts]) *)

Module Cli.

(** [{...post, cleanContent: cleanSubstackContent(post.content)}] *)
Definition cleanPost (post : Post) : Post :=
  {| post_id := post_id post;
     title := title post;
     content := content post;
     cleanContent := cleanSubstackContent (content post);
     pubDate := pubDate post;
     link := link post;
     author := author post;
     categories := categories post |}.

Record Env := {
  parseURL : text -> result Feed;
  fetchedNow : text;
  savedNow : text;
  analyzedNow : text;
  analyzerEnv : Analyzer.Env
}.

(** The influencer record of the script. *)
Definition influencerOf (env : Env) (name substackUrl description : text)
    (cleanedPosts : list Post) : Influencer :=
  let slug := Str.replace reWhitespace (str "-") (Str.toLowerCase name) in
  let id := slug in
  {| inf_id := id;
     inf_name := name;
     inf_slug := slug;
     substackUrl := substackUrl;
     rssUrl :=
       if Str.endsWith substackUrl (str "/feed") then substackUrl
       else substackUrl ++ str "/feed";
     inf_description := JStr description;
     lastAnalyzed := Some (savedNow env);
     postCount := Some (length cleanedPosts) |}.

(** The [catch] only logs and throws the error again: what was written
    before the error stays written. *)
Definition analyzeInfluencer (env : Env) (st : Store)
    (openai : option Analyzer.OpenAI) (name substackUrl description : text)
    : result (Influencer * NeuropsychAnalysis) * Store
      * option Analyzer.OpenAI :=
  (* Fetch RSS feed *)
  match fetchSubstackFeed (parseURL env) (fetchedNow env) substackUrl with
  | Throw e => (Throw e, st, openai)
  | Ok posts =>
      (* Clean content *)
      let cleanedPosts := map cleanPost posts in
      (* Create influencer record *)
      let influencer :=
        influencerOf env name substackUrl description cleanedPosts in
      (* Save influencer *)
      let st := saveInfluencer influencer st in
      (* Analyze first 10 posts *)
      let '(analysis, openai) :=
        Analyzer.analyzeNeuropsychology (analyzerEnv env) openai
          (analyzedNow env) (inf_id influencer) (take 10 cleanedPosts) in
      match analysis with
      | Throw e => (Throw e, st, openai)
      | Ok analysis =>
          (* Save analysis *)
          match saveAnalysis analysis st with
          | Throw e => (Throw e, st, openai)
          | Ok st => (Ok (influencer, analysis), st, openai)
          end
      end
  end.

End Cli.

(** ** Post fetcher ([scripts/fetch-posts.ts]) *)

Module Fetcher.

Record FetchConfig := {
  fc_name : text;
  fc_slug : text;
  feedUrl : text;
  maxPosts : nat
}.

(** The posts directory, one file per slug. *)
Abbreviation PostsDir := (gmap text (list Post)).

Definition postsFile (slug : text) : text := slug ++ str "-posts.json".

(** Any failure of the fetch or of the write is caught: nothing is
    written and the empty list is returned. *)
Definition fetchAndSavePosts (parseURL : text -> result Feed) (now : text)
    (config : FetchConfig) (dir : PostsDir) : list Post * PostsDir :=
  match fetchSubstackFeed parseURL now (feedUrl config) with
  | Ok posts =>
      (* Clean content and take desired number of posts *)
      let processedPosts := map Cli.cleanPost (take (maxPosts config) posts) in
      (* Save posts to JSON file *)
      if fileNameOk (postsFile (fc_slug config))
      then (processedPosts, <[postsFile (fc_slug config) := processedPosts]> dir)
      else ([], dir)
  | Throw _ => ([], dir)
  end.

(** The three subjects of [main]. *)
Definition influencers : list FetchConfig :=
  [{| fc_name := str "Greg Isenberg"; fc_slug := str "greg-isenberg";
      feedUrl := str "https://latecheckout.substack.com/feed";
      maxPosts := 25 |};
   {| fc_name := str "Dan Koe"; fc_slug := str "dan-koe";
      feedUrl := str "https://letters.thedankoe.com/feed";
      maxPosts := 25 |};
   {| fc_name := str "Justin Welsh"; fc_slug := str "justin-welsh";
      feedUrl := str "https://thejustinwelsh.substack.com/feed";
      maxPosts := 25 |}].

(** The loop of [main]: the directory after the three fetches, and the
    summary lines (name, slug, number of posts saved). *)
Definition fetchAll (parseURL : text -> result Feed) (now : text)
    (dir : PostsDir) : list (text * text * nat) * PostsDir :=
  foldl (fun '(results, dir) influencer =>
           let '(posts, dir) := fetchAndSavePosts parseURL now influencer dir in
           (results ++ [(fc_name influencer, fc_slug influencer, length posts)],
            dir))
    ([], dir) influencers.

(** Reading the posts file of a slug, as [analyzeInfluencer] of the batch
    script does: a missing file throws, and so does a name the file system
    does not take. *)
Definition readPosts (dir : PostsDir) (slug : text) : result (list Post) :=
  if fileNameOk (postsFile slug) then
    match dir !! postsFile slug with
    | Some posts => Ok posts
    | None => Throw (str "ENOENT: no such file or directory")
    end
  else Throw (str "readFile: the file name was rejected").

End Fetcher.

(** ** Reference tables and readings of the specification *)

Definition labelFomo : text := str "FOMO (Fear of Missing Out)".
Definition labelSocial : text := str "Social Proof".
Definition labelAuthority : text := str "Authority".
Definition labelAuthorityBuilding : text := str "Authority Building".
Definition labelTransformation : text := str "Transformation Promise".
Definition labelReciprocity : text := str "Reciprocity".

(** The trigger categories of the two extractors with their patterns. *)
Definition analyzerCategories : list (text * RegExp) :=
  [(labelFomo, Analyzer.fomoPatterns);
   (labelSocial, Analyzer.socialProofPatterns);
   (labelAuthority, Analyzer.authorityPatterns);
   (labelReciprocity, Analyzer.reciprocityPatterns)].

Definition scriptCategories : list (text * RegExp) :=
  [(labelFomo, Script.fomoPatterns);
   (labelSocial, Script.socialPatterns);
   (labelAuthorityBuilding, Script.authorityPatterns);
   (labelTransformation, Script.transformPatterns)].

(** The category-specific thresholds. *)
Definition thresholdOf (label : text) : nat :=
  if decide (label = labelFomo) then 5
  else if decide (label = labelSocial) then 3
  else if decide (label = labelAuthority) then 4
  else if decide (label = labelAuthorityBuilding) then 4
  else if decide (label = labelTransformation) then 6
  else if decide (label = labelReciprocity) then 2
  else 0.

(** The impact as the specification words it: [high] above the threshold,
    else [medium], except that Reciprocity is [low] when the threshold is
    not exceeded. *)
Definition claimedImpact (label : text) (frequency : nat) : Impact :=
  if thresholdOf label <? frequency then high
  else if decide (label = labelReciprocity) then low else medium.

(** The impact the extractors assign: Reciprocity is [medium] above its
    threshold and [low] otherwise, and never [high]; the other categories
    are [high] above their threshold and [medium] otherwise. *)
Definition assignedImpact (label : text) (frequency : nat) : Impact :=
  if decide (label = labelReciprocity)
  then (if thresholdOf label <? frequency then medium else low)
  else (if thresholdOf label <? frequency then high else medium).

(** The phrase-frequency extractor as the specification words it: every
    window of 4 consecutive words, kept when its length is within [10,50]
    inclusive, counted, the top 5 by descending count. *)
Definition claimedWindows (words : list text) : list text :=
  map (fun i => Str.join (str " ") (take 4 (drop i words)))
    (seq 0 (length words - 3)).

Definition claimedCandidate (phrase : text) : bool :=
  (10 <=? length phrase) && (length phrase <=? 50).

Definition claimedCommonPhrases (allContent : text) : list text :=
  let words := Str.split reWhitespace allContent in
  topPhrases
    (foldl countPhrase [] (base.filter (fun p => claimedCandidate p = true)
                             (claimedWindows words))).

(** The windows the loop of the script visits, and its candidates. *)
Definition visitedWindows (words : list text) : list text :=
  map (Script.windowAt words) (seq 0 (length words - 4)).

Definition isCandidate (phrase : text) : bool :=
  (10 <? length phrase) && (length phrase <? 50).

Definition candidatesOf (words : list text) : list text :=
  base.filter (fun p => isCandidate p = true) (visitedWindows words).

(** [x] occurs in [ms] before any occurrence of [y]. *)
Definition occursBefore (ms : list text) (x y : text) : Prop :=
  ∃ k, ms !! k = Some x ∧ ∀ k', k' ≤ k → ms !! k' ≠ Some y.

(** The elements of [ex] are listed in the order of their first occurrence
    in [ms]. *)
Definition firstOccurrenceOrder (ms ex : list text) : Prop :=
  ∀ i j x y, i < j → ex !! i = Some x → ex !! j = Some y → occursBefore ms x y.










(** A score as the data model wants it: an integer in [0,100]. *)
Definition isScore (v : jsval) : Prop :=
  ∃ n : Z, v = JNum n ∧ (0 ≤ n ≤ 100)%Z.

Definition scoresInRange (p : BrandProfile) : Prop :=
  isScore (authority (positioning p))
  ∧ isScore (relatability (positioning p))
  ∧ isScore (expertise (positioning p)).

Definition definedProfile (p : BrandProfile) : Prop :=
  archetype (positioning p) ≠ JUndefined
  ∧ authority (positioning p) ≠ JUndefined
  ∧ relatability (positioning p) ≠ JUndefined
  ∧ expertise (positioning p) ≠ JUndefined
  ∧ description (positioning p) ≠ JUndefined
  ∧ primary (tone p) ≠ JUndefined
  ∧ secondary (tone p) ≠ JUndefined
  ∧ emotionalRange (tone p) ≠ JUndefined
  ∧ uniqueValue p ≠ JUndefined.

(** A markup tag: a [<] with a [>] somewhere after it. *)
Definition hasTag (s : text) : Prop :=
  ∃ l1 l2 l3, s = l1 ++ "<"%char :: l2 ++ ">"%char :: l3.

(** A request lacks a required field when it brings no truthy value for
    it: the body cannot be read or is [null], or it has no such key, or
    the value of the key is [null], [false], [0] or the empty string. *)
Definition lacksField (request : result jsval) (k : string) : Prop :=
  match request with
  | Ok body =>
      match getProp body k with
      | Ok v => truthy v = false
      | Throw _ => True
      end
  | Throw _ => True
  end.

(** A body whose properties can be read: any parsed value but [null]. *)
Definition readableBody (request : result jsval) : bool :=
  match request with
  | Ok JUndefined | Ok JNull | Throw _ => false
  | Ok _ => true
  end.

(** The shape of a trigger entry for a category, given its matches. *)
Definition entryOf (label : text) (ms ex : list text)
    (t : PsychologicalTrigger) : Prop :=
  0 < length ms ∧ type t = label ∧ frequency t = length ms
  ∧ examples t = ex ∧ impact t = assignedImpact label (length ms).

(** The model's scores are acceptable when each one that is truthy is an
    integer in [0,100]. *)
Definition answerScoresOk (answer : jsval) : Prop :=
  ∀ k v, k ∈ ["authority"; "relatability"; "expertise"]%string →
    getProp answer k = Ok v → truthy v = true → isScore v.

(** The patterns of the normalizer after the markup step, in order. *)
Definition laterPatterns : list RegExp :=
  [reBoilerplate; rePaidOnly; reSubscriberOnly; reNewsletterBy;
   reSubscribeTo; reUnsubscribe; reUrl; reNewlines; reSpaces; reCta;
   reCtaWords].

(** What follows the [<] of [reTag]: the repetition [[^>]*] and the [>]. *)
Definition closeTag : cont := fun prev s =>
  rmatch flags_g (Char ">") prev s (fun _ s' => Some s').

(** The number of occurrences of a phrase in a list. *)
Definition countOf (p : text) (l : list text) : nat :=
  length (base.filter (fun x => x = p) l).

(** The count a map holds for a phrase, [0] when it holds none. *)
Definition getCount (p : text) (m : PhraseMap) : nat :=
  default 0 (mapGet p m).

(** Descending by count. *)
Definition countGe (x y : text * nat) : Prop := snd y ≤ snd x.

(** ** Relations between match attempts on texts that differ in case *)





(** ** Sample data *)

Definition sampleOffer : text :=
  str "Only 3 spots left, don't miss this exclusive offer! Limited time. last chance, only 10. free gift".

Definition sampleFox : text :=
  str "the quick brown fox jumps over the quick brown fox jumps again and the quick brown fox".

Definition samplePost : Post :=
  {| post_id := str "letters-0";
     title := str "Hello";
     content := str "<p>This is AMAZING. Free gift, limited time!</p>";
     cleanContent := str "This is AMAZING. Free gift, limited time!";
     pubDate := str "2025-01-01T00:00:00.000Z";
     link := str "https://x.substack.com/p/hello";
     author := None;
     categories := Some [] |}.

Definition sampleFeed : Feed :=
  {| feed_title := Some (str "Ann Letters");
     items :=
       [{| item_title := Some (str "Hello");
           item_content :=
             Some (str "<p>Subscribe now! This is AMAZING. Only 3 spots left.</p>");
           contentSnippet := None;
           item_pubDate := Some (str "Wed, 01 Jan 2025 00:00:00 GMT");
           item_link := Some (str "https://ann.substack.com/p/hello");
           creator := None;
           item_categories := None |}] |}.

Definition keylessEnv : Analyzer.Env :=
  {| Analyzer.OPENAI_API_KEY := None;
     Analyzer.chat := fun _ _ => Throw (str "no service") |}.

(** A service that rates the authority at 150. *)
Definition overratingEnv : Analyzer.Env :=
  {| Analyzer.OPENAI_API_KEY := Some (str "sk-test");
     Analyzer.chat := fun _ _ => Ok (JObj [(str "authority", JNum 150)]) |}.

(** A service that rates the authority at 90 and nothing else. *)
Definition ratingEnv : Analyzer.Env :=
  {| Analyzer.OPENAI_API_KEY := Some (str "sk-test");
     Analyzer.chat := fun _ _ => Ok (JObj [(str "authority", JNum 90)]) |}.

Definition absentKeyRequest : RequestEnv :=
  {| requestJson := Ok (JObj [(str "name", JStr (str "Ann Lee"))]);
     parseURL := fun _ => Throw (str "unreachable");
     fetchedNow := str "2025-01-01T00:00:00.000Z";
     savedNow := str "2025-01-01T00:00:01.000Z";
     analyzedNow := str "2025-01-01T00:00:02.000Z";
     analyzerEnv :=
       {| Analyzer.OPENAI_API_KEY := None;
          Analyzer.chat := fun _ _ => Throw (str "no service") |} |}.

Definition validRequest : RequestEnv :=
  {| requestJson :=
       Ok (JObj [(str "name", JStr (str "Ann Lee"));
                 (str "substackUrl", JStr (str "https://ann.substack.com/"))]);
     parseURL := fun url =>
       if bool_decide (url = str "https://ann.substack.com/feed")
       then Ok sampleFeed else Throw (str "unreachable");
     fetchedNow := str "2025-01-01T00:00:00.000Z";
     savedNow := str "2025-01-01T00:00:01.000Z";
     analyzedNow := str "2025-01-01T00:00:02.000Z";
     analyzerEnv :=
       {| Analyzer.OPENAI_API_KEY := None;
          Analyzer.chat := fun _ _ => Throw (str "no service") |} |}.

(** A request whose body is [null]. *)
Definition nullBodyRequest : RequestEnv :=
  {| requestJson := Ok JNull;
     parseURL := fun _ => Throw (str "unreachable");
     fetchedNow := str "2025-01-01T00:00:00.000Z";
     savedNow := str "2025-01-01T00:00:01.000Z";
     analyzedNow := str "2025-01-01T00:00:02.000Z";
     analyzerEnv :=
       {| Analyzer.OPENAI_API_KEY := None;
          Analyzer.chat := fun _ _ => Throw (str "no service") |} |}.

(** A name of 251 letters: its analysis file has a name of 256 bytes. *)
Definition longName : text := repeat "a"%char 251.

Definition longNameRequest : RequestEnv :=
  {| requestJson :=
       Ok (JObj [(str "name", JStr longName);
                 (str "substackUrl", JStr (str "https://ann.substack.com/"))]);
     parseURL := fun url =>
       if bool_decide (url = str "https://ann.substack.com/feed")
       then Ok sampleFeed else Throw (str "unreachable");
     fetchedNow := str "2025-01-01T00:00:00.000Z";
     savedNow := str "2025-01-01T00:00:01.000Z";
     analyzedNow := str "2025-01-01T00:00:02.000Z";
     analyzerEnv :=
       {| Analyzer.OPENAI_API_KEY := None;
          Analyzer.chat := fun _ _ => Throw (str "no service") |} |}.

Definition emptyStore : Store :=
  {| influencersFile := None; analysesDir := ∅ |}.

Definition sampleInfluencer (name slug : string) (count : nat) : Influencer :=
  {| inf_id := str slug;
     inf_name := str name;
     inf_slug := str slug;
     substackUrl := str "https://" ++ str slug ++ str ".substack.com";
     rssUrl := str "https://" ++ str slug ++ str ".substack.com/feed";
     inf_description := JStr (str "Analysis of " ++ str name ++ str "'s content");
     lastAnalyzed := None;
     postCount := Some count |}.

Definition sampleStore : Store :=
  {| influencersFile :=
       Some [sampleInfluencer "Ann Lee" "ann-lee" 3;
             sampleInfluencer "Bo Chan" "bo-chan" 5];
     analysesDir := ∅ |}.

(** A posts directory with the files of the two records of the sample
    roster and of one of the three subjects of the batch script. *)
Definition samplePostsDir : Fetcher.PostsDir :=
  {[ Fetcher.postsFile (str "ann-lee") := [samplePost];
     Fetcher.postsFile (str "bo-chan") := [samplePost; samplePost];
     Fetcher.postsFile (str "dan-koe") := [samplePost] ]}.

Definition sampleFetchConfig (slug : text) : Fetcher.FetchConfig :=
  {| Fetcher.fc_name := str "Dan Koe";
     Fetcher.fc_slug := slug;
     Fetcher.feedUrl := str "https://letters.thedankoe.com/feed";
     Fetcher.maxPosts := 25 |}.

(** ** Properties of continuations *)

(** A continuation that returns no more than it was given. *)
Definition shrinking (k : cont) : Prop :=
  ∀ p s x, k p s = Some x → length x ≤ length s.

(** A continuation that always succeeds. *)
Definition accepting (k : cont) : Prop :=
  ∀ p s, is_Some (k p s).

(** ** File names *)

(** An id or slug whose file name stays in its directory: no path
    separator, and no NUL. Whether the file system takes the name then
    depends on its length only. *)
Definition plainName (id : text) : Prop :=
  Forall (fun c => c ≠ "/"%char ∧ c ≠ "000"%char) id.

(** A command-line environment: the feed of the samples, no credential. *)
Definition sampleCliEnv : Cli.Env :=
  {| Cli.parseURL := fun _ => Ok sampleFeed;
     Cli.fetchedNow := str "2025-01-01T00:00:00.000Z";
     Cli.savedNow := str "2025-01-01T00:00:01.000Z";
     Cli.analyzedNow := str "2025-01-01T00:00:02.000Z";
     Cli.analyzerEnv := keylessEnv |}.

(** ** Named parts of the source's functions *)

(** The sentences the assembler's extractor counts: trimmed, lower-cased,
    of a length strictly between 10 and 100. *)
Definition isCountedSentence (cleaned : text) : bool :=
  (10 <? length cleaned) && (length cleaned <? 100).

Definition countedSentences (content : text) : list text :=
  base.filter (fun p => isCountedSentence p = true)
    (map (fun sentence => Str.trim (Str.toLowerCase sentence))
       (Str.split reSentenceEnd content)).

(** The [feedUrl] of [fetchSubstackFeed] and the [slug] of the endpoint
    and of the command-line script, as functions of what they are
    computed from. *)
Definition feedUrlOf (substackUrl : text) : text :=
  if Str.endsWith substackUrl (str "/feed") then substackUrl
  else Str.replaceFirst reTrailingSlash [] substackUrl ++ str "/feed".

Definition slugOf (name : text) : text :=
  Str.replace reWhitespace (str "-") (Str.toLowerCase name).

(** The prefix of the post ids of a feed. *)
Definition idPrefix (feed : Feed) : text :=
  match feed_title feed with
  | Some t => Str.replace reWhitespace (str "-") (Str.toLowerCase t)
  | None => str "undefined"
  end.

(** The records the endpoint and the command-line script write have their
    slug as id. *)
Definition slugsAreIds (st : Store) : Prop :=
  Forall (fun i => inf_slug i = inf_id i) (getInfluencers st).

(** ** The [main] of the batch script ([scripts/analyze-posts.ts]) *)

Module Batch.

(** The clock readings of [main]: one per analysis, one per record of the
    roster. The data directories are taken to exist. *)
Record Env := {
  analyzedNow : text -> text;
  updatedNow : nat -> text
}.

Definition slugs : list text :=
  map str ["greg-isenberg"; "dan-koe"; "justin-welsh"]%string.

(** The body of the first loop: the analysis is written to the file of the
    slug; an error of the analysis or of the write is logged and the loop
    goes on. *)
Definition analyzeAndSave (env : Env) (dir : Fetcher.PostsDir) (st : Store)
    (slug : text) : Store :=
  tryCatch
    (analysis ← Script.analyzeInfluencer (Fetcher.readPosts dir)
                  (analyzedNow env slug) slug;
     (* Save analysis *)
     writeAnalysisFile (analysisFile slug) analysis st)
    (fun _ => st).

(** The second loop: every record gets the number of posts of its posts
    file; a missing file throws. *)
Fixpoint updateCounts (env : Env) (dir : Fetcher.PostsDir) (index : nat)
    (influencers : list Influencer) : result (list Influencer) :=
  match influencers with
  | [] => Ok []
  | influencer :: rest =>
      posts ← Fetcher.readPosts dir (inf_slug influencer);
      let influencer :=
        {| inf_id := inf_id influencer;
           inf_name := inf_name influencer;
           inf_slug := inf_slug influencer;
           substackUrl := substackUrl influencer;
           rssUrl := rssUrl influencer;
           inf_description := inf_description influencer;
           lastAnalyzed := Some (updatedNow env index);
           postCount := Some (length posts) |} in
      rest ← updateCounts env dir (S index) rest;
      mret (influencer :: rest)
  end.

(** [main] rejects when the roster file or a posts file cannot be read:
    the roster is then not written. *)
Definition main (env : Env) (dir : Fetcher.PostsDir) (st : Store)
    : result unit * Store :=
  let st := foldl (analyzeAndSave env dir) st slugs in
  (* Update influencers.json with correct post counts *)
  match influencersFile st with
  | None => (Throw (str "ENOENT: no such file or directory"), st)
  | Some influencers =>
      match updateCounts env dir 0 influencers with
      | Ok influencers =>
          (Ok (), {| influencersFile := Some influencers;
                     analysesDir := analysesDir st |})
      | Throw e => (Throw e, st)
      end
  end.

End Batch.

(** ** Static loader ([lib/data-loader.ts]) *)

Module Loader.

(** [{...v}]: the own enumerable properties of a parsed value. Later
    entries of the list override earlier ones, as later keys of an object
    literal do; the order of enumeration is not modelled. *)
Definition spread (v : jsval) : list (text * jsval) :=
  match v with
  | JObj fields => fields
  | JArr l => imap (fun i x => (natToText i, x)) l
  | JStr s => imap (fun i c => (natToText i, JStr [c])) s
  | _ => []
  end.

(** [v?.k] and [v.k] on a value that is neither [null] nor [undefined],
    for the keys the loader reads. *)
Definition read (v : jsval) (k : string) : jsval :=
  match v with
  | JObj fields => default JUndefined (lookupField (str k) fields)
  | _ => JUndefined
  end.

(** The [map] callback of [getInfluencers]. [toStr] stands for the string
    conversion of the template literal. *)
Definition withDefaults (toStr : jsval -> text) (inf : jsval) : result jsval :=
  description ← getProp inf "description";
  bio ← getProp inf "bio";
  name ← getProp inf "name";
  substackUrl ← getProp inf "substackUrl";
  rssUrl ← getProp inf "rssUrl";
  postCount ← getProp inf "postCount";
  stats ← getProp inf "stats";
  mret
    (JObj
       (spread inf ++
        [(str "description",
          orDefault description
            (orDefault bio
               (JStr (str "Analysis of " ++ toStr name ++ str "'s content"))));
         (str "substackUrl", orDefault substackUrl (JStr (str "#")));
         (str "rssUrl", orDefault rssUrl (JStr (str "#")));
         (str "postCount",
          orDefault postCount (orDefault (read stats "posts") (JNum 0)))])).

(** [Array.prototype.map] with a callback that may throw. *)
Fixpoint mapResult {A B} (f : A -> result B) (l : list A) : result (list B) :=
  match l with
  | [] => Ok []
  | x :: rest =>
      y ← f x;
      ys ← mapResult f rest;
      mret (y :: ys)
  end.

(** [influencersData] is the array of the imported roster file. *)
Definition getInfluencers (toStr : jsval -> text) (influencersData : list jsval)
    : result (list jsval) :=
  mapResult (withDefaults toStr) influencersData.

(** [i.slug === slug] *)
Definition hasSlug (slug : text) (i : jsval) : bool :=
  match read i "slug" with
  | JStr s => bool_decide (s = slug)
  | _ => false
  end.

Definition getInfluencer (toStr : jsval -> text) (influencersData : list jsval)
    (slug : text) : result jsval :=
  influencers ← getInfluencers toStr influencersData;
  mret (default JNull (find (hasSlug slug) influencers)).

Definition defaultBrandProfile : jsval :=
  JObj [(str "positioning",
         JObj [(str "archetype", JStr (str "Creator"));
               (str "authority", JNum 75);
               (str "relatability", JNum 80);
               (str "expertise", JNum 85);
               (str "description", JStr (str "A thought leader"))]);
        (str "tone",
         JObj [(str "primary", JStr (str "Conversational"));
               (str "secondary", JArr [JStr (str "Inspiring")]);
               (str "emotionalRange", JStr (str "Balanced"))]);
        (str "uniqueValue", JStr (str "Unique insights"))].

Definition defaultLanguagePatterns : jsval :=
  JObj [(str "commonPhrases", JArr []);
        (str "vocabularyComplexity", JStr (str "moderate"));
        (str "sentenceStructure", JStr (str "Varied"));
        (str "rhetoricalDevices", JArr []);
        (str "powerWords", JArr []);
        (str "emotionalTone",
         JObj [(str "positive", JNum 60); (str "negative", JNum 10);
               (str "neutral", JNum 30)])].

Definition defaultTransformationNarrative : jsval :=
  JObj [(str "beforeState", JStr (str "Starting point"));
        (str "afterState", JStr (str "Success"));
        (str "journey", JArr []);
        (str "promises", JArr []);
        (str "evidence", JArr [])].

Definition defaultMissionVision : jsval :=
  JObj [(str "mission", JStr (str "To inspire"));
        (str "vision", JStr (str "A better future"));
        (str "values", JArr []);
        (str "beliefs", JArr []);
        (str "goals", JArr [])].

(** [analysesMap id] stands for the read of the static map of the eleven
    imported analyses at a key that is not a property of
    [Object.prototype]; [now] is the clock reading. *)
Definition getAnalysis (analysesMap : text -> jsval) (now : text)
    (influencerId : text) : jsval :=
  let analysis := analysesMap influencerId in
  if negb (truthy analysis) then JNull
  else
    JObj
      (spread analysis ++
       [(str "analyzedAt",
         orDefault (read analysis "analyzedAt")
           (orDefault (read analysis "date") (JStr now)));
        (str "posts", orDefault (read analysis "posts") (JArr []));
        (str "brandProfile",
         orDefault (read analysis "brandProfile") defaultBrandProfile);
        (str "languagePatterns",
         orDefault (read analysis "languagePatterns") defaultLanguagePatterns);
        (str "psychologicalTriggers",
         orDefault (read analysis "psychologicalTriggers") (JArr []));
        (str "transformationNarrative",
         orDefault (read analysis "transformationNarrative")
           defaultTransformationNarrative);
        (str "missionVision",
         orDefault (read analysis "missionVision") defaultMissionVision);
        (str "overallAssessment",
         orDefault (read analysis "overallAssessment")
           (JStr (str "Analysis of content")))]).

(** The predicate of the filter of [searchInfluencers]:
    [name.includes || (description && description.includes) ||
     (bio && bio.includes)], each [includes] on the lower-cased string. *)
Definition matchesSearch (searchTerm : text) (i : jsval) : result bool :=
  name ← getProp i "name";
  name ← asString name;
  if Str.includes (Str.toLowerCase name) searchTerm then Ok true
  else
    description ← getProp i "description";
    inDescription ←
      (if truthy description then
         d ← asString description;
         mret (Str.includes (Str.toLowerCase d) searchTerm)
       else Ok false);
    if inDescription : bool then Ok true
    else
      bio ← getProp i "bio";
      if truthy bio then
        b ← asString bio;
        mret (Str.includes (Str.toLowerCase b) searchTerm)
      else Ok false.

Definition searchInfluencers (toStr : jsval -> text)
    (influencersData : list jsval) (query : text) : result (list jsval) :=
  influencers ← getInfluencers toStr influencersData;
  let searchTerm := Str.toLowerCase query in
  filterResult (matchesSearch searchTerm) influencers.

(** The keys the two functions set. *)
Definition influencerKeys : list string :=
  ["description"; "substackUrl"; "rssUrl"; "postCount"]%string.

Definition analysisKeys : list string :=
  ["analyzedAt"; "posts"; "brandProfile"; "languagePatterns";
   "psychologicalTriggers"; "transformationNarrative"; "missionVision";
   "overallAssessment"]%string.

End Loader.

(** A roster file for the static loader: the second record has no
    description. *)
Definition sampleRosterData : list jsval :=
  [JObj [(str "id", JStr (str "ann-lee")); (str "name", JStr (str "Ann Lee"));
         (str "slug", JStr (str "ann-lee"));
         (str "description", JStr (str "Notes on growth"))];
   JObj [(str "id", JStr (str "bo-chan")); (str "name", JStr (str "Bo Chan"));
         (str "slug", JStr (str "bo-chan"));
         (str "bio", JStr (str "Writer"))]].

(** * Properties *)

(** ** Content normalizer *)

Section Normalizer.
Implicit Types (a c : ascii) (s t rep : text) (prev : option ascii)
  (re : RegExp).

Lemma hasTag_cons c s :
  hasTag (c :: s) ↔ (c = "<"%char ∧ ">"%char ∈ s) ∨ hasTag s.
Proof.
  split.
  - intros (l1 & l2 & l3 & Heq). destruct l1 as [|c' l1]; simpl in Heq.
    + injection Heq as -> ->. left. split; [done|].
      apply elem_of_app. right. left.
    + injection Heq as -> ->. right. by exists l1, l2, l3.
  - intros [[-> Hin]|(l1 & l2 & l3 & ->)].
    + apply list_elem_of_split in Hin as (l2 & l3 & ->). by exists [], l2, l3.
    + by exists (c :: l1), l2, l3.
Qed.

Lemma hasTag_nil : ¬ hasTag [].
Proof. intros (l1 & l2 & l3 & Heq). by destruct l1. Qed.

Lemma hasTag_open s : hasTag s → "<"%char ∈ s.
Proof. intros (l1 & l2 & l3 & ->). apply elem_of_app. right. left. Qed.

Lemma hasTag_app_l rep s : "<"%char ∉ rep → hasTag (rep ++ s) → hasTag s.
Proof.
  induction rep as [|c rep IH]; intros Hrep; [done|]. simpl.
  rewrite hasTag_cons. apply not_elem_of_cons in Hrep as [Hc Hrep].
  intros [[-> _]|H]; [done|by apply IH].
Qed.

Lemma hasTag_app_r s t : hasTag s → hasTag (s ++ t).
Proof.
  intros (l1 & l2 & l3 & ->). exists l1, l2, (l3 ++ t).
  by rewrite <- !app_assoc, <- !app_comm_cons, <- !app_assoc.
Qed.

Lemma hasTag_suffix s t : hasTag t → hasTag (s ++ t).
Proof.
  intros (l1 & l2 & l3 & ->). exists (s ++ l1), l2, l3.
  by rewrite <- app_assoc.
Qed.

(** A replacement puts nothing into the text but the replacement string. *)
Lemma elem_of_replaceFrom re rep a s :
  ∀ prev skip, a ∈ Str.replaceFrom re rep prev s skip → a ∈ rep ∨ a ∈ s.
Proof.
  induction s as [|c s IH]; intros prev skip; simpl.
  - destruct skip, (exec re prev []); rewrite ?elem_of_nil; tauto.
  - destruct skip as [|n].
    + destruct (exec re prev (c :: s)) as [rest|].
      * destruct (_ - _); rewrite elem_of_app, ?elem_of_cons;
          intros [?|H]; auto; [destruct H as [->|H]|];
          rewrite ?elem_of_cons; auto;
          apply IH in H as [?|?]; auto.
      * rewrite !elem_of_cons. intros [->|H]; auto.
        apply IH in H as [?|?]; auto.
    + intros H. apply IH in H as [?|?]; rewrite ?elem_of_cons; auto.
Qed.

(** A replacement whose string has no angle bracket makes no tag. *)
Lemma hasTag_replaceFrom re rep s :
  "<"%char ∉ rep → ">"%char ∉ rep →
  ∀ prev skip, hasTag (Str.replaceFrom re rep prev s skip) → hasTag s.
Proof.
  intros Hlt Hgt.
  assert (∀ c s' prev skip,
    (∀ prev skip, hasTag (Str.replaceFrom re rep prev s' skip) → hasTag s') →
    hasTag (c :: Str.replaceFrom re rep prev s' skip) → hasTag (c :: s'))
    as Hstep.
  { intros c s' prev skip IH. rewrite !hasTag_cons. intros [[-> Hin]|H].
    - left. split; [done|].
      apply elem_of_replaceFrom in Hin as [?|?]; done.
    - right. by eapply IH. }
  induction s as [|c s IH]; intros prev skip; simpl.
  - destruct skip, (exec re prev []); intros H; try done.
    by apply hasTag_open in H.
  - destruct skip as [|n].
    + destruct (exec re prev (c :: s)) as [rest|].
      * destruct (_ - _); intros H%hasTag_app_l; try done.
        -- by eapply Hstep.
        -- apply hasTag_cons. right. by eapply IH.
      * by apply Hstep.
    + intros H. apply hasTag_cons. right. by eapply IH.
Qed.

Lemma hasTag_replace re rep s :
  "<"%char ∉ rep → ">"%char ∉ rep → hasTag (Str.replace re rep s) → hasTag s.
Proof. intros ??. by apply hasTag_replaceFrom. Qed.

(** *** The markup pattern *)

Lemma closeTag_found prev s : closeTag prev (">"%char :: s) = Some s.
Proof. reflexivity. Qed.

Lemma closeTag_none prev s : ">"%char ∉ s → closeTag prev s = None.
Proof.
  destruct s as [|b s]; [done|]. intros [Hb _]%not_elem_of_cons.
  unfold closeTag. simpl. unfold charMatches. simpl.
  by rewrite bool_decide_eq_false_2.
Qed.

Lemma notGt_true c : ">"%char ≠ c → notGt c = true.
Proof.
  intros H. unfold notGt. rewrite bool_decide_eq_false_2; [done|].
  by intros ->.
Qed.

Lemma starLoop_notGt_found l2 l3 :
  ">"%char ∉ l2 →
  ∀ fuel prev, length l2 < fuel →
    starLoop (rmatch flags_g (Class notGt)) true closeTag fuel prev
      (l2 ++ ">"%char :: l3) = Some l3.
Proof.
  induction l2 as [|c l2 IH]; intros Hnot fuel prev Hfuel;
    (destruct fuel as [|fuel]; [simpl in Hfuel; lia|]).
  - reflexivity.
  - apply not_elem_of_cons in Hnot as [Hc Hnot].
    cbn [starLoop app rmatch]. unfold classMatches. simpl ignoreCase.
    cbv iota. rewrite (notGt_true c Hc).
    replace (length (l2 ++ ">"%char :: l3) <? length (c :: l2 ++ ">"%char :: l3))
      with true by (symmetry; apply Nat.ltb_lt; simpl; lia).
    rewrite IH; [done..|]. simpl in Hfuel. lia.
Qed.

Lemma starLoop_notGt_none fuel :
  ∀ prev s, ">"%char ∉ s →
    starLoop (rmatch flags_g (Class notGt)) true closeTag fuel prev s = None.
Proof.
  induction fuel as [|fuel IH]; intros prev s Hnot; cbn [starLoop].
  - by apply closeTag_none.
  - rewrite (closeTag_none prev s Hnot).
    destruct s as [|c s]; [done|].
    apply not_elem_of_cons in Hnot as [Hc Hnot].
    cbn [rmatch]. unfold classMatches. simpl ignoreCase. cbv iota.
    rewrite (notGt_true c Hc).
    destruct (_ <? _); [|done]. by rewrite IH.
Qed.

Lemma exec_reTag_open prev s :
  exec reTag prev ("<"%char :: s)
    = starLoop (rmatch flags_g (Class notGt)) true closeTag (S (length s))
        (Some "<"%char) s.
Proof. reflexivity. Qed.

Lemma exec_reTag_other prev c s : c ≠ "<"%char → exec reTag prev (c :: s) = None.
Proof.
  intros Hc. unfold exec. simpl. unfold charMatches. simpl.
  by rewrite bool_decide_eq_false_2.
Qed.

Lemma exec_reTag_found prev l2 l3 :
  ">"%char ∉ l2 →
  exec reTag prev ("<"%char :: l2 ++ ">"%char :: l3) = Some l3.
Proof.
  intros Hnot. rewrite exec_reTag_open.
  apply starLoop_notGt_found; [done|]. rewrite length_app. simpl. lia.
Qed.

Lemma exec_reTag_unclosed prev s :
  ">"%char ∉ s → exec reTag prev ("<"%char :: s) = None.
Proof. intros Hnot. rewrite exec_reTag_open. by apply starLoop_notGt_none. Qed.

(** After the markup step no tag is left. *)
Lemma replaceFrom_reTag_noTag s :
  ∀ prev skip, ¬ hasTag (Str.replaceFrom reTag [] prev s skip).
Proof.
  induction s as [|c s IH]; intros prev skip.
  - simpl. destruct skip; apply hasTag_nil.
  - cbn [Str.replaceFrom]. destruct skip as [|n]; [|apply IH].
    destruct (decide (c = "<"%char ∧ ">"%char ∈ s)) as [[-> Hin]|Hno].
    + apply list_elem_of_split_l in Hin as (l2 & l3 & -> & Hnot).
      rewrite exec_reTag_found by done.
      replace (length ("<"%char :: l2 ++ ">"%char :: l3) - length l3)
        with (S (S (length l2)))
        by (simpl; rewrite length_app; simpl; lia).
      apply IH.
    + assert (exec reTag prev (c :: s) = None) as ->.
      { destruct (decide (c = "<"%char)) as [->|Hc].
        - apply exec_reTag_unclosed. intros Hin. by apply Hno.
        - by apply exec_reTag_other. }
      rewrite hasTag_cons. intros [[-> Hin]|H].
      * apply elem_of_replaceFrom in Hin as [Hin|Hin];
          [by apply elem_of_nil in Hin|by apply Hno].
      * by eapply IH.
Qed.

(** On a text without a tag the markup pattern matches nowhere. *)
Lemma matchFrom_reTag_noTag s :
  ¬ hasTag s → ∀ prev, Str.matchFrom reTag prev s 0 = [].
Proof.
  induction s as [|c s IH]; intros Hno prev; [done|].
  cbn [Str.matchFrom].
  assert (exec reTag prev (c :: s) = None) as ->.
  { destruct (decide (c = "<"%char)) as [->|Hc].
    - apply exec_reTag_unclosed. intros Hin. apply Hno, hasTag_cons. by left.
    - by apply exec_reTag_other. }
  apply IH. intros H. apply Hno, hasTag_cons. by right.
Qed.

(** *** Patterns without a match, and trimming *)

Lemma replaceFrom_no_match re rep s :
  ∀ prev, Str.matchFrom re prev s 0 = [] → Str.replaceFrom re rep prev s 0 = s.
Proof.
  induction s as [|c s IH]; intros prev; simpl.
  - by destruct (exec re prev []).
  - destruct (exec re prev (c :: s)); [done|]. intros H. by rewrite IH.
Qed.

Lemma replace_no_match re rep s :
  Str.match_ re s = [] → Str.replace re rep s = s.
Proof. apply replaceFrom_no_match. Qed.

Lemma trimStart_suffix s : ∃ w, s = w ++ Str.trimStart s.
Proof.
  induction s as [|c s [w IH]]; [by exists []|]. simpl.
  destruct (isWhiteSpace c); [|by exists []].
  exists (c :: w). simpl. by rewrite <- IH.
Qed.

Lemma trimEnd_prefix s : ∃ w, s = Str.trimEnd s ++ w.
Proof.
  destruct (trimStart_suffix (rev s)) as [w Hw]. exists (rev w).
  unfold Str.trimEnd. by rewrite <- rev_app_distr, <- Hw, rev_involutive.
Qed.

Lemma trimStart_idemp s : Str.trimStart (Str.trimStart s) = Str.trimStart s.
Proof.
  induction s as [|c s IH]; [done|]. simpl.
  destruct (isWhiteSpace c) eqn:Hc; [done|]. simpl. by rewrite Hc.
Qed.

Lemma trimEnd_idemp s : Str.trimEnd (Str.trimEnd s) = Str.trimEnd s.
Proof. unfold Str.trimEnd. by rewrite rev_involutive, trimStart_idemp. Qed.

(** Trimming the end keeps a trimmed start. *)
Lemma trimStart_trimEnd s :
  Str.trimStart s = s → Str.trimStart (Str.trimEnd s) = Str.trimEnd s.
Proof.
  intros Hs. destruct (trimEnd_prefix s) as [w Hw].
  destruct (Str.trimEnd s) as [|c u] eqn:Hu; [done|].
  rewrite Hw in Hs. simpl in *.
  destruct (isWhiteSpace c); [|done].
  destruct (trimStart_suffix (u ++ w)) as [w' Hw'].
  rewrite Hs in Hw'. apply (f_equal length) in Hw'.
  rewrite !length_app in Hw'. simpl in Hw'. rewrite !length_app in Hw'. lia.
Qed.

Lemma trim_idemp s : Str.trim (Str.trim s) = Str.trim s.
Proof.
  unfold Str.trim.
  rewrite (trimStart_trimEnd (Str.trimStart s)) by apply trimStart_idemp.
  apply trimEnd_idemp.
Qed.

Lemma hasTag_trim s : hasTag (Str.trim s) → hasTag s.
Proof.
  unfold Str.trim. intros H.
  destruct (trimEnd_prefix (Str.trimStart s)) as [w Hw].
  destruct (trimStart_suffix s) as [w' Hw'].
  rewrite Hw'. apply hasTag_suffix. rewrite Hw. by apply hasTag_app_r.
Qed.

Lemma cleanSubstackContent_noTag s : ¬ hasTag (cleanSubstackContent s).
Proof.
  unfold cleanSubstackContent. intros H.
  apply hasTag_trim in H.
  do 11 (apply hasTag_replace in H;
         [|apply (bool_decide_unpack _); vm_compute; reflexivity..]).
  revert H. apply replaceFrom_reTag_noTag.
Qed.
End Normalizer.

(** C1 (as amended). On the output of the normalizer the markup step and
    the trimming change nothing: a tag cannot reappear, whatever the
    input. A second pass returns the output unchanged whenever none of the
    other patterns matches in it; it need not otherwise. *)
Theorem cleanSubstackContent_second_pass (s : text) :
  ¬ hasTag (cleanSubstackContent s)
  ∧ Str.replace reTag [] (cleanSubstackContent s) = cleanSubstackContent s
  ∧ Str.trim (cleanSubstackContent s) = cleanSubstackContent s
  ∧ (Forall (fun re => Str.match_ re (cleanSubstackContent s) = [])
       laterPatterns →
     cleanSubstackContent (cleanSubstackContent s) = cleanSubstackContent s).
Proof.
  assert (Str.replace reTag [] (cleanSubstackContent s)
            = cleanSubstackContent s) as Htag.
  { apply replace_no_match, matchFrom_reTag_noTag,
      cleanSubstackContent_noTag. }
  assert (Str.trim (cleanSubstackContent s) = cleanSubstackContent s)
    as Htrim.
  { unfold cleanSubstackContent. apply trim_idemp. }
  split_and!; [apply cleanSubstackContent_noTag|done|done|].
  intros Hfree. unfold laterPatterns in Hfree.
  repeat match goal with
         | H : Forall _ (_ :: _) |- _ =>
             let Hre := fresh "Hre" in
             apply Forall_cons in H as [Hre H];
             apply (replace_no_match _ []) in Hre as ?;
             apply (replace_no_match _ [nl; nl]) in Hre as ?;
             apply (replace_no_match _ (str " ")) in Hre as ?
         end.
  generalize dependent (cleanSubstackContent s). intros c. intros.
  unfold cleanSubstackContent. cbv zeta. congruence.
Qed.

Lemma cleanSubstackContent_second_pass_sample :
  cleanSubstackContent (cleanSubstackContent (str "<p>Hello <b>world</b></p>"))
    = cleanSubstackContent (str "<p>Hello <b>world</b></p>").
Proof.
  apply (cleanSubstackContent_second_pass (str "<p>Hello <b>world</b></p>")).
  apply (bool_decide_unpack _). vm_compute. reflexivity.
Defined.

(** C1, counterexample. The word [Like] is removed after the whitespace has
    been collapsed, which leaves two spaces; the second pass collapses
    them. *)
Lemma cleanSubstackContent_not_idempotent :
  cleanSubstackContent (str "I Like it") = str "I  it"
  ∧ cleanSubstackContent (cleanSubstackContent (str "I Like it")) = str "I it"
  ∧ cleanSubstackContent (cleanSubstackContent (str "I Like it"))
      ≠ cleanSubstackContent (str "I Like it").
Proof. split_and!; [vm_compute; reflexivity..|]. vm_compute. discriminate. Qed.

(** A URL and a boilerplate phrase can appear in the output: the parts
    around a removed [Like] join. *)
Example cleanSubstackContent_url_reappears :
  cleanSubstackContent (str "see htLiketp://x.y") = str "see http://x.y"
  ∧ cleanSubstackContent (str "SubLikescribe now") = str "Subscribe now".
Proof. split; vm_compute; reflexivity. Qed.

(** ** Phrase-frequency extractor *)

Section PhraseMap.
Implicit Types (k p : text) (v n : nat) (m : PhraseMap) (l acc : list text).

Lemma mapGet_mapSet k v k' m :
  mapGet k' (mapSet k v m) = if decide (k' = k) then Some v else mapGet k' m.
Proof.
  induction m as [|[k0 v0] m IH]; simpl.
  - repeat case_decide; congruence.
  - repeat (case_decide; simpl); try congruence.
Qed.

Lemma keys_mapSet k v m : (mapSet k v m).*1 = setAdd (m.*1) k.
Proof.
  unfold setAdd. induction m as [|[k0 v0] m IH]; [done|].
  change (mapSet k v ((k0, v0) :: m))
    with (if decide (k0 = k) then (k0, v) :: m else (k0, v0) :: mapSet k v m).
  destruct (decide (k0 = k)) as [->|Hne]; rewrite !fmap_cons; simpl fst.
  - rewrite decide_True; [done|]. left.
  - rewrite IH. destruct (decide (k ∈ m.*1)) as [Hin|Hnin].
    + rewrite decide_True; [done|]. by right.
    + rewrite decide_False; [done|].
      intros [?|?]%elem_of_cons; congruence.
Qed.

Lemma mapGet_None k m : mapGet k m = None ↔ k ∉ m.*1.
Proof.
  induction m as [|[k0 v0] m IH]; simpl.
  - split; [intros _; apply not_elem_of_nil|done].
  - rewrite not_elem_of_cons. case_decide as Hk.
    + split; [done|]. intros [? _]. congruence.
    + rewrite IH. split; [|tauto]. intros ?. split; [congruence|done].
Qed.

Lemma elem_of_mapGet k v m :
  NoDup (m.*1) → (k, v) ∈ m ↔ mapGet k m = Some v.
Proof.
  induction m as [|[k0 v0] m IH]; simpl; intros Hnd.
  - split; [by intros ?%elem_of_nil|done].
  - apply NoDup_cons in Hnd as [Hk0 Hnd]. rewrite elem_of_cons.
    case_decide as Hk; subst.
    + split; [|intros [= ->]; by left].
      intros [[= ->]|Hin]; [done|].
      exfalso. apply Hk0. apply list_elem_of_fmap. by exists (k, v).
    + rewrite <- IH by done. split; [|by right].
      intros [[= -> ->]|?]; done.
Qed.

Lemma keys_countPhrase m p : (countPhrase m p).*1 = setAdd (m.*1) p.
Proof. apply keys_mapSet. Qed.

Lemma getCount_countPhrase m p p' :
  getCount p' (countPhrase m p)
    = getCount p' m + (if decide (p' = p) then 1 else 0).
Proof.
  unfold getCount, countPhrase. rewrite mapGet_mapSet.
  case_decide; subst; simpl; lia.
Qed.

Lemma keys_foldl_countPhrase l :
  ∀ m, (foldl countPhrase m l).*1 = foldl setAdd (m.*1) l.
Proof.
  induction l as [|p l IH]; intros m; simpl; [done|].
  by rewrite IH, keys_countPhrase.
Qed.

Lemma getCount_foldl_countPhrase p l :
  ∀ m, getCount p (foldl countPhrase m l) = getCount p m + countOf p l.
Proof.
  unfold countOf. induction l as [|q l IH]; intros m; simpl; [lia|].
  rewrite IH, getCount_countPhrase, filter_cons.
  repeat case_decide; subst; simpl; try done; lia.
Qed.

(** *** Insertion-ordered sets *)

Lemma elem_of_setAdd acc x y : y ∈ setAdd acc x ↔ y ∈ acc ∨ y = x.
Proof.
  unfold setAdd. case_decide.
  - split; [by left|]. by intros [?| ->].
  - rewrite elem_of_app, list_elem_of_singleton. done.
Qed.

Lemma NoDup_setAdd acc x : NoDup acc → NoDup (setAdd acc x).
Proof.
  intros Hnd. unfold setAdd. case_decide; [done|].
  apply NoDup_app. split_and!; [done| |apply NoDup_singleton].
  intros y Hy ->%list_elem_of_singleton. done.
Qed.

Lemma elem_of_foldl_setAdd l :
  ∀ acc y, y ∈ foldl setAdd acc l ↔ y ∈ acc ∨ y ∈ l.
Proof.
  induction l as [|x l IH]; intros acc y; simpl.
  - rewrite elem_of_nil. tauto.
  - rewrite IH, elem_of_setAdd, elem_of_cons. tauto.
Qed.

Lemma NoDup_foldl_setAdd l : ∀ acc, NoDup acc → NoDup (foldl setAdd acc l).
Proof.
  induction l as [|x l IH]; intros acc Hnd; simpl; [done|].
  by apply IH, NoDup_setAdd.
Qed.

Lemma elem_of_setFromArray l y : y ∈ setFromArray l ↔ y ∈ l.
Proof.
  unfold setFromArray. rewrite elem_of_foldl_setAdd, elem_of_nil. tauto.
Qed.

Lemma NoDup_setFromArray l : NoDup (setFromArray l).
Proof. apply NoDup_foldl_setAdd, NoDup_nil_2. Qed.

Lemma setFromArray_snoc l x :
  setFromArray (l ++ [x]) = setAdd (setFromArray l) x.
Proof. unfold setFromArray. by rewrite foldl_app. Qed.

Lemma occursBefore_app l x a b : occursBefore l a b → occursBefore (l ++ [x]) a b.
Proof.
  intros (k & Hk & Hbefore). exists k. split.
  - by apply lookup_app_l_Some.
  - intros k' Hk'. rewrite lookup_app_l; [by apply Hbefore|].
    apply lookup_lt_Some in Hk. lia.
Qed.

(** The distinct elements come in the order of their first occurrence. *)
Lemma setFromArray_order l : firstOccurrenceOrder l (setFromArray l).
Proof.
  induction l as [|x l IH] using rev_ind.
  - intros i j a b _ Hi. done.
  - rewrite setFromArray_snoc. unfold setAdd. case_decide as Hx.
    + intros i j a b Hij Hi Hj. apply occursBefore_app. by eapply IH.
    + intros i j a b Hij Hi Hj.
      apply lookup_app_Some in Hj as [Hj|[Hlen Hj]].
      * apply lookup_app_Some in Hi as [Hi|[Hlen' _]].
        -- apply occursBefore_app. by eapply IH.
        -- apply lookup_lt_Some in Hj. lia.
      * apply list_lookup_singleton_Some in Hj as [Hj0 <-].
        apply lookup_app_Some in Hi as [Hi|[Hlen' _]]; [|lia].
        assert (a ∈ l) as [k Hk]%list_elem_of_lookup.
        { apply elem_of_setFromArray. by eapply list_elem_of_lookup_2. }
        exists k. split; [by apply lookup_app_l_Some|].
        intros k' Hk' Hx'. apply Hx, elem_of_setFromArray.
        rewrite lookup_app_l in Hx' by (apply lookup_lt_Some in Hk; lia).
        by eapply list_elem_of_lookup_2.
Qed.

Lemma firstOccurrenceOrder_take l ex n :
  firstOccurrenceOrder l ex → firstOccurrenceOrder l (take n ex).
Proof.
  intros Hord i j a b Hij Hi Hj.
  apply lookup_take_Some in Hi as [Hi _].
  apply lookup_take_Some in Hj as [Hj _]. by eapply Hord.
Qed.

(** *** The stable sort by descending count *)

Lemma insertByCount_Permutation x m : insertByCount x m ≡ₚ x :: m.
Proof.
  induction m as [|y m IH]; simpl; [done|].
  destruct (snd y <=? snd x); [done|].
  rewrite IH. apply Permutation_swap.
Qed.

Lemma sortByCountDesc_Permutation m : sortByCountDesc m ≡ₚ m.
Proof.
  unfold sortByCountDesc. induction m as [|x m IH]; simpl; [done|].
  by rewrite insertByCount_Permutation, IH.
Qed.

Lemma insertByCount_sorted x m :
  StronglySorted countGe m → StronglySorted countGe (insertByCount x m).
Proof.
  induction m as [|y m IH]; simpl; intros Hs.
  - repeat constructor.
  - apply StronglySorted_inv in Hs as [Hs Hy].
    destruct (snd y <=? snd x) eqn:Hle.
    + apply Nat.leb_le in Hle. constructor; [by constructor|].
      constructor; [done|].
      eapply Forall_impl; [exact Hy|]. unfold countGe. intros z Hz. lia.
    + apply Nat.leb_gt in Hle. constructor; [by apply IH|].
      rewrite insertByCount_Permutation. constructor; [|done].
      unfold countGe. lia.
Qed.

Lemma sortByCountDesc_sorted m : StronglySorted countGe (sortByCountDesc m).
Proof.
  unfold sortByCountDesc. induction m as [|x m IH]; simpl.
  - constructor.
  - by apply insertByCount_sorted.
Qed.

Lemma insertByCount_stable c x m :
  base.filter (fun e => snd e = c) (insertByCount x m)
    = base.filter (fun e => snd e = c) (x :: m).
Proof.
  induction m as [|y m IH]; cbn [insertByCount]; [done|].
  destruct (snd y <=? snd x) eqn:Hle; [done|]. apply Nat.leb_gt in Hle.
  rewrite (filter_cons _ y (insertByCount x m)), IH, !filter_cons.
  repeat case_decide; try done; lia.
Qed.

(** Entries of equal count keep their order. *)
Lemma sortByCountDesc_stable c m :
  base.filter (fun e => snd e = c) (sortByCountDesc m)
    = base.filter (fun e => snd e = c) m.
Proof.
  unfold sortByCountDesc. induction m as [|x m IH]; [done|].
  cbn [foldr]. by rewrite insertByCount_stable, !filter_cons, IH.
Qed.
End PhraseMap.

Section Phrases.
Implicit Types (words : list text) (p : text) (m : PhraseMap).

Lemma foldl_countWindow words idxs :
  ∀ m, foldl (Script.countWindow words) m idxs
       = foldl countPhrase m
           (base.filter (fun p => isCandidate p = true)
              (map (Script.windowAt words) idxs)).
Proof.
  induction idxs as [|i idxs IH]; intros m; [done|].
  cbn [foldl map]. rewrite IH, filter_cons. unfold Script.countWindow.
  fold (isCandidate (Script.windowAt words i)).
  destruct (isCandidate (Script.windowAt words i)) eqn:Hc.
  - by rewrite decide_True.
  - by rewrite decide_False.
Qed.

Lemma phraseMapOf_candidates words :
  Script.phraseMapOf words = foldl countPhrase [] (candidatesOf words).
Proof. apply foldl_countWindow. Qed.

Lemma phraseMapOf_keys words :
  (Script.phraseMapOf words).*1 = setFromArray (candidatesOf words).
Proof. by rewrite phraseMapOf_candidates, keys_foldl_countPhrase. Qed.

Lemma phraseMapOf_entries words p n :
  (p, n) ∈ Script.phraseMapOf words
  ↔ p ∈ candidatesOf words ∧ n = countOf p (candidatesOf words).
Proof.
  rewrite elem_of_mapGet
    by (rewrite phraseMapOf_keys; apply NoDup_setFromArray).
  pose proof (getCount_foldl_countPhrase p (candidatesOf words) []) as Hcount.
  rewrite <- phraseMapOf_candidates in Hcount. unfold getCount in Hcount.
  simpl in Hcount.
  rewrite <- elem_of_setFromArray, <- phraseMapOf_keys.
  destruct (mapGet p (Script.phraseMapOf words)) as [n'|] eqn:Hget.
  - simpl in Hcount. split.
    + intros [= <-]. split; [|done].
      apply dec_stable. intros Hnot. apply mapGet_None in Hnot. congruence.
    + intros [_ ->]. by rewrite Hcount.
  - split; [done|]. intros [Hin _]. by apply mapGet_None in Hget.
Qed.

Lemma visitedWindows_spec words p :
  p ∈ visitedWindows words ↔
  ∃ i, i + 4 < length words ∧ p = Script.windowAt words i.
Proof.
  unfold visitedWindows. rewrite list_elem_of_fmap. split.
  - intros (i & -> & Hi). apply elem_of_seq in Hi. exists i. split; [lia|done].
  - intros (i & Hi & ->). exists i. split; [done|]. apply elem_of_seq. lia.
Qed.

Lemma windowAt_words words i :
  i + 4 < length words →
  length (take 4 (drop i words)) = 4
  ∧ Script.windowAt words i
      = Str.toLowerCase (Str.join (str " ") (take 4 (drop i words))).
Proof. intros Hi. rewrite length_take, length_drop. split; [lia|done]. Qed.

Lemma topPhrases_length m : length (topPhrases m) = length m `min` 5.
Proof.
  unfold topPhrases.
  rewrite length_map, length_take, (Permutation_length (sortByCountDesc_Permutation m)).
  lia.
Qed.
End Phrases.

(** C6 (as amended). The extractor of the script splits the text into
    words at whitespace and visits windows of 4 consecutive words, joined
    by single spaces and lower-cased, among them every window that is
    followed by a further word. A visited window is a candidate exactly
    when its length is strictly between 10 and 50. The phrase map holds
    each candidate once, in first-seen order, with the number of its
    occurrences; it is sorted by descending count, entries of equal count
    keeping that order, and the first 5 phrases are returned, or the five
    fixed phrases when there is no candidate. *)
Theorem commonPhrases_top_five (words : list text) :
  (∀ i, i + 4 < length words →
     Script.windowAt words i ∈ visitedWindows words
     ∧ length (take 4 (drop i words)) = 4
     ∧ Script.windowAt words i
         = Str.toLowerCase (Str.join (str " ") (take 4 (drop i words))))
  ∧ (∀ p, p ∈ candidatesOf words ↔
       p ∈ visitedWindows words ∧ 10 < length p < 50)
  ∧ NoDup (Script.phraseMapOf words).*1
  ∧ firstOccurrenceOrder (candidatesOf words) (Script.phraseMapOf words).*1
  ∧ (∀ p n, (p, n) ∈ Script.phraseMapOf words ↔
       p ∈ candidatesOf words ∧ n = countOf p (candidatesOf words))
  ∧ sortByCountDesc (Script.phraseMapOf words) ≡ₚ Script.phraseMapOf words
  ∧ StronglySorted countGe (sortByCountDesc (Script.phraseMapOf words))
  ∧ (∀ c, base.filter (fun e => snd e = c)
            (sortByCountDesc (Script.phraseMapOf words))
          = base.filter (fun e => snd e = c) (Script.phraseMapOf words))
  ∧ Script.phrasesOfWords words
      = (if decide (candidatesOf words = []) then Script.fallbackPhrases
         else take 5 (sortByCountDesc (Script.phraseMapOf words)).*1)
  ∧ length (Script.phrasesOfWords words) ≤ 5
  ∧ ∀ allContent,
      Script.commonPhrasesOf allContent
        = Script.phrasesOfWords (Str.split reWhitespace allContent).
Proof.
  split_and!.
  - intros i Hi. split; [|by apply windowAt_words].
    apply visitedWindows_spec. eauto.
  - intros p. unfold candidatesOf, isCandidate.
    rewrite list_elem_of_filter, andb_true_iff, !Nat.ltb_lt. tauto.
  - rewrite phraseMapOf_keys. apply NoDup_setFromArray.
  - rewrite phraseMapOf_keys. apply setFromArray_order.
  - apply phraseMapOf_entries.
  - apply sortByCountDesc_Permutation.
  - apply sortByCountDesc_sorted.
  - intros c. apply sortByCountDesc_stable.
  - unfold Script.phrasesOfWords. cbv zeta. rewrite topPhrases_length.
    unfold topPhrases. rewrite fmap_take.
    pose proof (phraseMapOf_keys words) as Hkeys.
    destruct (candidatesOf words) as [|p cs] eqn:Hc.
    + rewrite decide_True by done.
      destruct (Script.phraseMapOf words); [done|]. done.
    + rewrite decide_False by done.
      destruct (Script.phraseMapOf words) as [|e m] eqn:Hm; [|done].
      exfalso. assert (p ∈ setFromArray (p :: cs)) as Hp.
      { apply elem_of_setFromArray. left. }
      rewrite <- Hkeys in Hp. by apply elem_of_nil in Hp.
  - unfold Script.phrasesOfWords. cbv zeta.
    destruct (0 <? _); [rewrite topPhrases_length; lia|].
    vm_compute. lia.
  - done.
Qed.

Lemma commonPhrases_sample :
  length (Script.commonPhrasesOf sampleFox) ≤ 5
  ∧ Script.commonPhrasesOf sampleFox
      = map str ["the quick brown fox"; "quick brown fox jumps";
                 "brown fox jumps over"; "fox jumps over the";
                 "jumps over the quick"]%string.
Proof.
  split; [|vm_compute; reflexivity].
  unfold Script.commonPhrasesOf.
  apply (commonPhrases_top_five (Str.split reWhitespace sampleFox)).
Defined.

(** C6, counterexample. The first window of [abc d e fg h] has exactly 10
    code units and the last one 8: the specification's reading keeps the
    first, the extractor keeps none and returns the fixed phrases. *)
Lemma window_of_ten_not_kept :
  length (str "abc d e fg") = 10
  ∧ claimedCommonPhrases (str "abc d e fg h") = [str "abc d e fg"]
  ∧ Script.commonPhrasesOf (str "abc d e fg h") = Script.fallbackPhrases
  ∧ Script.commonPhrasesOf (str "abc d e fg h")
      ≠ claimedCommonPhrases (str "abc d e fg h").
Proof. split_and!; [vm_compute; reflexivity..|]. vm_compute. discriminate. Qed.

(** ** Case-insensitive counting *)

Section CaseInsensitive.
Implicit Types (a b c : ascii) (s t : text) (prev : option ascii) (k : cont).



















End CaseInsensitive.





(** ** Trigger-pattern extractors *)

Section Triggers.
Implicit Types (content : text) (t : PsychologicalTrigger).

Local Ltac entry_shape :=
  unfold entryOf; simpl;
  match goal with
  | |- context [Str.match_ ?re ?c] =>
      generalize dependent (Str.match_ re c); intros
  end;
  split_and!; try done; reflexivity.

Local Ltac one_block H :=
  match type of H with
  | _ ∈ (if 0 <? length ?ms then _ else _) =>
      let Hpos := fresh "Hpos" in
      destruct (0 <? length ms) eqn:Hpos;
      [apply Nat.ltb_lt in Hpos; apply list_elem_of_singleton in H; subst
      |by apply elem_of_nil in H]
  end.

Local Ltac pick_block :=
  rewrite !elem_of_app;
  repeat first [by (left; apply list_elem_of_singleton)
               |by apply list_elem_of_singleton
               |right].

Lemma analyzer_trigger_inv content t :
  t ∈ Analyzer.analyzePsychologicalTriggers content →
  ∃ label re, (label, re) ∈ analyzerCategories
    ∧ entryOf label (Str.match_ re content) (take 3 (Str.match_ re content)) t.
Proof.
  unfold Analyzer.analyzePsychologicalTriggers.
  rewrite !elem_of_app.
  unfold Analyzer.fomoTrigger, Analyzer.socialTrigger,
    Analyzer.authorityTrigger, Analyzer.reciprocityTrigger.
  intros [H|[H|[H|H]]]; one_block H.
  - exists labelFomo, Analyzer.fomoPatterns. split; [repeat constructor|entry_shape].
  - exists labelSocial, Analyzer.socialProofPatterns.
    split; [repeat constructor|entry_shape].
  - exists labelAuthority, Analyzer.authorityPatterns.
    split; [repeat constructor|entry_shape].
  - exists labelReciprocity, Analyzer.reciprocityPatterns.
    split; [repeat constructor|entry_shape].
Qed.

Lemma script_trigger_inv content t :
  t ∈ Script.triggersOfContent content →
  ∃ label re, (label, re) ∈ scriptCategories
    ∧ entryOf label (Str.match_ re content)
        (take 3 (setFromArray (Str.match_ re content))) t.
Proof.
  unfold Script.triggersOfContent.
  rewrite !elem_of_app. unfold Script.triggerOf.
  intros [H|[H|[H|H]]]; one_block H.
  - exists labelFomo, Script.fomoPatterns. split; [repeat constructor|entry_shape].
  - exists labelSocial, Script.socialPatterns. split; [repeat constructor|entry_shape].
  - exists labelAuthorityBuilding, Script.authorityPatterns.
    split; [repeat constructor|entry_shape].
  - exists labelTransformation, Script.transformPatterns.
    split; [repeat constructor|entry_shape].
Qed.

Lemma analyzer_trigger_emitted content label re :
  (label, re) ∈ analyzerCategories →
  0 < length (Str.match_ re content) →
  ∃ t, t ∈ Analyzer.analyzePsychologicalTriggers content
    ∧ entryOf label (Str.match_ re content) (take 3 (Str.match_ re content)) t.
Proof.
  intros Hin Hpos. unfold analyzerCategories in Hin.
  unfold Analyzer.analyzePsychologicalTriggers.
  unfold Analyzer.fomoTrigger, Analyzer.socialTrigger,
    Analyzer.authorityTrigger, Analyzer.reciprocityTrigger.
  apply Nat.ltb_lt in Hpos.
  repeat (apply elem_of_cons in Hin as [Hin|Hin]; [injection Hin as -> ->|]);
    [..|by apply elem_of_nil in Hin];
    rewrite Hpos; eexists; (split; [pick_block|]);
    apply Nat.ltb_lt in Hpos; entry_shape.
Qed.

Lemma script_trigger_emitted content label re :
  (label, re) ∈ scriptCategories →
  0 < length (Str.match_ re content) →
  ∃ t, t ∈ Script.triggersOfContent content
    ∧ entryOf label (Str.match_ re content)
        (take 3 (setFromArray (Str.match_ re content))) t.
Proof.
  intros Hin Hpos. unfold scriptCategories in Hin.
  unfold Script.triggersOfContent, Script.triggerOf.
  apply Nat.ltb_lt in Hpos.
  repeat (apply elem_of_cons in Hin as [Hin|Hin]; [injection Hin as -> ->|]);
    [..|by apply elem_of_nil in Hin];
    rewrite Hpos; eexists; (split; [pick_block|]);
    apply Nat.ltb_lt in Hpos; entry_shape.
Qed.

(** The labels of a table are pairwise distinct. *)
Lemma analyzerCategories_functional label re re' :
  (label, re) ∈ analyzerCategories → (label, re') ∈ analyzerCategories →
  re = re'.
Proof.
  unfold analyzerCategories. intros H1 H2.
  repeat (apply elem_of_cons in H1 as [H1|H1]; [injection H1 as -> ->|]);
    [..|by apply elem_of_nil in H1];
    repeat (apply elem_of_cons in H2 as [H2|H2];
            [first [discriminate H2|by injection H2]|]);
    by apply elem_of_nil in H2.
Qed.

Lemma scriptCategories_functional label re re' :
  (label, re) ∈ scriptCategories → (label, re') ∈ scriptCategories →
  re = re'.
Proof.
  unfold scriptCategories. intros H1 H2.
  repeat (apply elem_of_cons in H1 as [H1|H1]; [injection H1 as -> ->|]);
    [..|by apply elem_of_nil in H1];
    repeat (apply elem_of_cons in H2 as [H2|H2];
            [first [discriminate H2|by injection H2]|]);
    by apply elem_of_nil in H2.
Qed.

Lemma assignedImpact_high label n :
  assignedImpact label n = high ↔
  label ≠ labelReciprocity ∧ thresholdOf label < n.
Proof.
  unfold assignedImpact.
  destruct (decide (label = labelReciprocity)) as [->|Hne];
    destruct (thresholdOf _ <? n) eqn:Hlt;
    [apply Nat.ltb_lt in Hlt|apply Nat.ltb_ge in Hlt
    |apply Nat.ltb_lt in Hlt|apply Nat.ltb_ge in Hlt];
    split; try done; try (intros [? ?]; done); try lia.
Qed.
End Triggers.

(** C2 (as amended). For every text and every category with at least one
    match, both extractors emit a trigger whose frequency is the match
    count and whose impact is [assignedImpact]: [high] exactly when the
    category is not Reciprocity and the frequency exceeds the category's
    threshold (FOMO 5, Social Proof 3, Authority 4, Transformation Promise
    6), [medium] otherwise; Reciprocity is [medium] above its threshold 2 and
    [low] otherwise. A text with 6 FOMO matches and 2 Reciprocity matches
    yields a FOMO trigger of frequency 6 and impact [high] and a Reciprocity
    trigger of frequency 2 and impact [low]. *)
Theorem trigger_impact_by_threshold (content : text) :
  (∀ label re, (label, re) ∈ analyzerCategories →
     0 < length (Str.match_ re content) →
     ∃ t, t ∈ Analyzer.analyzePsychologicalTriggers content
       ∧ type t = label ∧ frequency t = length (Str.match_ re content))
  ∧ (∀ label re, (label, re) ∈ scriptCategories →
     0 < length (Str.match_ re content) →
     ∃ t, t ∈ Script.triggersOfContent content
       ∧ type t = label ∧ frequency t = length (Str.match_ re content))
  ∧ (∀ t, t ∈ Analyzer.analyzePsychologicalTriggers content
          ∨ t ∈ Script.triggersOfContent content →
       impact t = assignedImpact (type t) (frequency t)
       ∧ (impact t = high ↔
          type t ≠ labelReciprocity ∧ thresholdOf (type t) < frequency t))
  ∧ (length (Str.match_ Analyzer.fomoPatterns content) = 6 →
     length (Str.match_ Analyzer.reciprocityPatterns content) = 2 →
     ∃ t1 t2,
       t1 ∈ Analyzer.analyzePsychologicalTriggers content
       ∧ type t1 = labelFomo ∧ frequency t1 = 6 ∧ impact t1 = high
       ∧ t2 ∈ Analyzer.analyzePsychologicalTriggers content
       ∧ type t2 = labelReciprocity ∧ frequency t2 = 2 ∧ impact t2 = low).
Proof.
  split_and!.
  - intros label re Hin Hpos.
    destruct (analyzer_trigger_emitted content label re Hin Hpos)
      as (t & Ht & _ & Hty & Hfr & _). eauto.
  - intros label re Hin Hpos.
    destruct (script_trigger_emitted content label re Hin Hpos)
      as (t & Ht & _ & Hty & Hfr & _). eauto.
  - assert (∀ t, t ∈ Analyzer.analyzePsychologicalTriggers content
          ∨ t ∈ Script.triggersOfContent content →
       impact t = assignedImpact (type t) (frequency t)) as Himpact.
    { intros t [Ht|Ht].
      - apply analyzer_trigger_inv in Ht
          as (label & re & _ & _ & Hty & Hfr & _ & Him). congruence.
      - apply script_trigger_inv in Ht
          as (label & re & _ & _ & Hty & Hfr & _ & Him). congruence. }
    intros t Ht. split; [by apply Himpact|].
    rewrite (Himpact t Ht). apply assignedImpact_high.
  - intros Hfomo Hrec.
    destruct (analyzer_trigger_emitted content labelFomo Analyzer.fomoPatterns)
      as (t1 & Ht1 & _ & Hty1 & Hfr1 & _ & Him1);
      [repeat constructor|lia|].
    destruct (analyzer_trigger_emitted content labelReciprocity
                Analyzer.reciprocityPatterns)
      as (t2 & Ht2 & _ & Hty2 & Hfr2 & _ & Him2);
      [repeat constructor|lia|].
    exists t1, t2. rewrite Hfomo in *. rewrite Hrec in *. by split_and!.
Qed.

Lemma trigger_impact_sample :
  ∃ t1 t2,
    t1 ∈ Analyzer.analyzePsychologicalTriggers sampleOffer
    ∧ type t1 = labelFomo ∧ frequency t1 = 6 ∧ impact t1 = high
    ∧ t2 ∈ Analyzer.analyzePsychologicalTriggers sampleOffer
    ∧ type t2 = labelReciprocity ∧ frequency t2 = 2 ∧ impact t2 = low.
Proof.
  apply (trigger_impact_by_threshold sampleOffer); vm_compute; reflexivity.
Defined.

(** C2, counterexample. Three Reciprocity matches exceed the threshold 2,
    and the trigger the extractor emits has impact [medium], where the
    claim has [high]. *)
Lemma reciprocity_above_threshold_medium :
  Analyzer.analyzePsychologicalTriggers (str "free free free")
    = [{| type := labelReciprocity; frequency := 3;
          examples := [str "free"; str "free"; str "free"];
          impact := medium |}]
  ∧ claimedImpact labelReciprocity 3 = high.
Proof. split; vm_compute; reflexivity. Qed.

(** C4. A category whose pattern has no match in the text has no entry in
    the list of triggers, for both extractors and every category of their
    tables (Social Proof among them); no emitted trigger has frequency
    zero. *)
Theorem category_omission (content : text) :
  (∀ t, t ∈ Analyzer.analyzePsychologicalTriggers content
        ∨ t ∈ Script.triggersOfContent content → 0 < frequency t)
  ∧ (∀ label re, (label, re) ∈ analyzerCategories →
       Str.match_ re content = [] →
       ∀ t, t ∈ Analyzer.analyzePsychologicalTriggers content → type t ≠ label)
  ∧ (∀ label re, (label, re) ∈ scriptCategories →
       Str.match_ re content = [] →
       ∀ t, t ∈ Script.triggersOfContent content → type t ≠ label)
  ∧ (Str.match_ Analyzer.socialProofPatterns content = [] →
       ∀ t, t ∈ Analyzer.analyzePsychologicalTriggers content →
         type t ≠ labelSocial)
  ∧ (Str.match_ Script.socialPatterns content = [] →
       ∀ t, t ∈ Script.triggersOfContent content → type t ≠ labelSocial).
Proof.
  assert (∀ label re, (label, re) ∈ analyzerCategories →
       Str.match_ re content = [] →
       ∀ t, t ∈ Analyzer.analyzePsychologicalTriggers content → type t ≠ label)
    as Hanalyzer.
  { intros label re Hin Hnil t Ht Hty.
    apply analyzer_trigger_inv in Ht as (label' & re' & Hin' & Hpos & Hty' & _).
    assert (label' = label) as -> by congruence.
    rewrite (analyzerCategories_functional _ _ _ Hin' Hin), Hnil in Hpos.
    simpl in Hpos. lia. }
  assert (∀ label re, (label, re) ∈ scriptCategories →
       Str.match_ re content = [] →
       ∀ t, t ∈ Script.triggersOfContent content → type t ≠ label)
    as Hscript.
  { intros label re Hin Hnil t Ht Hty.
    apply script_trigger_inv in Ht as (label' & re' & Hin' & Hpos & Hty' & _).
    assert (label' = label) as -> by congruence.
    rewrite (scriptCategories_functional _ _ _ Hin' Hin), Hnil in Hpos.
    simpl in Hpos. lia. }
  split_and!; [|done|done| |].
  - intros t [Ht|Ht].
    + apply analyzer_trigger_inv in Ht as (? & ? & _ & Hpos & _ & Hfr & _).
      by rewrite Hfr.
    + apply script_trigger_inv in Ht as (? & ? & _ & Hpos & _ & Hfr & _).
      by rewrite Hfr.
  - apply Hanalyzer. repeat constructor.
  - apply Hscript. repeat constructor.
Qed.

Lemma category_omission_sample :
  Forall (fun t => type t ≠ labelSocial)
    (Analyzer.analyzePsychologicalTriggers sampleOffer).
Proof.
  apply Forall_forall.
  apply (category_omission sampleOffer). vm_compute. reflexivity.
Defined.

(** C5, at the failing input. The extractor of the assembler lists the
    first three matches as they come: a phrase matched twice is listed
    twice. *)
Lemma analyzer_examples_repeat :
  Analyzer.analyzePsychologicalTriggers (str "exclusive exclusive")
    = [{| type := labelFomo; frequency := 2;
          examples := [str "exclusive"; str "exclusive"];
          impact := medium |}]
  ∧ ¬ NoDup [str "exclusive"; str "exclusive"].
Proof.
  split; [vm_compute; reflexivity|].
  intros Hnd. apply NoDup_cons in Hnd as [Hnotin _]. apply Hnotin. left.
Qed.

(** X1. The examples of the script's extractor are at most 3 pairwise distinct
    matched substrings, in the order of their first occurrence. *)
Theorem script_examples_distinct (content : text) :
  Forall (fun t =>
    ∃ label re, (label, re) ∈ scriptCategories ∧ type t = label
      ∧ examples t = take 3 (setFromArray (Str.match_ re content))
      ∧ length (examples t) ≤ 3
      ∧ NoDup (examples t)
      ∧ (∀ e, e ∈ examples t → e ∈ Str.match_ re content)
      ∧ firstOccurrenceOrder (Str.match_ re content) (examples t))
    (Script.triggersOfContent content).
Proof.
  apply Forall_forall. intros t Ht.
  apply script_trigger_inv in Ht as (label & re & Hin & _ & Hty & _ & Hex & _).
  exists label, re. rewrite Hex. split_and!; try done.
  - rewrite length_take. lia.
  - eapply sublist_NoDup; [apply NoDup_setFromArray|apply sublist_take].
  - intros e He. apply elem_of_setFromArray.
    apply elem_of_take in He as (i & Hi & _). by eapply list_elem_of_lookup_2.
  - apply firstOccurrenceOrder_take, setFromArray_order.
Qed.

(** ** Report assembler *)

Section Assembler.
Implicit Types (env : Analyzer.Env) (openai : option Analyzer.OpenAI).

Lemma orDefault_defined v d : d ≠ JUndefined → orDefault v d ≠ JUndefined.
Proof.
  intros Hd. unfold orDefault. destruct (truthy v) eqn:Ht; [|done].
  by intros ->.
Qed.

Lemma orDefault_score v d :
  isScore d → (truthy v = true → isScore v) → isScore (orDefault v d).
Proof. unfold orDefault. destruct (truthy v); auto. Qed.

Lemma getDefaultBrandProfile_defined :
  definedProfile Analyzer.getDefaultBrandProfile.
Proof. unfold definedProfile. simpl. by split_and!. Qed.

Lemma getDefaultBrandProfile_scores :
  scoresInRange Analyzer.getDefaultBrandProfile.
Proof.
  unfold scoresInRange, isScore. simpl.
  split_and!; eexists; (split; [reflexivity|lia]).
Qed.

Lemma getOpenAIClient_keyless env openai :
  Analyzer.OPENAI_API_KEY env = None →
  Analyzer.getOpenAIClient env openai = (None, openai).
Proof. intros Hkey. unfold Analyzer.getOpenAIClient. by rewrite Hkey. Qed.

(** What [profileOfAnswer] returns when it returns. *)
Lemma profileOfAnswer_Ok answer p :
  Analyzer.profileOfAnswer answer = Ok p →
  definedProfile p
  ∧ ∃ a r e,
      getProp answer "authority" = Ok a
      ∧ getProp answer "relatability" = Ok r
      ∧ getProp answer "expertise" = Ok e
      ∧ authority (positioning p) = orDefault a (JNum 75)
      ∧ relatability (positioning p) = orDefault r (JNum 80)
      ∧ expertise (positioning p) = orDefault e (JNum 85).
Proof.
  unfold Analyzer.profileOfAnswer.
  repeat match goal with
         | |- context [getProp answer ?k] =>
             let v := fresh "v" in let H := fresh "H" in
             destruct (getProp answer k) as [v|?] eqn:H; simpl; [|done]
         end.
  intros [= <-]. split.
  - unfold definedProfile. simpl. split_and!; by apply orDefault_defined.
  - eexists _, _, _. by split_and!.
Qed.

Lemma analyzeBrandProfile_cases env openai content :
  fst (Analyzer.analyzeBrandProfile env openai content)
    = Analyzer.getDefaultBrandProfile
  ∨ ∃ client answer,
      Analyzer.chat env client (Analyzer.brandPrompt content) = Ok answer
      ∧ Analyzer.profileOfAnswer answer
          = Ok (fst (Analyzer.analyzeBrandProfile env openai content)).
Proof.
  unfold Analyzer.analyzeBrandProfile.
  destruct (Analyzer.getOpenAIClient env openai) as [[client|] openai'];
    simpl; [|by left].
  destruct (Analyzer.chat env client _) as [answer|e] eqn:Hchat; simpl;
    [|by left].
  destruct (Analyzer.profileOfAnswer answer) as [p|e] eqn:Hp; simpl;
    [|by left].
  right. eauto.
Qed.

Lemma analyzeBrandProfile_defined env openai content :
  definedProfile (fst (Analyzer.analyzeBrandProfile env openai content)).
Proof.
  destruct (analyzeBrandProfile_cases env openai content)
    as [->|(client & answer & _ & Hp)].
  - apply getDefaultBrandProfile_defined.
  - by apply profileOfAnswer_Ok in Hp as [? _].
Qed.
End Assembler.

(** C3. Without the credential [analyzeNeuropsychology] returns a report
    (it does not throw) and leaves the module's client as it was: the
    brand profile is the default one, with every value defined, the
    other fields are those of the heuristic extractors over the joined
    text, the id, the posts and the time stamp are the ones given. The
    completion service is not consulted. *)
Theorem analyzeNeuropsychology_fallback (env : Analyzer.Env)
    (openai : option Analyzer.OpenAI) (now subject : text)
    (ps : list Post) :
  Analyzer.OPENAI_API_KEY env = None →
  ∃ report,
    Analyzer.analyzeNeuropsychology env openai now subject ps
      = (Ok report, openai)
    ∧ influencerId report = subject
    ∧ analyzedAt report = now
    ∧ posts report = ps
    ∧ brandProfile report = Analyzer.getDefaultBrandProfile
    ∧ definedProfile (brandProfile report)
    ∧ languagePatterns report
        = Analyzer.analyzeLanguagePatterns
            (Str.join [nl; nl] (map cleanContent ps))
    ∧ psychologicalTriggers report
        = Analyzer.analyzePsychologicalTriggers
            (Str.join [nl; nl] (map cleanContent ps))
    ∧ transformationNarrative report
        = Analyzer.analyzeTransformationNarrative
            (Str.join [nl; nl] (map cleanContent ps))
    ∧ missionVision report
        = Analyzer.analyzeMissionVision
            (Str.join [nl; nl] (map cleanContent ps))
    ∧ overallAssessment report
        = Analyzer.generateOverallAssessment
            (Str.join [nl; nl] (map cleanContent ps)).
Proof.
  intros Hkey. unfold Analyzer.analyzeNeuropsychology,
    Analyzer.analyzeBrandProfile.
  rewrite (getOpenAIClient_keyless env openai Hkey). simpl.
  eexists. split; [reflexivity|]. simpl.
  split_and!; try reflexivity. apply getDefaultBrandProfile_defined.
Qed.

Lemma analyzeNeuropsychology_fallback_sample :
  ∃ report,
    Analyzer.analyzeNeuropsychology keylessEnv None
      (str "2025-01-01T00:00:02.000Z") (str "ann-lee") [samplePost]
      = (Ok report, None)
    ∧ influencerId report = str "ann-lee"
    ∧ analyzedAt report = str "2025-01-01T00:00:02.000Z"
    ∧ posts report = [samplePost]
    ∧ brandProfile report = Analyzer.getDefaultBrandProfile
    ∧ definedProfile (brandProfile report)
    ∧ languagePatterns report
        = Analyzer.analyzeLanguagePatterns
            (Str.join [nl; nl] (map cleanContent [samplePost]))
    ∧ psychologicalTriggers report
        = Analyzer.analyzePsychologicalTriggers
            (Str.join [nl; nl] (map cleanContent [samplePost]))
    ∧ transformationNarrative report
        = Analyzer.analyzeTransformationNarrative
            (Str.join [nl; nl] (map cleanContent [samplePost]))
    ∧ missionVision report
        = Analyzer.analyzeMissionVision
            (Str.join [nl; nl] (map cleanContent [samplePost]))
    ∧ overallAssessment report
        = Analyzer.generateOverallAssessment
            (Str.join [nl; nl] (map cleanContent [samplePost])).
Proof.
  apply (analyzeNeuropsychology_fallback keylessEnv None
           (str "2025-01-01T00:00:02.000Z") (str "ann-lee") [samplePost]).
  reflexivity.
Defined.

(** C8 (as amended). The default profile and the profiles of the three
    configured subjects have integer scores in [0,100]. The model-backed
    path stores each score the model answered when it is truthy and the
    default 75, 80 or 85 otherwise, unchecked: its scores are in range
    whenever the truthy scores of the answer are. *)
Theorem brand_profile_scores :
  scoresInRange Analyzer.getDefaultBrandProfile
  ∧ (∀ slug config, (slug, config) ∈ Script.influencerConfigs →
       scoresInRange (Script.brandProfileOf config))
  ∧ (∀ env openai content,
       (∀ client answer,
          Analyzer.chat env client (Analyzer.brandPrompt content) = Ok answer →
          answerScoresOk answer) →
       scoresInRange (fst (Analyzer.analyzeBrandProfile env openai content))).
Proof.
  split_and!.
  - apply getDefaultBrandProfile_scores.
  - intros slug config Hin. unfold Script.influencerConfigs in Hin.
    repeat (apply elem_of_cons in Hin as [[= -> ->]|Hin]);
      [..|by apply elem_of_nil in Hin];
      unfold scoresInRange, isScore; simpl;
      split_and!; eexists; (split; [reflexivity|lia]).
  - intros env openai content Hok.
    destruct (analyzeBrandProfile_cases env openai content)
      as [->|(client & answer & Hchat & Hp)].
    + apply getDefaultBrandProfile_scores.
    + specialize (Hok client answer Hchat).
      apply profileOfAnswer_Ok in Hp
        as (_ & a & r & e & Ha & Hr & He & Hpa & Hpr & Hpe).
      unfold scoresInRange. rewrite Hpa, Hpr, Hpe.
      split_and!; apply orDefault_score;
        try (eexists; split; [reflexivity|lia]).
      * apply (Hok "authority"%string); [repeat constructor|done].
      * apply (Hok "relatability"%string); [repeat constructor|done].
      * apply (Hok "expertise"%string); [repeat constructor|done].
Qed.

Lemma brand_profile_scores_sample :
  scoresInRange
    (fst (Analyzer.analyzeBrandProfile ratingEnv None (str "Hello world"))).
Proof.
  apply brand_profile_scores.
  intros client answer [= <-] k v Hk.
  repeat (apply elem_of_cons in Hk as [->|Hk]);
    [..|by apply elem_of_nil in Hk]; intros [= <-]; [|done..].
  intros _. exists 90%Z. split; [reflexivity|lia].
Defined.

(** C8, counterexample. With a credential, a service that answers an
    authority of 150 gives a profile whose authority is 150. *)
Lemma model_score_out_of_range :
  authority (positioning
    (fst (Analyzer.analyzeBrandProfile overratingEnv None (str "Hello world"))))
    = JNum 150
  ∧ ¬ scoresInRange
        (fst (Analyzer.analyzeBrandProfile overratingEnv None
                (str "Hello world"))).
Proof.
  split; [reflexivity|].
  intros [(n & Hn & Hrange) _]. simpl in Hn. injection Hn as <-. lia.
Qed.

(** ** Roster *)

Section Roster.
Implicit Types (influencer old : Influencer) (roster : list Influencer).

Lemma savedRoster_found influencer roster i old :
  NoDup (inf_id <$> roster) →
  roster !! i = Some old → inf_id old = inf_id influencer →
  savedRoster influencer roster = <[i := influencer]> roster.
Proof.
  intros Hnd Hi Hid. unfold savedRoster.
  destruct (list_find _ roster) as [[j x]|] eqn:Hfind.
  - apply list_find_Some in Hfind as (Hj & Hx & _).
    assert (i = j) as ->; [|done].
    eapply NoDup_lookup; [exact Hnd| |].
    + rewrite list_lookup_fmap, Hi. simpl. reflexivity.
    + rewrite list_lookup_fmap, Hj. simpl. congruence.
  - apply list_find_None in Hfind.
    rewrite Forall_lookup in Hfind. exfalso. by eapply Hfind.
Qed.

Lemma savedRoster_fresh influencer roster :
  inf_id influencer ∉ inf_id <$> roster →
  savedRoster influencer roster = roster ++ [influencer].
Proof.
  intros Hfresh. unfold savedRoster.
  destruct (list_find _ roster) as [[j x]|] eqn:Hfind; [|done].
  apply list_find_Some in Hfind as (Hj & Hx & _).
  exfalso. apply Hfresh. rewrite <- Hx.
  apply list_elem_of_fmap_2. by eapply list_elem_of_lookup_2.
Qed.

Lemma savedRoster_NoDup influencer roster :
  NoDup (inf_id <$> roster) →
  NoDup (inf_id <$> savedRoster influencer roster).
Proof.
  intros Hnd.
  destruct (decide (inf_id influencer ∈ inf_id <$> roster)) as [Hin|Hfresh].
  - apply list_elem_of_fmap in Hin as (old & Hid & Hold).
    apply list_elem_of_lookup in Hold as [i Hi].
    rewrite (savedRoster_found influencer roster i old) by done.
    rewrite list_fmap_insert, list_insert_id; [done|].
    by rewrite list_lookup_fmap, Hi, Hid.
  - rewrite savedRoster_fresh by done.
    rewrite fmap_app. apply NoDup_app. split_and!; [done| |].
    + intros x Hx [->|[]%elem_of_nil]%elem_of_cons. done.
    + apply NoDup_singleton.
Qed.
End Roster.

(** C10. Roster uniqueness: if the ids of the roster are pairwise distinct,
    they still are after [saveInfluencer]; a record whose id occurs at
    index [i] replaces the record at [i], the length and every other index
    are unchanged; a record with a new id is appended at the end. *)
Theorem saveInfluencer_ids_distinct (st : Store) (influencer : Influencer) :
  NoDup (inf_id <$> getInfluencers st) →
  NoDup (inf_id <$> getInfluencers (saveInfluencer influencer st))
  ∧ (∀ i old,
       getInfluencers st !! i = Some old → inf_id old = inf_id influencer →
       length (getInfluencers (saveInfluencer influencer st))
         = length (getInfluencers st)
       ∧ getInfluencers (saveInfluencer influencer st) !! i = Some influencer
       ∧ ∀ j, j ≠ i →
           getInfluencers (saveInfluencer influencer st) !! j
             = getInfluencers st !! j)
  ∧ (inf_id influencer ∉ inf_id <$> getInfluencers st →
       getInfluencers (saveInfluencer influencer st)
         = getInfluencers st ++ [influencer]).
Proof.
  intros Hnd.
  change (getInfluencers (saveInfluencer influencer st))
    with (savedRoster influencer (getInfluencers st)).
  generalize dependent (getInfluencers st). intros roster Hnd. split_and!.
  - by apply savedRoster_NoDup.
  - intros i old Hi Hid.
    rewrite (savedRoster_found influencer _ i old) by done.
    split_and!.
    + apply length_insert.
    + apply list_lookup_insert_eq. by eapply lookup_lt_Some.
    + intros j Hj. by apply list_lookup_insert_ne.
  - apply savedRoster_fresh.
Qed.

Lemma saveInfluencer_sample :
  NoDup (inf_id <$> getInfluencers
           (saveInfluencer (sampleInfluencer "Ann Lee" "ann-lee" 7) sampleStore))
  ∧ getInfluencers
      (saveInfluencer (sampleInfluencer "Ann Lee" "ann-lee" 7) sampleStore)
      !! 0 = Some (sampleInfluencer "Ann Lee" "ann-lee" 7)
  ∧ getInfluencers
      (saveInfluencer (sampleInfluencer "Cy Diaz" "cy-diaz" 1) sampleStore)
      = getInfluencers sampleStore ++ [sampleInfluencer "Cy Diaz" "cy-diaz" 1].
Proof.
  assert (NoDup (inf_id <$> getInfluencers sampleStore)) as Hnd.
  { apply (bool_decide_unpack _). vm_compute. reflexivity. }
  destruct (saveInfluencer_ids_distinct sampleStore
              (sampleInfluencer "Ann Lee" "ann-lee" 7) Hnd)
    as (Hnd' & Hreplace & _).
  destruct (saveInfluencer_ids_distinct sampleStore
              (sampleInfluencer "Cy Diaz" "cy-diaz" 1) Hnd)
    as (_ & _ & Hfresh).
  split_and!.
  - exact Hnd'.
  - apply (Hreplace 0 (sampleInfluencer "Ann Lee" "ann-lee" 3));
      reflexivity.
  - apply Hfresh. apply (bool_decide_unpack _). vm_compute. reflexivity.
Defined.

(** ** Analyze endpoint *)

Section Endpoint.
Implicit Types (env : RequestEnv) (st : Store) (body : jsval).

Lemma getProp_readable body k :
  readableBody (Ok body) = true → ∃ v, getProp body k = Ok v.
Proof. destruct body; simpl; intros; try done; eauto. Qed.

Lemma getProp_unreadable body k :
  readableBody (Ok body) = false → ∃ e, getProp body k = Throw e.
Proof. destruct body; simpl; intros; try done; eauto. Qed.

Lemma prepare_validation env :
  readableBody (requestJson env) = true →
  lacksField (requestJson env) "name"
  ∨ lacksField (requestJson env) "substackUrl" →
  prepare env = Ok (inl validationError).
Proof.
  intros Hread Hlacks. unfold prepare, lacksField in *.
  destruct (requestJson env) as [body|e]; [|done]. cbn [mbind result_bind].
  destruct (getProp_readable body "name" Hread) as [name Hname].
  destruct (getProp_readable body "substackUrl" Hread) as [url Hurl].
  destruct (getProp_readable body "description" Hread) as [d Hd].
  rewrite Hname, Hurl in Hlacks. rewrite Hname. cbn [mbind result_bind].
  rewrite Hurl. cbn [mbind result_bind]. rewrite Hd. cbn [mbind result_bind].
  destruct Hlacks as [->| ->]; [done|]. by rewrite orb_true_r.
Qed.

Lemma prepare_unreadable env :
  readableBody (requestJson env) = false → ∃ e, prepare env = Throw e.
Proof.
  intros Hread. unfold prepare.
  destruct (requestJson env) as [body|e]; [|by eauto].
  cbn [mbind result_bind].
  destruct (getProp_unreadable body "name" Hread) as [e ->]. by eauto.
Qed.
End Endpoint.

(** C9 (as amended). A request that brings no truthy name or no truthy feed
    URL is answered with an error payload, and the store (roster and
    analyses) and the client are left as they were. The status is 400 with
    the message of the validation when the body was read and is not
    [null]; a body that cannot be read or is [null] is answered with
    status 500 and the message of the failure. *)
Theorem POST_validation_failure (env : RequestEnv) (st : Store)
    (openai : option Analyzer.OpenAI) :
  lacksField (requestJson env) "name"
  ∨ lacksField (requestJson env) "substackUrl" →
  POST env st openai
    = (if readableBody (requestJson env)
       then {| status := 400;
               payload :=
                 ErrorPayload (str "Name and Substack URL are required") |}
       else {| status := 500;
               payload := ErrorPayload (str "Failed to analyze influencer") |},
       st, openai)
  ∧ getInfluencers (snd (fst (POST env st openai))) = getInfluencers st
  ∧ analysesDir (snd (fst (POST env st openai))) = analysesDir st.
Proof.
  intros Hlacks. unfold POST.
  destruct (readableBody (requestJson env)) eqn:Hread.
  - by rewrite (prepare_validation env Hread Hlacks).
  - by destruct (prepare_unreadable env Hread) as [e ->].
Qed.

Lemma POST_validation_sample :
  (POST absentKeyRequest emptyStore None
     = ({| status := 400;
           payload := ErrorPayload (str "Name and Substack URL are required") |},
        emptyStore, None)
   ∧ getInfluencers (snd (fst (POST absentKeyRequest emptyStore None)))
       = getInfluencers emptyStore
   ∧ analysesDir (snd (fst (POST absentKeyRequest emptyStore None)))
       = analysesDir emptyStore)
  ∧ (POST nullBodyRequest sampleStore None
       = ({| status := 500;
             payload := ErrorPayload (str "Failed to analyze influencer") |},
          sampleStore, None)
     ∧ getInfluencers (snd (fst (POST nullBodyRequest sampleStore None)))
         = getInfluencers sampleStore
     ∧ analysesDir (snd (fst (POST nullBodyRequest sampleStore None)))
         = analysesDir sampleStore).
Proof.
  split.
  - apply (POST_validation_failure absentKeyRequest emptyStore None).
    right. reflexivity.
  - apply (POST_validation_failure nullBodyRequest sampleStore None).
    left. exact I.
Defined.

(** C9, counterexample. A body that is [null] brings no name and no feed
    URL, and is answered with status 500, where the claim has a 4xx
    status. *)
Theorem null_body_answered_500 :
  lacksField (requestJson nullBodyRequest) "name"
  ∧ lacksField (requestJson nullBodyRequest) "substackUrl"
  ∧ status (POST nullBodyRequest emptyStore None).1.1 = 500
  ∧ ¬ (400 ≤ status (POST nullBodyRequest emptyStore None).1.1 < 500)
  ∧ ¬ (∀ env st openai,
         lacksField (requestJson env) "name" →
         400 ≤ status (POST env st openai).1.1 < 500).
Proof.
  split_and!; [exact I|exact I|reflexivity| |].
  - change (status (POST nullBodyRequest emptyStore None).1.1) with 500. lia.
  - intros H. specialize (H nullBodyRequest emptyStore None I).
    change (status (POST nullBodyRequest emptyStore None).1.1) with 500 in H.
    lia.
Qed.

(** A complete request is answered with status 200, and both records are
    written. *)
Example POST_success_sample :
  status (POST validRequest emptyStore None).1.1 = 200
  ∧ inf_id <$> getInfluencers (POST validRequest emptyStore None).1.2
      = [str "ann-lee"]
  ∧ (cleanContent <$>
       default [] (posts <$>
         getAnalysis (str "ann-lee") (POST validRequest emptyStore None).1.2))
      = [str "! This is AMAZING. Only 3 spots left."].
Proof. split_and!; vm_compute; reflexivity. Qed.

(** ** The matcher *)

Section Engine.
Implicit Types (a c : ascii) (s t rep : text) (prev : option ascii)
  (re : RegExp) (k : cont) (p : ascii → bool).

Lemma starLoop_shrinking m greedy k fuel :
  (∀ prev s k' x, shrinking k' → m prev s k' = Some x → length x ≤ length s) →
  shrinking k →
  ∀ prev s x, starLoop m greedy k fuel prev s = Some x → length x ≤ length s.
Proof.
  intros Hm Hk. induction fuel as [|fuel IH]; intros prev s x; cbn [starLoop].
  - apply Hk.
  - assert (∀ y,
      m prev s (fun prev' s' =>
        if length s' <? length s then starLoop m greedy k fuel prev' s'
        else None) = Some y → length y ≤ length s) as Hagain.
    { intros y. apply Hm. intros q s' z.
      destruct (_ <? _); [apply IH|done]. }
    destruct greedy; unfold orElse.
    + destruct (m prev s _) as [y|]; [intros [= <-]; by apply Hagain|apply Hk].
    + destruct (k prev s) as [y|] eqn:Hky; [intros [= <-]; by eapply Hk|].
      apply Hagain.
Qed.

(** A match never leaves more than it was given. *)
Lemma rmatch_shrinking fl r :
  ∀ prev s k x, shrinking k → rmatch fl r prev s k = Some x →
    length x ≤ length s.
Proof.
  induction r as [|c|cl|r1 IH1 r2 IH2|r1 IH1 r2 IH2|r1 IH1|r1 IH1| | |];
    intros prev s k x Hk; cbn [rmatch].
  - apply Hk.
  - destruct s as [|a t]; [done|]. destruct (charMatches fl c a); [|done].
    intros H%Hk. simpl. lia.
  - destruct s as [|a t]; [done|]. destruct (classMatches fl cl a); [|done].
    intros H%Hk. simpl. lia.
  - apply IH1. intros q s' y. by apply IH2.
  - unfold orElse. destruct (rmatch fl r1 prev s k) as [y|] eqn:H1.
    + intros [= <-]. by eapply IH1.
    + by apply IH2.
  - by apply starLoop_shrinking.
  - by apply starLoop_shrinking.
  - destruct (atLineStart fl prev); [apply Hk|done].
  - destruct (atLineEnd fl s); [apply Hk|done].
  - destruct (atWordBoundary prev s); [apply Hk|done].
Qed.

Lemma exec_shrinking re prev s x :
  exec re prev s = Some x → length x ≤ length s.
Proof.
  unfold exec. apply rmatch_shrinking. by intros q s' y [= <-].
Qed.

Lemma starLoop_accepting m greedy k fuel prev s :
  accepting k → is_Some (starLoop m greedy k fuel prev s).
Proof.
  intros Hk. destruct fuel as [|fuel]; cbn [starLoop]; [apply Hk|].
  destruct (Hk prev s) as [y Hy]. unfold orElse.
  destruct greedy; [|by rewrite Hy].
  destruct (m prev s _); [done|]. by rewrite Hy.
Qed.

(** *** Patterns of the form [[class]+] *)

Lemma exec_plus_class fl p prev c t :
  classMatches fl p c = true →
  ∃ rest, exec (RE (Plus (Class p)) fl) prev (c :: t) = Some rest
    ∧ length rest ≤ length t.
Proof.
  intros Hc. unfold exec, RE, Plus. cbn [source reFlags rmatch].
  rewrite Hc.
  destruct (starLoop_accepting (rmatch fl (Class p)) true
              (fun _ s' => Some s') (S (length t)) (Some c) t) as [rest Hrest].
  { by intros q s'. }
  exists rest. split; [done|].
  eapply starLoop_shrinking; [| |exact Hrest].
  - intros q s' k' x. apply rmatch_shrinking.
  - by intros q s' y [= <-].
Qed.

Lemma exec_plus_class_none fl p prev c t :
  classMatches fl p c = false →
  exec (RE (Plus (Class p)) fl) prev (c :: t) = None.
Proof.
  intros Hc. unfold exec, RE, Plus. cbn [source reFlags rmatch].
  by rewrite Hc.
Qed.

Lemma exec_plus_class_nil fl p prev :
  exec (RE (Plus (Class p)) fl) prev [] = None.
Proof. reflexivity. Qed.

(** Replacing the runs of a class leaves none of its code units, unless
    the replacement brings them. *)
Lemma elem_of_replace_plus_class fl p rep x s :
  ∀ prev skip,
    x ∈ Str.replaceFrom (RE (Plus (Class p)) fl) rep prev s skip →
    x ∈ rep ∨ (x ∈ s ∧ classMatches fl p x = false).
Proof.
  induction s as [|c s IH]; intros prev skip; cbn [Str.replaceFrom].
  - rewrite exec_plus_class_nil. destruct skip; by intros ?%elem_of_nil.
  - destruct skip as [|n].
    + destruct (classMatches fl p c) eqn:Hc.
      * destruct (exec_plus_class fl p prev c s Hc) as (rest & -> & Hlen).
        replace (length (c :: s) - length rest)
          with (S (length s - length rest)) by (simpl; lia).
        intros [?|H]%elem_of_app; [by left|].
        apply IH in H as [?|[? ?]]; [by left|right]. split; [by right|done].
      * rewrite (exec_plus_class_none fl p prev c s Hc).
        intros [->|H]%elem_of_cons; [right; split; [left|done]|].
        apply IH in H as [?|[? ?]]; [by left|right]. split; [by right|done].
    + intros H. apply IH in H as [?|[? ?]]; [by left|right].
      split; [by right|done].
Qed.

Lemma elem_of_rev {A} (x : A) (l : list A) : x ∈ rev l ↔ x ∈ l.
Proof.
  replace (rev l) with (reverse l) by (unfold reverse; by rewrite <- rev_alt).
  apply elem_of_reverse.
Qed.

(** The pieces of a split at the runs of a class hold none of its code
    units. *)
Lemma elem_of_split_plus_class fl p x s :
  ∀ prev cur skip piece,
    piece ∈ Str.splitFrom (RE (Plus (Class p)) fl) prev s cur skip →
    x ∈ piece →
    (x ∈ cur ∨ x ∈ s) ∧ (x ∈ cur ∨ classMatches fl p x = false).
Proof.
  induction s as [|c s IH]; intros prev cur skip piece; cbn [Str.splitFrom].
  - intros ->%list_elem_of_singleton Hx. rewrite elem_of_rev in Hx.
    split; by left.
  - destruct skip as [|n].
    + destruct (classMatches fl p c) eqn:Hc.
      * destruct (exec_plus_class fl p prev c s Hc) as (rest & -> & Hlen).
        replace (length (c :: s) - length rest)
          with (S (length s - length rest)) by (simpl; lia).
        intros [->|H]%elem_of_cons Hx.
        -- rewrite elem_of_rev in Hx. split; by left.
        -- destruct (IH _ _ _ _ H Hx) as [[?%elem_of_nil|?] [?%elem_of_nil|?]];
             try done. split; [right; by right|by right].
      * rewrite (exec_plus_class_none fl p prev c s Hc). intros H Hx.
        destruct (IH _ _ _ _ H Hx) as [H1 H2].
        rewrite !elem_of_cons in H1, H2. rewrite elem_of_cons.
        split.
        -- destruct H1 as [[->|?]|?]; auto.
        -- destruct H2 as [[->|?]|?]; auto.
    + intros H Hx.
      destruct (IH _ _ _ _ H Hx) as [[?%elem_of_nil|?] [?%elem_of_nil|?]];
        try done. split; [right; by right|by right].
Qed.

Lemma split_plus_class_pieces fl p s piece x :
  piece ∈ Str.split (RE (Plus (Class p)) fl) s → x ∈ piece →
  x ∈ s ∧ classMatches fl p x = false.
Proof.
  unfold Str.split. destruct s as [|c s].
  - rewrite exec_plus_class_nil. intros ->%list_elem_of_singleton.
    by intros ?%elem_of_nil.
  - intros H Hx.
    destruct (elem_of_split_plus_class fl p x (c :: s) _ _ _ _ H Hx)
      as [[?%elem_of_nil|?] [?%elem_of_nil|?]]; done.
Qed.

Lemma split_nonempty re s : Str.split re s = [] → s = [].
Proof.
  unfold Str.split. destruct s as [|c s]; [done|].
  assert (∀ s prev cur skip, Str.splitFrom re prev s cur skip ≠ []) as Hne.
  { clear. induction s as [|c s IH]; intros prev cur skip; simpl; [done|].
    destruct skip; [|apply IH].
    destruct (exec re prev (c :: s)); [|apply IH].
    destruct (_ - _), cur; try done. }
  intros H. by apply Hne in H.
Qed.
End Engine.

(** ** Extractors of the report *)

Section Extractors.
Implicit Types (content : text) (t : PsychologicalTrigger).

Lemma foldl_countSentence sentences :
  ∀ m, foldl Analyzer.countSentence m sentences
       = foldl countPhrase m
           (base.filter (fun p => isCountedSentence p = true)
              (map (fun sentence => Str.trim (Str.toLowerCase sentence))
                 sentences)).
Proof.
  induction sentences as [|s sentences IH]; intros m; [done|].
  cbn [foldl map]. rewrite IH, filter_cons. unfold Analyzer.countSentence.
  fold (isCountedSentence (Str.trim (Str.toLowerCase s))).
  destruct (isCountedSentence _) eqn:Hc.
  - by rewrite decide_True.
  - by rewrite decide_False.
Qed.

Lemma toLowerChar_sentenceEnd a :
  isSentenceEnd (toLowerChar a) = isSentenceEnd a.
Proof. destruct a as [[] [] [] [] [] [] [] []]; vm_compute; auto. Qed.

Lemma elem_of_trimStart x s : x ∈ Str.trimStart s → x ∈ s.
Proof.
  destruct (trimStart_suffix s) as [w Hw]. intros Hx. rewrite Hw.
  apply elem_of_app. by right.
Qed.

Lemma elem_of_trim x s : x ∈ Str.trim s → x ∈ s.
Proof.
  unfold Str.trim. intros Hx. apply elem_of_trimStart.
  destruct (trimEnd_prefix (Str.trimStart s)) as [w Hw]. rewrite Hw.
  apply elem_of_app. by left.
Qed.

Lemma setFromArray_length l : length (setFromArray l) ≤ length l.
Proof.
  apply submseteq_length, NoDup_submseteq; [apply NoDup_setFromArray|].
  intros x. by rewrite elem_of_setFromArray.
Qed.

Lemma setFromArray_nonempty l : 0 < length l → 0 < length (setFromArray l).
Proof.
  destruct l as [|x l]; simpl; [lia|]. intros _.
  assert (x ∈ setFromArray (x :: l)) as Hx
    by (apply elem_of_setFromArray; left).
  destruct (setFromArray (x :: l)); [by apply elem_of_nil in Hx|simpl; lia].
Qed.
End Extractors.

(** X2. Both extractors emit at most one trigger per category, in the order
    of their tables; a trigger is emitted with a positive frequency, the
    assembler's with [min 3 frequency] examples, the script's with at
    least one and at most [min 3 frequency] examples. *)
Theorem triggers_in_table_order (content : text) :
  type <$> Analyzer.analyzePsychologicalTriggers content
    `sublist_of` analyzerCategories.*1
  ∧ type <$> Script.triggersOfContent content `sublist_of` scriptCategories.*1
  ∧ Forall (fun t => 0 < frequency t
                     ∧ length (examples t) = frequency t `min` 3)
      (Analyzer.analyzePsychologicalTriggers content)
  ∧ Forall (fun t => 0 < length (examples t) ≤ frequency t `min` 3)
      (Script.triggersOfContent content).
Proof.
  split_and!.
  - unfold Analyzer.analyzePsychologicalTriggers, Analyzer.fomoTrigger,
      Analyzer.socialTrigger, Analyzer.authorityTrigger,
      Analyzer.reciprocityTrigger.
    do 4 (destruct (0 <? _)); simpl;
      repeat first [apply sublist_nil | apply sublist_skip
                   | apply sublist_cons]; apply sublist_nil_l.
  - unfold Script.triggersOfContent, Script.triggerOf.
    do 4 (destruct (0 <? _)); simpl;
      repeat first [apply sublist_nil | apply sublist_skip
                   | apply sublist_cons]; apply sublist_nil_l.
  - apply Forall_forall. intros t Ht.
    apply analyzer_trigger_inv in Ht as (label & re & _ & Hpos & _ & -> & -> & _).
    rewrite length_take. lia.
  - apply Forall_forall. intros t Ht.
    apply script_trigger_inv in Ht as (label & re & _ & Hpos & _ & -> & -> & _).
    rewrite length_take.
    pose proof (setFromArray_length (Str.match_ re content)).
    pose proof (setFromArray_nonempty (Str.match_ re content)). lia.
Qed.

(** X3. The common phrases of the assembler's extractor: at most 5, pairwise
    distinct, each one a trimmed lower-cased sentence of the text of a
    length strictly between 10 and 100 and without [.], [!] or [?]; every
    such sentence is a key of the phrase map with the number of its
    occurrences, and no phrase left out occurs more often than a listed
    one. There is no fixed fallback: without such a sentence the list is
    empty. *)
Theorem analyzer_commonPhrases (content : text) :
  let phraseMap :=
    foldl Analyzer.countSentence [] (Str.split reSentenceEnd content) in
  let phrases := commonPhrases (Analyzer.analyzeLanguagePatterns content) in
  phrases = topPhrases phraseMap
  ∧ length phrases = length (setFromArray (countedSentences content)) `min` 5
  ∧ NoDup phrases
  ∧ (∀ p, p ∈ phrases →
       10 < length p < 100
       ∧ (∃ sentence, sentence ∈ Str.split reSentenceEnd content
            ∧ p = Str.trim (Str.toLowerCase sentence))
       ∧ ∀ c, c ∈ p → isSentenceEnd c = false)
  ∧ (∀ p n, (p, n) ∈ phraseMap ↔
       p ∈ countedSentences content
       ∧ n = countOf p (countedSentences content))
  ∧ (∀ p q, p ∈ phrases → q ∈ countedSentences content → q ∉ phrases →
       countOf q (countedSentences content)
       ≤ countOf p (countedSentences content)).
Proof.
  cbv zeta. cbn [Analyzer.analyzeLanguagePatterns commonPhrases].
  set (m := foldl Analyzer.countSentence [] (Str.split reSentenceEnd content)).
  assert (m = foldl countPhrase [] (countedSentences content)) as Hm
    by apply foldl_countSentence.
  assert (m.*1 = setFromArray (countedSentences content)) as Hkeys
    by (by rewrite Hm, keys_foldl_countPhrase).
  assert (NoDup m.*1) as Hnd by (rewrite Hkeys; apply NoDup_setFromArray).
  assert (∀ p n, (p, n) ∈ m ↔
            p ∈ countedSentences content
            ∧ n = countOf p (countedSentences content)) as Hentries.
  { intros p n. rewrite elem_of_mapGet by done.
    pose proof (getCount_foldl_countPhrase p (countedSentences content) [])
      as Hcount.
    rewrite <- Hm in Hcount. unfold getCount in Hcount. simpl in Hcount.
    rewrite <- elem_of_setFromArray, <- Hkeys.
    destruct (mapGet p m) as [n'|] eqn:Hget.
    - simpl in Hcount. split.
      + intros [= <-]. split; [|done].
        apply dec_stable. intros Hnot. apply mapGet_None in Hnot. congruence.
      + intros [_ ->]. by rewrite Hcount.
    - split; [done|]. intros [Hin _]. by apply mapGet_None in Hget. }
  assert (∀ p, p ∈ topPhrases m → p ∈ countedSentences content) as Hin.
  { intros p Hp. unfold topPhrases in Hp.
    apply list_elem_of_fmap in Hp as ([p' n] & -> & Hp).
    apply elem_of_take in Hp as (i & Hi & _).
    apply list_elem_of_lookup_2 in Hi.
    rewrite (sortByCountDesc_Permutation m) in Hi.
    by apply Hentries in Hi as [? _]. }
  split_and!.
  - done.
  - rewrite topPhrases_length, <- Hkeys, length_fmap. done.
  - unfold topPhrases. rewrite fmap_take.
    eapply sublist_NoDup; [|apply sublist_take].
    by rewrite (sortByCountDesc_Permutation m).
  - intros p Hp. apply Hin in Hp. unfold countedSentences in Hp.
    apply list_elem_of_filter in Hp as [Hlen Hp]. unfold isCountedSentence in Hlen.
    apply andb_true_iff in Hlen as [H1%Nat.ltb_lt H2%Nat.ltb_lt].
    apply list_elem_of_fmap in Hp as (sentence & -> & Hs).
    split_and!; [done|done|by eauto|].
    intros c Hc%elem_of_trim. unfold Str.toLowerCase in Hc.
    apply list_elem_of_fmap in Hc as (c' & -> & Hc').
    rewrite toLowerChar_sentenceEnd.
    by destruct (split_plus_class_pieces _ _ _ _ _ Hs Hc') as [_ ?].
  - done.
  - intros p q Hp Hq Hnq.
    pose proof (sortByCountDesc_sorted m) as Hsorted.
    pose proof (sortByCountDesc_Permutation m) as Hperm.
    assert ((q, countOf q (countedSentences content)) ∈ sortByCountDesc m)
      as Hqm by (rewrite Hperm; by apply Hentries).
    unfold topPhrases in Hp, Hnq.
    apply list_elem_of_fmap in Hp as ([p' n] & -> & Hp). simpl.
    assert ((p', n) ∈ sortByCountDesc m) as Hpm.
    { apply elem_of_take in Hp as (i & Hi & _).
      by apply list_elem_of_lookup_2 in Hi. }
    rewrite Hperm in Hpm. apply Hentries in Hpm as [_ <-].
    rewrite <- (take_drop 5 (sortByCountDesc m)) in Hqm, Hsorted.
    apply elem_of_app in Hqm as [Hqm|Hqm].
    { exfalso. apply Hnq. apply list_elem_of_fmap.
      by exists (q, countOf q (countedSentences content)). }
    apply (StronglySorted_app_1_elem_of _ _ _ _ _ Hsorted Hp Hqm).
Qed.

Section Includes.
Implicit Types (s w pre post : text).

Lemma isPrefix_spec w s : Str.isPrefix w s = true ↔ ∃ post, s = w ++ post.
Proof.
  revert s. induction w as [|a w IH]; intros s; simpl.
  - split; [eauto|done].
  - destruct s as [|b s].
    + split; [done|]. by intros [post ?].
    + rewrite andb_true_iff, bool_decide_eq_true, IH. split.
      * intros [-> [post ->]]. eauto.
      * intros [post [= -> ->]]. eauto.
Qed.

(** [includes] holds exactly of the substrings. *)
Lemma includes_spec s w :
  Str.includes s w = true ↔ ∃ pre post, s = pre ++ w ++ post.
Proof.
  induction s as [|b s IH]; cbn [Str.includes]; rewrite orb_true_iff, isPrefix_spec.
  - split.
    + intros [[post H]|?]; [|done]. exists [], post. done.
    + intros (pre & post & H). left. destruct pre; [by exists post|done].
  - rewrite IH. split.
    + intros [[post H]|(pre & post & ->)]; [by exists [], post|].
      by exists (b :: pre), post.
    + intros (pre & post & H). destruct pre as [|c pre].
      * left. by exists post.
      * right. injection H as -> ->. eauto.
Qed.
End Includes.

(** X4. A power word is reported exactly when it is on the extractor's list
    and occurs somewhere in the lower-cased text, also inside a longer
    word; the words are reported in the order of the list. The script
    reports at most 7: a listed word that occurs is left out only when 7
    words before it on the list were found. *)
Theorem power_words_found (content : text) (ps : list Post) :
  powerWords (Analyzer.analyzeLanguagePatterns content)
    `sublist_of` Analyzer.powerWordList
  ∧ (∀ w, w ∈ powerWords (Analyzer.analyzeLanguagePatterns content) ↔
       w ∈ Analyzer.powerWordList
       ∧ ∃ pre post, Str.toLowerCase content = pre ++ w ++ post)
  ∧ powerWords (Script.analyzeLanguagePatterns ps)
      `sublist_of` Script.powerWordsList
  ∧ length (powerWords (Script.analyzeLanguagePatterns ps)) ≤ 7
  ∧ (∀ w, w ∈ powerWords (Script.analyzeLanguagePatterns ps) →
       ∃ pre post,
         Str.toLowerCase (Script.allContentOf ps) = pre ++ w ++ post)
  ∧ (∀ w pre post, w ∈ Script.powerWordsList →
       Str.toLowerCase (Script.allContentOf ps) = pre ++ w ++ post →
       w ∈ powerWords (Script.analyzeLanguagePatterns ps)
       ∨ length (powerWords (Script.analyzeLanguagePatterns ps)) = 7).
Proof.
  cbn [Analyzer.analyzeLanguagePatterns Script.analyzeLanguagePatterns
       powerWords].
  split_and!.
  - apply sublist_filter.
  - intros w. rewrite list_elem_of_filter, includes_spec. tauto.
  - etrans; [apply sublist_take|apply sublist_filter].
  - rewrite length_take. lia.
  - intros w Hw. apply elem_of_take in Hw as (i & Hi & _).
    apply list_elem_of_lookup_2, list_elem_of_filter in Hi as [Hi _].
    by apply includes_spec.
  - intros w pre post Hw Hc.
    assert (w ∈ base.filter
              (fun word => Str.includes
                 (Str.toLowerCase (Script.allContentOf ps)) word = true)
              Script.powerWordsList) as Hin.
    { apply list_elem_of_filter. split; [|done]. apply includes_spec. eauto. }
    apply list_elem_of_lookup_1 in Hin as [i Hi].
    destruct (decide (i < 7)) as [Hlt|Hge].
    + left. apply list_elem_of_lookup_2 with i. by rewrite lookup_take_lt.
    + right. rewrite length_take. apply lookup_lt_Some in Hi. lia.
Qed.

(** ** Numbers of the emotional tone *)

Section Binary64.
Local Open Scope Z_scope.

Lemma digits2_pos_size p : digits2_pos p = Pos.size p.
Proof. induction p; simpl; congruence. Qed.

Lemma digits_bounds p :
  2 ^ (Z.pos (digits2_pos p) - 1) <= Z.pos p < 2 ^ Z.pos (digits2_pos p).
Proof.
  rewrite digits2_pos_size. split.
  - pose proof (Pos.size_le p) as H.
    assert (Z.pos (2 ^ Pos.size p) <= Z.pos p~0) as H' by exact H.
    rewrite Pos2Z.inj_pow in H'.
    replace (Z.pos (Pos.size p)) with (Z.succ (Z.pos (Pos.size p) - 1)) in H' by lia.
    rewrite Z.pow_succ_r in H' by lia. lia.
  - pose proof (Pos.size_gt p) as H.
    assert (Z.pos p < Z.pos (2 ^ Pos.size p)) as H' by exact H.
    by rewrite Pos2Z.inj_pow in H'.
Qed.

(* digits determined by bounds *)
Lemma digits_unique p d :
  2 ^ (d - 1) <= Z.pos p < 2 ^ d -> 0 < d -> Z.pos (digits2_pos p) = d.
Proof.
  intros [Hlo Hhi] Hd. pose proof (digits_bounds p) as [Hlo' Hhi'].
  set (d' := Z.pos (digits2_pos p)) in *.
  destruct (Z.lt_trichotomy d' d) as [Hlt|[Heq|Hgt]]; [|done|].
  - exfalso. assert (2 ^ d' <= 2 ^ (d - 1)) by (apply Z.pow_le_mono_r; lia). lia.
  - exfalso. assert (2 ^ d <= 2 ^ (d' - 1)) by (apply Z.pow_le_mono_r; lia). lia.
Qed.

Lemma shr_1_m mrs : 0 <= shr_m mrs -> shr_m (shr_1 mrs) = shr_m mrs / 2.
Proof.
  destruct mrs as [m r s]. simpl. intros Hm.
  destruct m as [|p|p]; [done| |lia].
  destruct p as [p|p|]; simpl.
  - rewrite Pos2Z.inj_xI. apply Z.div_unique with 1; lia.
  - rewrite Pos2Z.inj_xO. apply Z.div_unique with 0; lia.
  - done.
Qed.

Lemma shr_1_nonneg mrs : 0 <= shr_m mrs -> 0 <= shr_m (shr_1 mrs).
Proof. intros H. rewrite shr_1_m by done. apply Z.div_pos; lia. Qed.

Lemma iter_shr_m p : forall mrs,
  0 <= shr_m mrs ->
  shr_m (SpecFloat.iter_pos shr_1 p mrs) = shr_m mrs / 2 ^ Z.pos p.
Proof.
  induction p as [p IH|p IH|]; intros mrs Hm; simpl.
  - assert (0 <= shr_m (shr_1 mrs)) as H1 by by apply shr_1_nonneg.
    assert (0 <= shr_m (SpecFloat.iter_pos shr_1 p (shr_1 mrs))) as H2.
    { rewrite IH by done. apply Z.div_pos; [done|]. apply Z.pow_pos_nonneg; lia. }
    rewrite IH, IH, shr_1_m by done.
    rewrite !Z.div_div by (try apply Z.pow_pos_nonneg; lia).
    f_equal. rewrite (Pos2Z.inj_xI p).
    replace (2 * Z.pos p + 1) with (1 + Z.pos p + Z.pos p) by lia.
    rewrite !Z.pow_add_r by lia. change (2 ^ 1) with 2. lia.
  - assert (0 <= shr_m (SpecFloat.iter_pos shr_1 p mrs)) as H2.
    { rewrite IH by done. apply Z.div_pos; [done|]. apply Z.pow_pos_nonneg; lia. }
    rewrite IH, IH by done.
    rewrite !Z.div_div by (try apply Z.pow_pos_nonneg; lia).
    f_equal. rewrite (Pos2Z.inj_xO p).
    replace (2 * Z.pos p) with (Z.pos p + Z.pos p) by lia.
    rewrite !Z.pow_add_r by lia. lia.
  - rewrite shr_1_m by done. done.
Qed.

Lemma shr_record_of_loc_m m l : shr_m (shr_record_of_loc m l) = m.
Proof. by destruct l as [|[]]. Qed.

(* shr_fexp: the mantissa is divided by 2^n, n = max 0 (fexp (digits m + e) - e). *)
Lemma shr_fexp_spec prec emax m e l :
  0 <= m ->
  let n := Z.max 0 (fexp prec emax (Zdigits2 m + e) - e) in
  (shr_fexp prec emax m e l).2 = e + n
  /\ shr_m (shr_fexp prec emax m e l).1 = m / 2 ^ n.
Proof.
  intros Hm n. unfold shr_fexp, shr. subst n.
  destruct (fexp prec emax (Zdigits2 m + e) - e) as [|p|p] eqn:Hn; simpl.
  - rewrite shr_record_of_loc_m, Z.div_1_r. split; lia.
  - rewrite iter_shr_m by by rewrite shr_record_of_loc_m.
    rewrite shr_record_of_loc_m. split; [lia|done].
  - rewrite shr_record_of_loc_m, Z.div_1_r. split; lia.
Qed.

Lemma round_nearest_even_bounds m l :
  m <= round_nearest_even m l <= m + 1.
Proof.
  unfold round_nearest_even. destruct l as [|[]]; try lia.
  destruct (Z.even m); lia.
Qed.

Lemma fexp_normal e : -1074 <= e - 53 -> fexp 53 1024 e = e - 53.
Proof. intros H. unfold fexp, emin. lia. Qed.

Lemma pow2_pos n : 0 <= n -> 0 < 2 ^ n.
Proof. intros. apply Z.pow_pos_nonneg; lia. Qed.

(** Rounding a mantissa of at least 53 bits, away from underflow and
    overflow: the result is finite, its mantissa has 53 bits, its exponent
    is raised by [n], and the mantissa is within one unit of [m / 2 ^ n]. *)
Lemma binary_round_aux_normal sx p e l :
  let dg := Z.pos (digits2_pos p) in
  53 <= dg -> -1074 <= dg + e - 53 -> dg + e <= 1023 ->
  exists mf n,
    binary_round_aux 53 1024 sx (Z.pos p) e l = S754_finite sx mf (e + n)
    /\ dg - 53 <= n <= dg - 52
    /\ 2 ^ 52 <= Z.pos mf < 2 ^ 53
    /\ (Z.pos mf - 1) * 2 ^ n <= Z.pos p < (Z.pos mf + 1) * 2 ^ n.
Proof.
  intros dg Hdg Hlo Hhi. unfold binary_round_aux.
  pose proof (digits_bounds p) as [Hp1 Hp2]. fold dg in Hp1, Hp2.
  pose proof (shr_fexp_spec 53 1024 (Z.pos p) e l ltac:(lia)) as [He1 Hm1].
  destruct (shr_fexp 53 1024 (Z.pos p) e l) as [mrs' e'] eqn:H1.
  cbn [fst snd Zdigits2] in He1, Hm1. fold dg in He1, Hm1.
  rewrite fexp_normal in He1, Hm1 by lia.
  replace (Z.max 0 (dg + e - 53 - e)) with (dg - 53) in He1, Hm1 by lia.
  set (n0 := dg - 53) in *.
  set (m1 := shr_m mrs') in *.
  assert (0 < 2 ^ n0) as Hn0 by (apply pow2_pos; lia).
  assert (m1 * 2 ^ n0 <= Z.pos p < (m1 + 1) * 2 ^ n0) as Hm1b.
  { rewrite Hm1. pose proof (Z.div_mod (Z.pos p) (2 ^ n0) ltac:(lia)).
    pose proof (Z.mod_pos_bound (Z.pos p) (2 ^ n0) ltac:(lia)). lia. }
  assert (2 ^ 52 <= m1 < 2 ^ 53) as Hm1r.
  { assert (2 ^ dg = 2 ^ 53 * 2 ^ n0) as E1.
    { rewrite <- Z.pow_add_r by lia. f_equal. lia. }
    assert (2 ^ (dg - 1) = 2 ^ 52 * 2 ^ n0) as E2.
    { rewrite <- Z.pow_add_r by lia. f_equal. lia. }
    rewrite E1 in Hp2. rewrite E2 in Hp1. split.
    - apply Z.lt_succ_r. apply (Z.mul_lt_mono_pos_r (2 ^ n0)); [done|]. lia.
    - apply (Z.mul_lt_mono_pos_r (2 ^ n0)); [done|]. lia. }
  pose proof (round_nearest_even_bounds m1 (loc_of_shr_record mrs')) as Hr.
  set (m1r := round_nearest_even m1 (loc_of_shr_record mrs')) in *.
  pose proof (shr_fexp_spec 53 1024 m1r e' loc_Exact ltac:(lia)) as [He2 Hm2].
  destruct (shr_fexp 53 1024 m1r e' loc_Exact) as [mrs'' e''] eqn:H2.
  cbn [fst snd] in He2, Hm2.
  destruct m1r as [|q|q] eqn:Hq; [lia| |lia].
  cbn [Zdigits2] in He2, Hm2.
  destruct (decide (Z.pos q < 2 ^ 53)) as [Hsmall|Hbig].
  - assert (Z.pos (digits2_pos q) = 53) as Hdq
      by (apply digits_unique; [change (53 - 1) with 52|]; lia).
    rewrite Hdq in He2, Hm2. rewrite fexp_normal in He2, Hm2 by lia.
    replace (Z.max 0 (53 + e' - 53 - e')) with 0 in He2, Hm2 by lia.
    rewrite Z.div_1_r in Hm2. rewrite Hm2.
    replace (e'' <=? 1024 - 53) with true by (symmetry; apply Z.leb_le; lia).
    exists q, n0. split_and!; try lia.
    + f_equal. lia.
    + nia.
    + nia.
  - assert (Z.pos q = 2 ^ 53) as Hq53 by lia.
    assert (Z.pos (digits2_pos q) = 54) as Hdq.
    { apply digits_unique; [|lia]. rewrite Hq53. change (54 - 1) with 53.
      split; [lia|]. apply Z.pow_lt_mono_r; lia. }
    rewrite Hdq in He2, Hm2. rewrite fexp_normal in He2, Hm2 by lia.
    replace (Z.max 0 (54 + e' - 53 - e')) with 1 in He2, Hm2 by lia.
    rewrite Hq53 in Hm2. change (2 ^ 53 / 2 ^ 1) with (2 ^ 52) in Hm2.
    rewrite Hm2. change (2 ^ 52) with (Z.pos (2 ^ 52)%positive).
    replace (e'' <=? 1024 - 53) with true by (symmetry; apply Z.leb_le; lia).
    exists (2 ^ 52)%positive, (n0 + 1). split_and!; try lia.
    + f_equal. lia.
    + rewrite Z.pow_add_r by lia. change (2 ^ 1) with 2.
      change (Z.pos (2 ^ 52)) with (2 ^ 52).
      assert (m1 = 2 ^ 53 - 1) as -> by lia. nia.
    + rewrite Z.pow_add_r by lia. change (2 ^ 1) with 2.
      change (Z.pos (2 ^ 52)) with (2 ^ 52).
      assert (m1 = 2 ^ 53 - 1) as Hm1e by lia. rewrite Hm1e in Hm1b. nia.
Qed.

(** A mantissa of exactly 53 bits is kept as it is. *)
Lemma binary_round_aux_exact sx p e :
  Z.pos (digits2_pos p) = 53 -> -1074 <= e <= 971 ->
  binary_round_aux 53 1024 sx (Z.pos p) e loc_Exact = S754_finite sx p e.
Proof.
  intros Hd He. unfold binary_round_aux, shr_fexp, shr.
  cbn [Zdigits2 shr_record_of_loc]. rewrite Hd, fexp_normal by lia.
  replace (53 + e - 53 - e) with 0 by lia.
  cbn [shr_m loc_of_shr_record round_nearest_even Zdigits2
       shr_record_of_loc].
  rewrite Hd, fexp_normal by lia.
  replace (53 + e - 53 - e) with 0 by lia. cbn [shr_m].
  replace (e <=? 1024 - 53) with true by (symmetry; apply Z.leb_le; lia).
  done.
Qed.

Lemma iter_xO p d :
  Z.pos (Pos.iter xO p d) = Z.pos p * 2 ^ Z.pos d.
Proof.
  induction d as [|d IH] using Pos.peano_ind.
  - simpl. lia.
  - rewrite Pos.iter_succ, Pos2Z.inj_xO, IH, Pos2Z.inj_succ.
    rewrite Z.pow_succ_r by lia. lia.
Qed.

(** An integer below [2 ^ 53] is a number: its mantissa is the integer
    shifted to 53 bits. *)
Lemma toNumber_pos a :
  Z.pos a < 2 ^ 53 ->
  exists ma sa,
    binary_normalize 53 1024 (Z.pos a) 0 false = S754_finite false ma (- sa)
    /\ 0 <= sa <= 52
    /\ Z.pos (digits2_pos ma) = 53
    /\ Z.pos ma = Z.pos a * 2 ^ sa.
Proof.
  intros Ha. cbn [binary_normalize]. unfold binary_round, shl_align.
  pose proof (digits_bounds a) as [Hlo Hhi].
  set (da := Z.pos (digits2_pos a)) in *.
  assert (1 <= da <= 53) as Hda.
  { split; [lia|]. destruct (decide (da <= 53)); [done|exfalso].
    assert (2 ^ 53 <= 2 ^ (da - 1)) by (apply Z.pow_le_mono_r; lia). lia. }
  rewrite Z.add_0_r, fexp_normal by lia.
  destruct (da - 53 - 0) as [|d|d] eqn:Hd; [|lia|].
  - assert (da = 53) as Hda53 by lia.
    rewrite (binary_round_aux_exact false a 0) by (fold da; lia).
    exists a, 0. split_and!; [done|lia|lia|done|lia].
  - assert (Z.pos (digits2_pos (Pos.iter xO a d)) = 53) as Hdig.
    { apply digits_unique; [|lia]. rewrite iter_xO.
      assert (2 ^ 53 = 2 ^ da * 2 ^ Z.pos d) as ->.
      { rewrite <- Z.pow_add_r by lia. f_equal. lia. }
      assert (2 ^ (53 - 1) = 2 ^ (da - 1) * 2 ^ Z.pos d) as ->.
      { rewrite <- Z.pow_add_r by lia. f_equal. lia. }
      assert (0 < 2 ^ Z.pos d) by (apply pow2_pos; lia). nia. }
    rewrite binary_round_aux_exact by (done || lia).
    exists (Pos.iter xO a d), (Z.pos d).
    split_and!; [f_equal; lia|lia|lia|done|apply iter_xO].
Qed.

Lemma digits_range p d :
  Z.pos (digits2_pos p) = d -> 2 ^ (d - 1) <= Z.pos p < 2 ^ d.
Proof. intros <-. apply digits_bounds. Qed.

Lemma digits_between p lo hi :
  2 ^ lo <= Z.pos p < 2 ^ hi -> 0 <= lo ->
  lo + 1 <= Z.pos (digits2_pos p) <= hi.
Proof.
  intros [H1 H2] Hlo. pose proof (digits_bounds p) as [H3 H4].
  set (d := Z.pos (digits2_pos p)) in *. split.
  - destruct (decide (lo + 1 <= d)); [done|exfalso].
    assert (2 ^ d <= 2 ^ lo) by (apply Z.pow_le_mono_r; lia). lia.
  - destruct (decide (d <= hi)); [done|exfalso].
    assert (2 ^ hi <= 2 ^ (d - 1)) by (apply Z.pow_le_mono_r; lia). lia.
Qed.

(** The quotient of two numbers with 53-bit mantissas and small
    exponents. *)
Lemma SFdiv_normal ma sa md sd :
  Z.pos (digits2_pos ma) = 53 -> Z.pos (digits2_pos md) = 53 ->
  0 <= sa <= 52 -> 0 <= sd <= 52 ->
  exists mf n,
    SFdiv 53 1024 (S754_finite false ma (- sa)) (S754_finite false md (- sd))
      = S754_finite false mf (sd - sa - 53 + n)
    /\ 0 <= n <= 2
    /\ 2 ^ 52 <= Z.pos mf < 2 ^ 53
    /\ (Z.pos mf - 1) * 2 ^ n * Z.pos md <= Z.pos ma * 2 ^ 53
       < (Z.pos mf + 1) * 2 ^ n * Z.pos md.
Proof.
  intros Hda Hdd Hsa Hsd.
  pose proof (digits_range _ _ Hda) as Hma.
  pose proof (digits_range _ _ Hdd) as Hmd.
  change (53 - 1) with 52 in Hma, Hmd.
  unfold SFdiv, SFdiv_core_binary. cbn [xorb Zdigits2]. rewrite Hda, Hdd.
  rewrite fexp_normal by lia.
  replace (Z.min (53 + - sa - (53 + - sd) - 53) (- sa - - sd))
    with (sd - sa - 53) by lia.
  replace (- sa - - sd - (sd - sa - 53)) with 53 by lia.
  rewrite Z.shiftl_mul_pow2 by lia.
  pose proof (Z_div_mod (Z.pos ma * 2 ^ 53) (Z.pos md) ltac:(lia)) as Hdiv.
  destruct (Z.div_eucl (Z.pos ma * 2 ^ 53) (Z.pos md)) as [q r].
  destruct Hdiv as [Hq Hr].
  assert (2 ^ 52 <= q < 2 ^ 54) as Hqr.
  { split.
    - apply Z.lt_succ_r. apply (Z.mul_lt_mono_pos_l (Z.pos md)); [lia|].
      assert (2 ^ 52 * 2 ^ 53 <= Z.pos ma * 2 ^ 53) by lia.
      assert (Z.pos md * 2 ^ 52 < 2 ^ 53 * 2 ^ 52) by lia. lia.
    - apply (Z.mul_lt_mono_pos_l (Z.pos md)); [lia|].
      assert (Z.pos ma * 2 ^ 53 < 2 ^ 53 * 2 ^ 53) by lia.
      assert (2 ^ 52 * 2 ^ 54 <= Z.pos md * 2 ^ 54) by lia.
      change (2 ^ 52 * 2 ^ 54) with (2 ^ 53 * 2 ^ 53) in *. lia. }
  destruct q as [|pq|pq]; [lia| |lia].
  pose proof (digits_between pq 52 54 ltac:(lia) ltac:(lia)) as Hdq.
  destruct (binary_round_aux_normal false pq (sd - sa - 53)
              (new_location (Z.pos md) r)) as (mf & n & -> & Hn & Hmf & Hb);
    [lia..|].
  exists mf, n. split_and!; [done|lia|lia|lia|lia| |].
  - assert (0 < 2 ^ n) by (apply pow2_pos; lia). nia.
  - assert (0 < 2 ^ n) by (apply pow2_pos; lia).
    assert (Z.pos pq + 1 <= (Z.pos mf + 1) * 2 ^ n) by lia. nia.
Qed.

(** The product of two numbers with 53-bit mantissas and small
    exponents. *)
Lemma SFmul_normal mx ex my ey :
  Z.pos (digits2_pos mx) = 53 -> Z.pos (digits2_pos my) = 53 ->
  -400 <= ex + ey <= 400 ->
  exists mf n,
    SFmul 53 1024 (S754_finite false mx ex) (S754_finite false my ey)
      = S754_finite false mf (ex + ey + n)
    /\ 52 <= n <= 54
    /\ 2 ^ 52 <= Z.pos mf < 2 ^ 53
    /\ (Z.pos mf - 1) * 2 ^ n <= Z.pos mx * Z.pos my < (Z.pos mf + 1) * 2 ^ n.
Proof.
  intros Hdx Hdy He.
  pose proof (digits_range _ _ Hdx) as Hmx.
  pose proof (digits_range _ _ Hdy) as Hmy.
  change (53 - 1) with 52 in Hmx, Hmy.
  unfold SFmul. cbn [xorb].
  assert (2 ^ 104 <= Z.pos (mx * my) < 2 ^ 106) as Hprod.
  { rewrite Pos2Z.inj_mul.
    change (2 ^ 104) with (2 ^ 52 * 2 ^ 52).
    change (2 ^ 106) with (2 ^ 53 * 2 ^ 53). split.
    - apply Z.mul_le_mono_nonneg; lia.
    - apply Z.mul_lt_mono_nonneg; lia. }
  pose proof (digits_between (mx * my) 104 106 Hprod ltac:(lia)) as Hd.
  destruct (binary_round_aux_normal false (mx * my) (ex + ey) loc_Exact)
    as (mf & n & -> & Hn & Hmf & Hb); [lia..|].
  exists mf, n. rewrite Pos2Z.inj_mul in Hb.
  split_and!; [done|lia..].
Qed.

(** [Math.round] of a non-negative number [m * 2 ^ e], with the power of
    two given as a fraction [g / w]: the result is within one half. *)
Lemma mathRound_bounds m e g w :
  0 < g -> 0 < w -> (if 0 <=? e then g = 2 ^ e * w else 2 ^ (- e) * g = w) ->
  w * (2 * mathRound (S754_finite false m e) - 1) <= 2 * (Z.pos m * g)
    < w * (2 * mathRound (S754_finite false m e) + 1).
Proof.
  intros Hg Hw He. cbn [mathRound]. destruct (Z.leb_spec 0 e) as [Hpos|Hneg].
  - subst g. nia.
  - assert (0 < 2 ^ (- e)) as Hk by (apply pow2_pos; lia).
    set (k := 2 ^ (- e)) in *.
    pose proof (Z.div_mod (2 * Z.pos m + k) (2 * k) ltac:(lia)) as Hdiv.
    pose proof (Z.mod_pos_bound (2 * Z.pos m + k) (2 * k) ltac:(lia)) as Hmod.
    set (R := (2 * Z.pos m + k) / (2 * k)) in *.
    set (r := (2 * Z.pos m + k) mod (2 * k)) in *.
    subst w. split.
    + assert (k * (2 * R - 1) <= 2 * Z.pos m) as H by lia.
      apply (Z.mul_le_mono_nonneg_r _ _ g) in H; lia.
    + assert (2 * Z.pos m < k * (2 * R + 1)) as H by lia.
      apply (Z.mul_lt_mono_pos_r g) in H; lia.
Qed.

(** The arithmetic behind the bound: a quotient and a product, each within
    one unit in the last of 53 bits, then a rounding to the nearest
    integer, stay within 5/8 of the exact percentage. *)
Lemma percent_arith A D Sa G P2 F Y R :
  0 < A <= D -> 0 < Sa -> 0 < G -> 0 < P2 <= 2 ^ 54 -> 2 ^ 52 <= F -> 0 < Y ->
  (F - 1) * G * D <= A * Sa * 2 ^ 53 < (F + 1) * G * D ->
  (Y - 1) * P2 <= F * (100 * 2 ^ 46) < (Y + 1) * P2 ->
  Sa * 2 ^ 99 * (2 * R - 1) <= 2 * (Y * (G * P2))
    < Sa * 2 ^ 99 * (2 * R + 1) ->
  -5 * D <= 8 * D * R - 800 * A <= 5 * D.
Proof.
  intros HA HSa HG HP2 HF HY [Hd1 Hd2] [Hm1 Hm2] [Hr1 Hr2].
  assert (G <= 4 * Sa) as HGS.
  { assert ((F - 1) * G * D <= D * (Sa * 2 ^ 53)) as H1 by nia.
    assert ((F - 1) * G <= Sa * 2 ^ 53) as H2.
    { apply (Z.mul_le_mono_pos_l _ _ D); [lia|]. lia. }
    assert (2 ^ 51 * G <= (F - 1) * G) as H3
      by (apply Z.mul_le_mono_nonneg_r; lia).
    change (2 ^ 53) with (2 ^ 51 * 4) in H2. lia. }
  assert (G * D * (2 * (100 * 2 ^ 46) + 2 * P2) <= Sa * D * 2 ^ 58) as Hsmall.
  { assert (2 * (100 * 2 ^ 46) + 2 * P2 <= 2 ^ 56) as H1 by lia.
    assert (G * D <= 4 * Sa * D) as H2
      by (apply Z.mul_le_mono_nonneg_r; lia).
    assert (G * D * (2 * (100 * 2 ^ 46) + 2 * P2) <= 4 * Sa * D * 2 ^ 56) as H3
      by (apply Z.mul_le_mono_nonneg; nia).
    change (2 ^ 58) with (4 * 2 ^ 56). lia. }
  set (c := 100 * 2 ^ 46) in *.
  assert (0 < G * D) as HGD by nia.
  split.
  - (* lower bound *)
    assert (Sa * 2 ^ 99 * (2 * R + 1) * D > 2 * (Y * (G * P2)) * D) as H1 by nia.
    assert (Y * P2 > F * c - P2) as H2 by lia.
    assert (2 * (Y * (G * P2)) * D = 2 * (Y * P2) * (G * D)) as H3 by ring.
    assert (2 * (Y * P2) * (G * D) > 2 * (F * c - P2) * (G * D)) as H4 by nia.
    assert (F * G * D > A * Sa * 2 ^ 53 - G * D) as H5 by lia.
    assert (2 * (F * c - P2) * (G * D)
            = 2 * c * (F * G * D) - 2 * P2 * (G * D)) as H6 by ring.
    assert (2 * c * (F * G * D) >= 2 * c * (A * Sa * 2 ^ 53 - G * D)) as H7.
    { apply Z.le_ge. apply Z.mul_le_mono_nonneg_l; [unfold c; lia|lia]. }
    assert (2 * c * (A * Sa * 2 ^ 53) = 200 * 2 ^ 99 * (A * Sa)) as H8.
    { unfold c. ring_simplify. change (2 ^ 99) with (2 ^ 46 * 2 ^ 53). ring. }
    assert (Sa * 2 ^ 99 * (2 * R + 1) * D
            > 200 * 2 ^ 99 * (A * Sa) - Sa * D * 2 ^ 58) as H9 by lia.
    assert (Sa * (2 ^ 41 * ((2 * R + 1) * D - 200 * A) + D) > Sa * 0) as H10.
    { change (2 ^ 99) with (2 ^ 58 * 2 ^ 41) in H9. nia. }
    assert (2 ^ 41 * ((2 * R + 1) * D - 200 * A) + D > 0) as H11.
    { apply Z.lt_gt. apply (Z.mul_lt_mono_pos_l Sa); lia. }
    destruct (Z.le_gt_cases 0 ((2 * R + 1) * D - 200 * A)); [lia|].
    assert (2 ^ 41 * ((2 * R + 1) * D - 200 * A)
            <= 4 * ((2 * R + 1) * D - 200 * A)) by nia.
    lia.
  - (* upper bound *)
    assert (Sa * 2 ^ 99 * (2 * R - 1) * D <= 2 * (Y * (G * P2)) * D) as H1 by nia.
    assert (Y * P2 <= F * c + P2) as H2 by lia.
    assert (2 * (Y * (G * P2)) * D = 2 * (Y * P2) * (G * D)) as H3 by ring.
    assert (2 * (Y * P2) * (G * D) <= 2 * (F * c + P2) * (G * D)) as H4 by nia.
    assert (F * G * D <= A * Sa * 2 ^ 53 + G * D) as H5 by lia.
    assert (2 * (F * c + P2) * (G * D)
            = 2 * c * (F * G * D) + 2 * P2 * (G * D)) as H6 by ring.
    assert (2 * c * (F * G * D) <= 2 * c * (A * Sa * 2 ^ 53 + G * D)) as H7.
    { apply Z.mul_le_mono_nonneg_l; [unfold c; lia|lia]. }
    assert (2 * c * (A * Sa * 2 ^ 53) = 200 * 2 ^ 99 * (A * Sa)) as H8.
    { unfold c. ring_simplify. change (2 ^ 99) with (2 ^ 46 * 2 ^ 53). ring. }
    assert (Sa * 2 ^ 99 * (2 * R - 1) * D
            <= 200 * 2 ^ 99 * (A * Sa) + Sa * D * 2 ^ 58) as H9 by lia.
    assert (Sa * (2 ^ 41 * ((2 * R - 1) * D - 200 * A)) <= Sa * D) as H10.
    { change (2 ^ 99) with (2 ^ 58 * 2 ^ 41) in H9. nia. }
    assert (2 ^ 41 * ((2 * R - 1) * D - 200 * A) <= D) as H11.
    { apply (Z.mul_le_mono_pos_l _ _ Sa); lia. }
    destruct (Z.le_gt_cases ((2 * R - 1) * D - 200 * A) 0); [lia|].
    assert (4 * ((2 * R - 1) * D - 200 * A)
            <= 2 ^ 41 * ((2 * R - 1) * D - 200 * A)) by nia.
    lia.
Qed.

Lemma toNumber_100 :
  toNumber 100 = S754_finite false 7036874417766400 (- 46).
Proof. reflexivity. Qed.

(** [Math.round((a / d) * 100)] in binary64 is within 5/8 of the exact
    percentage [100 * a / d]. *)
Lemma roundRatio_percent a d :
  0 <= a <= d -> 0 < d < 2 ^ 53 ->
  -5 * d <= 8 * d * roundRatio a d 100 - 800 * a <= 5 * d.
Proof.
  intros Ha Hd. unfold roundRatio. rewrite toNumber_100.
  destruct d as [|pd|pd]; [lia| |lia].
  destruct (toNumber_pos pd ltac:(lia)) as (md & sd & Ed & Hsd & Hdd & Hmd).
  unfold toNumber. rewrite Ed. clear Ed.
  destruct a as [|pa|pa]; [| |lia].
  { cbn. lia. }
  destruct (toNumber_pos pa ltac:(lia)) as (ma & sa & Ea & Hsa & Hda & Hma).
  rewrite Ea. clear Ea.
  destruct (SFdiv_normal ma sa md sd Hda Hdd Hsa Hsd)
    as (mf & n & -> & Hn & Hmf & Hdiv).
  assert (Z.pos (digits2_pos mf) = 53) as Hdf
    by (apply digits_unique; [change (53 - 1) with 52|]; lia).
  destruct (SFmul_normal mf (sd - sa - 53 + n) 7036874417766400 (- 46) Hdf
              eq_refl ltac:(lia))
    as (my & n2 & -> & Hn2 & Hmy & Hmul).
  set (E := sd - sa - 53 + n + - 46 + n2).
  pose proof (mathRound_bounds my E (2 ^ sd * 2 ^ n * 2 ^ n2) (2 ^ sa * 2 ^ 99))
    as Hround.
  assert (0 < 2 ^ sa) as HSa by (apply pow2_pos; lia).
  assert (0 < 2 ^ sd) as HSd by (apply pow2_pos; lia).
  assert (0 < 2 ^ n) as HP1 by (apply pow2_pos; lia).
  assert (0 < 2 ^ n2) as HP2 by (apply pow2_pos; lia).
  assert (2 ^ n2 <= 2 ^ 54) as HP2' by (apply Z.pow_le_mono_r; lia).
  specialize (Hround ltac:(nia) ltac:(lia)).
  destruct Hround as [Hr1 Hr2].
  { rewrite <- !Z.pow_add_r by lia.
    destruct (Z.leb_spec 0 E) as [HE|HE].
    - rewrite <- Z.pow_add_r by lia. f_equal. unfold E. lia.
    - rewrite <- Z.pow_add_r by lia. f_equal. unfold E. lia. }
  set (R := mathRound (S754_finite false my E)) in *.
  apply (percent_arith (Z.pos pa) (Z.pos pd) (2 ^ sa) (2 ^ n * 2 ^ sd) (2 ^ n2)
           (Z.pos mf) (Z.pos my) R); lia.
Qed.

End Binary64.

(** X5. The emotional tone of the assembler's extractor, for arrays of
    matches below the length limit of an array. Each of the three
    percentages, computed in binary64 and rounded on its own, is within
    5/8 of the exact share of its count in the total (the two counts and
    100): it lies between 0 and 100, and the three add up to 99, 100 or
    101. With no match the tone is 0, 0 and 100. *)
Theorem analyzer_emotionalTone_total (content : text) :
  (Z.of_nat (length (Analyzer.positiveWords content)) < 2 ^ 32)%Z →
  (Z.of_nat (length (Analyzer.negativeWords content)) < 2 ^ 32)%Z →
  (∀ share count,
     (share, count)
       ∈ [(positive (emotionalTone (Analyzer.analyzeLanguagePatterns content)),
           Z.of_nat (length (Analyzer.positiveWords content)));
          (negative (emotionalTone (Analyzer.analyzeLanguagePatterns content)),
           Z.of_nat (length (Analyzer.negativeWords content)));
          (neutral (emotionalTone (Analyzer.analyzeLanguagePatterns content)),
           100%Z)] →
     (0 ≤ share ≤ 100)%Z
     ∧ (Z.abs
          (8 * Z.of_nat (length (Analyzer.positiveWords content)
                         + length (Analyzer.negativeWords content) + 100)
             * share
           - 800 * count)
        ≤ 5 * Z.of_nat (length (Analyzer.positiveWords content)
                        + length (Analyzer.negativeWords content) + 100))%Z)
  ∧ (99 ≤ positive (emotionalTone (Analyzer.analyzeLanguagePatterns content))
          + negative (emotionalTone (Analyzer.analyzeLanguagePatterns content))
          + neutral (emotionalTone (Analyzer.analyzeLanguagePatterns content))
        ≤ 101)%Z
  ∧ (Analyzer.positiveWords content = [] ∧ Analyzer.negativeWords content = []
     → emotionalTone (Analyzer.analyzeLanguagePatterns content)
       = {| positive := 0; negative := 0; neutral := 100 |}).
Proof.
  intros Hp Hn.
  cbn [Analyzer.analyzeLanguagePatterns emotionalTone positive negative neutral].
  fold (Analyzer.positiveWords content). fold (Analyzer.negativeWords content).
  assert (Analyzer.positiveWords content = []
          ∧ Analyzer.negativeWords content = [] →
          {| positive :=
               roundRatio (Z.of_nat (length (Analyzer.positiveWords content)))
                 (Z.of_nat (length (Analyzer.positiveWords content)
                            + length (Analyzer.negativeWords content) + 100))
                 100;
             negative :=
               roundRatio (Z.of_nat (length (Analyzer.negativeWords content)))
                 (Z.of_nat (length (Analyzer.positiveWords content)
                            + length (Analyzer.negativeWords content) + 100))
                 100;
             neutral :=
               roundRatio
                 (Z.of_nat (length (Analyzer.positiveWords content)
                            + length (Analyzer.negativeWords content) + 100)
                  - Z.of_nat (length (Analyzer.positiveWords content))
                  - Z.of_nat (length (Analyzer.negativeWords content)))
                 (Z.of_nat (length (Analyzer.positiveWords content)
                            + length (Analyzer.negativeWords content) + 100))
                 100 |}
          = {| positive := 0; negative := 0; neutral := 100 |}) as Hnone.
  { intros [-> ->]. vm_compute. reflexivity. }
  revert Hnone.
  set (p := length (Analyzer.positiveWords content)) in *.
  set (n := length (Analyzer.negativeWords content)) in *.
  replace (Z.of_nat (p + n + 100) - Z.of_nat p - Z.of_nat n)%Z with 100%Z
    by lia.
  set (d := Z.of_nat (p + n + 100)).
  assert (0 < d < 2 ^ 53)%Z as Hd by (unfold d; lia).
  pose proof (roundRatio_percent (Z.of_nat p) d ltac:(unfold d; lia) Hd) as Bp.
  pose proof (roundRatio_percent (Z.of_nat n) d ltac:(unfold d; lia) Hd) as Bn.
  pose proof (roundRatio_percent 100 d ltac:(unfold d; lia) Hd) as Bu.
  assert (d = Z.of_nat p + Z.of_nat n + 100)%Z as Hsum by (unfold d; lia).
  intros Hnone.
  generalize dependent (roundRatio (Z.of_nat p) d 100). intros rp Bp.
  generalize dependent (roundRatio (Z.of_nat n) d 100). intros rn Bn.
  generalize dependent (roundRatio 100 d 100). intros ru Bu Hnone.
  assert (∀ r a, (0 ≤ a ≤ d)%Z →
            (-5 * d ≤ 8 * d * r - 800 * a ≤ 5 * d)%Z → (0 ≤ r ≤ 100)%Z)
    as Hrange.
  { intros r a Ha Hb. split.
    - destruct (Z.le_gt_cases 0 r) as [|Hneg]; [done|exfalso].
      assert (8 * d * r ≤ 8 * d * -1)%Z
        by (apply Z.mul_le_mono_nonneg_l; lia). lia.
    - destruct (Z.le_gt_cases r 100) as [|Hbig]; [done|exfalso].
      assert (8 * d * 101 ≤ 8 * d * r)%Z
        by (apply Z.mul_le_mono_nonneg_l; lia). lia. }
  split_and!.
  - intros share count Hin.
    repeat (apply elem_of_cons in Hin as [[= -> ->]|Hin]);
      [..|by apply elem_of_nil in Hin].
    + split; [apply (Hrange rp (Z.of_nat p)); lia|lia].
    + split; [apply (Hrange rn (Z.of_nat n)); lia|lia].
    + split; [apply (Hrange ru 100%Z); lia|lia].
  - destruct (Z.le_gt_cases 99 (rp + rn + ru)) as [|Hlow]; [done|exfalso].
    assert (8 * d * (rp + rn + ru) ≤ 8 * d * 98)%Z
      by (apply Z.mul_le_mono_nonneg_l; lia). lia.
  - destruct (Z.le_gt_cases (rp + rn + ru) 101) as [|Hhigh]; [done|exfalso].
    assert (8 * d * 102 ≤ 8 * d * (rp + rn + ru))%Z
      by (apply Z.mul_le_mono_nonneg_l; lia). lia.
  - exact Hnone.
Qed.

Lemma analyzer_emotionalTone_sample :
  (∀ share count,
     (share, count)
       ∈ [(positive (emotionalTone (Analyzer.analyzeLanguagePatterns
                                      (str "I love this great offer, but I hate the price"))),
           Z.of_nat (length (Analyzer.positiveWords
                               (str "I love this great offer, but I hate the price"))));
          (negative (emotionalTone (Analyzer.analyzeLanguagePatterns
                                      (str "I love this great offer, but I hate the price"))),
           Z.of_nat (length (Analyzer.negativeWords
                               (str "I love this great offer, but I hate the price"))));
          (neutral (emotionalTone (Analyzer.analyzeLanguagePatterns
                                     (str "I love this great offer, but I hate the price"))),
           100%Z)] →
     (0 ≤ share ≤ 100)%Z
     ∧ (Z.abs
          (8 * Z.of_nat (length (Analyzer.positiveWords
                                   (str "I love this great offer, but I hate the price"))
                         + length (Analyzer.negativeWords
                                     (str "I love this great offer, but I hate the price"))
                         + 100)
             * share
           - 800 * count)
        ≤ 5 * Z.of_nat (length (Analyzer.positiveWords
                                  (str "I love this great offer, but I hate the price"))
                        + length (Analyzer.negativeWords
                                    (str "I love this great offer, but I hate the price"))
                        + 100))%Z)
  ∧ (99 ≤ positive (emotionalTone (Analyzer.analyzeLanguagePatterns
                                     (str "I love this great offer, but I hate the price")))
          + negative (emotionalTone (Analyzer.analyzeLanguagePatterns
                                       (str "I love this great offer, but I hate the price")))
          + neutral (emotionalTone (Analyzer.analyzeLanguagePatterns
                                      (str "I love this great offer, but I hate the price")))
        ≤ 101)%Z.
Proof.
  destruct (analyzer_emotionalTone_total
              (str "I love this great offer, but I hate the price"))
    as (Hshares & Hsum & _).
  - apply Z.ltb_lt. vm_compute. reflexivity.
  - apply Z.ltb_lt. vm_compute. reflexivity.
  - split; [exact Hshares|exact Hsum].
Defined.

(** ** Size and alphabet of the normalizer's output *)

Section Shrinking.
Implicit Types (a c x : ascii) (s t rep : text) (prev : option ascii)
  (re : RegExp).

(** A replacement never lengthens the text when every match is at least
    as long as the replacement string. *)
Lemma replaceFrom_length re rep s :
  (∀ prev s' rest, exec re prev s' = Some rest →
     length rep + length rest ≤ length s') →
  ∀ prev skip,
    length (Str.replaceFrom re rep prev s skip) ≤ length s - skip.
Proof.
  intros Hre. induction s as [|c s IH]; intros prev skip;
    cbn [Str.replaceFrom].
  - destruct skip; [|simpl; lia].
    destruct (exec re prev []) as [rest|] eqn:He; [|simpl; lia].
    apply Hre in He. simpl in *. lia.
  - destruct skip as [|n]; [|simpl; apply IH].
    destruct (exec re prev (c :: s)) as [rest|] eqn:He.
    + pose proof (Hre _ _ _ He) as Hlen.
      destruct (length (c :: s) - length rest) as [|n] eqn:Hn.
      * rewrite length_app. cbn [length] in *.
        specialize (IH (Some c) 0). lia.
      * rewrite length_app. cbn [length] in *.
        specialize (IH (Some c) n). lia.
    + cbn [length]. specialize (IH (Some c) 0). lia.
Qed.

Lemma replace_length re rep s :
  (∀ prev s' rest, exec re prev s' = Some rest →
     length rep + length rest ≤ length s') →
  length (Str.replace re rep s) ≤ length s.
Proof.
  intros Hre. unfold Str.replace.
  pose proof (replaceFrom_length re rep s Hre None 0). lia.
Qed.

Lemma replace_nil_length re s : length (Str.replace re [] s) ≤ length s.
Proof. apply replace_length. intros prev s' rest. apply exec_shrinking. Qed.

Lemma exec_reNewlines prev s rest :
  exec reNewlines prev s = Some rest →
  2 + length rest ≤ length s ∧ head s = Some nl.
Proof.
  unfold exec, reNewlines, RE, AtLeast3. cbn [source reFlags rmatch].
  destruct s as [|a1 s]; [done|].
  destruct (charMatches flags_g nl a1) eqn:H1; [|done].
  destruct s as [|a2 s]; [done|].
  destruct (charMatches flags_g nl a2); [|done].
  destruct s as [|a3 s]; [done|].
  destruct (charMatches flags_g nl a3); [|done].
  intros H. apply starLoop_shrinking in H.
  - split; [simpl; lia|]. unfold charMatches in H1. simpl in H1.
    apply bool_decide_eq_true in H1. by subst.
  - intros q s' k' x Hk.
    by apply (rmatch_shrinking flags_g (Char nl) q s' k' x).
  - by intros q s' y [= <-].
Qed.

Lemma exec_reSpaces prev s rest :
  exec reSpaces prev s = Some rest → 1 + length rest ≤ length s.
Proof.
  unfold exec, reSpaces, RE, AtLeast2, space. cbn [source reFlags rmatch].
  destruct s as [|a1 s]; [done|].
  destruct (classMatches flags_g isWhiteSpace a1); [|done].
  destruct s as [|a2 s]; [done|].
  destruct (classMatches flags_g isWhiteSpace a2); [|done].
  intros H. apply starLoop_shrinking in H.
  - simpl. lia.
  - intros q s' k' x Hk.
    by apply (rmatch_shrinking flags_g (Class isWhiteSpace) q s' k' x).
  - by intros q s' y [= <-].
Qed.

(** Collapsing the runs of newlines brings no code unit that was not
    there. *)
Lemma elem_of_replace_reNewlines x s :
  ∀ prev skip, x ∈ Str.replaceFrom reNewlines [nl; nl] prev s skip → x ∈ s.
Proof.
  induction s as [|c s IH]; intros prev skip; cbn [Str.replaceFrom].
  - destruct (exec reNewlines prev []) as [rest|] eqn:He.
    + by apply exec_reNewlines in He as [_ ?].
    + by destruct skip.
  - destruct skip as [|n].
    + destruct (exec reNewlines prev (c :: s)) as [rest|] eqn:He.
      * apply exec_reNewlines in He as [_ [= ->]].
        destruct (_ - _); rewrite elem_of_app, !elem_of_cons, ?elem_of_nil.
        -- intros [[->|[->|[]]]|[->|H]]; auto. right. by eapply IH.
        -- intros [[->|[->|[]]]|H]; auto. right. by eapply IH.
      * rewrite !elem_of_cons. intros [->|H]; auto. right. by eapply IH.
    + intros H. rewrite elem_of_cons. right. by eapply IH.
Qed.

Lemma elem_of_replace_nil re x s : x ∈ Str.replace re [] s → x ∈ s.
Proof.
  intros H. apply elem_of_replaceFrom in H as [H|H]; [|done].
  by apply elem_of_nil in H.
Qed.

Lemma trimStart_head s c :
  head (Str.trimStart s) = Some c → isWhiteSpace c = false.
Proof.
  induction s as [|a s IH]; [done|]. cbn [Str.trimStart].
  destruct (isWhiteSpace a) eqn:Ha; [done|]. simpl. by intros [= <-].
Qed.

Lemma last_rev_head {A} (l : list A) : last (rev l) = head l.
Proof.
  replace (rev l) with (reverse l) by (unfold reverse; by rewrite <- rev_alt).
  apply last_reverse.
Qed.

Lemma trim_length s : length (Str.trim s) ≤ length s.
Proof.
  unfold Str.trim.
  destruct (trimStart_suffix s) as [w1 H1].
  destruct (trimEnd_prefix (Str.trimStart s)) as [w2 H2].
  apply (f_equal length) in H1, H2. rewrite length_app in H1, H2. lia.
Qed.
End Shrinking.

(** X6. The normalizer never lengthens the text and brings no code unit that
    was not there, but for the single space that stands for a run of
    whitespace. Its output does not start and does not end with
    whitespace. *)
Theorem cleanSubstackContent_shrinks (content : text) :
  length (cleanSubstackContent content) ≤ length content
  ∧ (∀ x, x ∈ cleanSubstackContent content → x ∈ content ∨ x = " "%char)
  ∧ (∀ c, head (cleanSubstackContent content) = Some c →
       isWhiteSpace c = false)
  ∧ (∀ c, last (cleanSubstackContent content) = Some c →
       isWhiteSpace c = false).
Proof.
  split_and!.
  - unfold cleanSubstackContent.
    etrans; [apply trim_length|].
    do 2 (etrans; [apply replace_nil_length|]).
    etrans; [apply replace_length; intros prev s' rest He;
             apply exec_reSpaces in He; simpl; lia|].
    etrans; [apply replace_length; intros prev s' rest He;
             apply exec_reNewlines in He; simpl; lia|].
    do 7 (etrans; [apply replace_nil_length|]).
    apply replace_nil_length.
  - intros x Hx. unfold cleanSubstackContent in Hx.
    apply elem_of_trim in Hx.
    do 2 apply elem_of_replace_nil in Hx.
    apply elem_of_replaceFrom in Hx as [Hx|Hx].
    { right. by apply list_elem_of_singleton in Hx. }
    apply elem_of_replace_reNewlines in Hx.
    do 8 apply elem_of_replace_nil in Hx. by left.
  - intros c. unfold cleanSubstackContent, Str.trim.
    set (s := Str.replace reCtaWords [] _). clearbody s.
    rewrite <- (trimStart_trimEnd (Str.trimStart s))
      by apply trimStart_idemp.
    apply trimStart_head.
  - intros c. unfold cleanSubstackContent, Str.trim, Str.trimEnd.
    rewrite last_rev_head. apply trimStart_head.
Qed.

(** ** Key phrases *)

Lemma foldl_pushKeyPhrase sentences :
  ∀ phrases, foldl pushKeyPhrase phrases sentences
    = phrases ++ map Str.trim
                   (base.filter (fun s => isKeyPhrase s = true) sentences).
Proof.
  induction sentences as [|s sentences IH]; intros phrases; cbn [foldl].
  - by rewrite app_nil_r.
  - rewrite IH, filter_cons. unfold pushKeyPhrase.
    destruct (isKeyPhrase s) eqn:Hs.
    + rewrite decide_True by done. by rewrite <- app_assoc.
    + by rewrite decide_False.
Qed.

(** X7. The key phrases are at most 10 trimmed sentences of the text, in the
    order of the text: each has 3 to 8 words, its sentence contains one of
    the nine power words in some letter case, and it is not empty and
    holds no [.], [!] or [?]. *)
Theorem extractKeyPhrases_phrases (content : text) :
  length (extractKeyPhrases content) ≤ 10
  ∧ extractKeyPhrases content
      `sublist_of` map Str.trim (Str.split reSentenceEnd content)
  ∧ ∀ p, p ∈ extractKeyPhrases content →
      (∃ sentence, sentence ∈ Str.split reSentenceEnd content
         ∧ p = Str.trim sentence
         ∧ ∃ w pre post, w ∈ keyPhrasePowerWords
             ∧ Str.toLowerCase sentence = pre ++ w ++ post)
      ∧ 3 ≤ length (Str.split reWhitespace p) ≤ 8
      ∧ p ≠ []
      ∧ ∀ c, c ∈ p → isSentenceEnd c = false.
Proof.
  unfold extractKeyPhrases. cbv zeta. rewrite foldl_pushKeyPhrase.
  cbn [app]. split_and!.
  - rewrite length_take. lia.
  - etrans; [apply sublist_take|].
    apply (fmap_sublist Str.trim), sublist_filter.
  - intros p Hp. apply elem_of_take in Hp as (i & Hi & _).
    apply list_elem_of_lookup_2, list_elem_of_fmap in Hi as (sentence & -> & Hs).
    apply list_elem_of_filter in Hs as [Hkey Hs].
    unfold isKeyPhrase in Hkey. cbv zeta in Hkey.
    apply andb_true_iff in Hkey as [Hkey Hw].
    apply andb_true_iff in Hkey as [H3%Nat.leb_le H8%Nat.leb_le].
    split_and!.
    + exists sentence. split_and!; [done..|].
      apply existsb_exists in Hw as (w & Hw & Hinc).
      apply includes_spec in Hinc as (pre & post & Hinc).
      exists w, pre, post. split; [|done]. by apply list_elem_of_In.
    + done.
    + done.
    + intros Hnil. rewrite Hnil in H3. vm_compute in H3. lia.
    + intros c Hc%elem_of_trim.
      by destruct (split_plus_class_pieces _ _ _ _ _ Hs Hc) as [_ ?].
Qed.

(** ** Feed retriever *)

Section Feed.
Implicit Types (a c x : ascii) (s t u : text) (prev : option ascii)
  (feed : Feed).

Lemma natToText_inj n m : natToText n = natToText m → n = m.
Proof.
  unfold natToText, str. intros H.
  apply (f_equal string_of_list_ascii) in H.
  rewrite !string_of_list_ascii_of_string in H.
  apply (f_equal NilEmpty.uint_of_string) in H.
  rewrite !NilEmpty.usu in H. injection H as H.
  apply (f_equal Nat.of_uint) in H.
  by rewrite !DecimalNat.Unsigned.of_to in H.
Qed.

Lemma imap_postOfItem_ids feed now its :
  post_id <$> imap (postOfItem feed now) its
  = (fun i => idPrefix feed ++ str "-" ++ natToText i) <$> seq 0 (length its).
Proof.
  rewrite <- (imap_seq_0 its (fun i => idPrefix feed ++ str "-" ++ natToText i)).
  rewrite fmap_imap. by apply imap_ext.
Qed.

Lemma exec_reTrailingSlash prev s rest :
  exec reTrailingSlash prev s = Some rest ↔ s = ["/"%char] ∧ rest = [].
Proof.
  unfold exec, reTrailingSlash, RE. cbn [source reFlags rmatch].
  destruct s as [|c s]; [split; [done|by intros [? ?]]|].
  unfold charMatches, atLineEnd. cbn [ignoreCase multiline flags_none].
  case_bool_decide as Hc.
  - subst c. destruct s as [|c s]; simpl.
    + split; [by intros [= <-]|by intros [_ ->]].
    + split; [done|by intros [? ?]].
  - split; [done|]. intros [[= -> ->] _]. done.
Qed.

Lemma replaceFirst_trailing_slash u :
  Str.replaceFirst reTrailingSlash [] (u ++ ["/"%char]) = u.
Proof.
  unfold Str.replaceFirst. generalize (@None ascii).
  induction u as [|c u IH]; intros prev; cbn [app Str.replaceFirstFrom].
  - destruct (exec reTrailingSlash prev ["/"%char]) as [rest|] eqn:He.
    + by apply exec_reTrailingSlash in He as [_ ->].
    + assert (exec reTrailingSlash prev ["/"%char] = Some []) as He'
        by by apply exec_reTrailingSlash.
      congruence.
  - destruct (exec reTrailingSlash prev (c :: u ++ ["/"%char])) as [rest|] eqn:He.
    + apply exec_reTrailingSlash in He as [[= _ He] _].
      by destruct u.
    + by rewrite IH.
Qed.

Lemma replaceFirst_no_trailing_slash s :
  last s ≠ Some "/"%char → Str.replaceFirst reTrailingSlash [] s = s.
Proof.
  unfold Str.replaceFirst. generalize (@None ascii).
  induction s as [|c s IH]; intros prev Hlast; cbn [Str.replaceFirstFrom].
  - destruct (exec reTrailingSlash prev []) as [rest|] eqn:He; [|done].
    by apply exec_reTrailingSlash in He as [? _].
  - destruct (exec reTrailingSlash prev (c :: s)) as [rest|] eqn:He.
    + apply exec_reTrailingSlash in He as [[= -> ->] _]. done.
    + rewrite IH; [done|]. destruct s; [|done].
      intros ?. done.
Qed.

Lemma isPrefix_refl_app s t : Str.isPrefix s (s ++ t) = true.
Proof. apply isPrefix_spec. eauto. Qed.

Lemma endsWith_app s t : Str.endsWith (s ++ t) t = true.
Proof. unfold Str.endsWith. rewrite rev_app_distr. apply isPrefix_refl_app. Qed.

Lemma endsWith_spec s t : Str.endsWith s t = true ↔ ∃ u, s = u ++ t.
Proof.
  unfold Str.endsWith. rewrite isPrefix_spec. split.
  - intros [post H]. exists (rev post).
    apply (f_equal (@rev ascii)) in H.
    by rewrite rev_involutive, rev_app_distr, rev_involutive in H.
  - intros [u ->]. exists (rev u). by rewrite rev_app_distr.
Qed.

Lemma endsWith_last s t c :
  Str.endsWith s t = true → last t = Some c → last s = Some c.
Proof.
  intros [u ->]%endsWith_spec Ht. rewrite last_app. by rewrite Ht.
Qed.
End Feed.

(** X8. The posts of a feed: one post per item, in the order of the feed, with
    pairwise distinct ids made of the feed's prefix and the item's index,
    and with an empty clean text. Whatever the parser throws, the
    retriever throws its own fixed message. *)
Theorem fetchRSSFeed_posts (parseURL : text → result Feed) (now feedUrl : text) :
  match parseURL feedUrl with
  | Ok feed =>
      ∃ ps, fetchRSSFeed parseURL now feedUrl = Ok ps
        ∧ length ps = length (items feed)
        ∧ NoDup (post_id <$> ps)
        ∧ (∀ i p, ps !! i = Some p →
             post_id p = idPrefix feed ++ str "-" ++ natToText i
             ∧ cleanContent p = []
             ∧ ∃ item, items feed !! i = Some item
                 ∧ title p = orText (item_title item) []
                 ∧ pubDate p = orText (item_pubDate item) now)
  | Throw _ =>
      fetchRSSFeed parseURL now feedUrl = Throw (str "Failed to fetch RSS feed")
  end.
Proof.
  unfold fetchRSSFeed. destruct (parseURL feedUrl) as [feed|e]; [|done].
  eexists. split; [done|]. split_and!.
  - by rewrite length_imap.
  - rewrite imap_postOfItem_ids. apply NoDup_fmap_2; [|apply NoDup_seq].
    intros i j H. apply app_inv_head in H. apply app_inv_head in H.
    by apply natToText_inj.
  - intros i p Hp. rewrite list_lookup_imap in Hp.
    destruct (items feed !! i) as [item|] eqn:Hi; [|done].
    injection Hp as <-. split_and!; [done..|]. by exists item.
Qed.

(** X9. The feed is always fetched from a URL that ends with [/feed]: the
    given one when it does, else the given one without one final slash
    and with [/feed] appended. Normalising twice changes nothing. *)
Theorem fetchSubstackFeed_url (substackUrl : text) :
  (∀ parseURL now,
     fetchSubstackFeed parseURL now substackUrl
     = fetchRSSFeed parseURL now (feedUrlOf substackUrl))
  ∧ Str.endsWith (feedUrlOf substackUrl) (str "/feed") = true
  ∧ feedUrlOf (feedUrlOf substackUrl) = feedUrlOf substackUrl
  ∧ feedUrlOf (substackUrl ++ str "/feed") = substackUrl ++ str "/feed"
  ∧ feedUrlOf (substackUrl ++ str "/") = substackUrl ++ str "/feed"
  ∧ (last substackUrl ≠ Some "/"%char →
     Str.endsWith substackUrl (str "/feed") = false →
     feedUrlOf substackUrl = substackUrl ++ str "/feed").
Proof.
  assert (Str.endsWith (feedUrlOf substackUrl) (str "/feed") = true) as Hends.
  { unfold feedUrlOf. destruct (Str.endsWith substackUrl _) eqn:He; [done|].
    apply endsWith_app. }
  split_and!.
  - done.
  - done.
  - unfold feedUrlOf at 1. by rewrite Hends.
  - unfold feedUrlOf. by rewrite endsWith_app.
  - unfold feedUrlOf.
    destruct (Str.endsWith (substackUrl ++ str "/") (str "/feed")) eqn:He.
    + apply (endsWith_last _ _ "d"%char) in He; [|done].
      rewrite last_app in He. done.
    + by rewrite replaceFirst_trailing_slash.
  - intros Hlast He. unfold feedUrlOf. rewrite He.
    by rewrite replaceFirst_no_trailing_slash.
Qed.

(** ** Slugs and recorded URLs *)

Section Slug.
Implicit Types (a c x : ascii) (s t u name : text) (prev : option ascii).

Lemma toLowerChar_idemp a : toLowerChar (toLowerChar a) = toLowerChar a.
Proof. destruct a as [[] [] [] [] [] [] [] []]; vm_compute; auto. Qed.

Lemma toLowerCase_idemp s : Str.toLowerCase (Str.toLowerCase s) = Str.toLowerCase s.
Proof.
  unfold Str.toLowerCase. rewrite map_map. apply map_ext.
  intros a. apply toLowerChar_idemp.
Qed.

(** Without a code unit of the class there is nothing to replace. *)
Lemma replace_plus_class_none fl p rep s :
  (∀ c, c ∈ s → classMatches fl p c = false) →
  ∀ prev, Str.replaceFrom (RE (Plus (Class p)) fl) rep prev s 0 = s.
Proof.
  induction s as [|c s IH]; intros Hs prev; cbn [Str.replaceFrom].
  - by rewrite exec_plus_class_nil.
  - rewrite exec_plus_class_none by (apply Hs; left).
    rewrite IH; [done|]. intros c' Hc'. apply Hs. by right.
Qed.

Lemma slugOf_units name c :
  c ∈ slugOf name →
  isWhiteSpace c = false
  ∧ (c = "-"%char ∨ ∃ a, a ∈ name ∧ c = toLowerChar a).
Proof.
  unfold slugOf, Str.replace. intros Hc.
  apply elem_of_replace_plus_class in Hc as [Hc|[Hc Hws]].
  - apply list_elem_of_singleton in Hc as ->. split; [done|by left].
  - split; [done|]. right. unfold Str.toLowerCase in Hc.
    apply list_elem_of_fmap in Hc as (a & -> & Ha). eauto.
Qed.

Lemma slugOf_lower name : Str.toLowerCase (slugOf name) = slugOf name.
Proof.
  unfold Str.toLowerCase. rewrite <- (map_id (slugOf name)) at 2.
  apply map_ext_in. intros c Hc%list_elem_of_In.
  apply slugOf_units in Hc as [_ [->|(a & _ & ->)]]; [done|].
  apply toLowerChar_idemp.
Qed.

(** The part of the endpoint before the first write, read backwards. *)
Lemma prepare_inr env i ps :
  prepare env = Ok (inr (i, ps)) →
  ∃ body name url description posts,
    requestJson env = Ok body
    ∧ getProp body "name" = Ok (JStr name) ∧ name ≠ []
    ∧ getProp body "substackUrl" = Ok (JStr url) ∧ url ≠ []
    ∧ getProp body "description" = Ok description
    ∧ fetchSubstackFeed (parseURL env) (fetchedNow env) url = Ok posts
    ∧ ps = map Cli.cleanPost posts
    ∧ i = {| inf_id := slugOf name;
             inf_name := name;
             inf_slug := slugOf name;
             substackUrl := url;
             rssUrl :=
               if Str.endsWith url (str "/feed") then url
               else url ++ str "/feed";
             inf_description :=
               orDefault description
                 (JStr (str "Analysis of " ++ name ++ str "'s content"));
             lastAnalyzed := Some (savedNow env);
             postCount := Some (length ps) |}.
Proof.
  unfold prepare. destruct (requestJson env) as [body|e]; [|done].
  cbn [mbind result_bind].
  destruct (getProp body "name") as [name|e] eqn:Hname; [|done].
  cbn [mbind result_bind].
  destruct (getProp body "substackUrl") as [url|e] eqn:Hurl; [|done].
  cbn [mbind result_bind].
  destruct (getProp body "description") as [description|e] eqn:Hd; [|done].
  cbn [mbind result_bind].
  destruct (negb (truthy name) || negb (truthy url)) eqn:Hv; [done|].
  apply orb_false_iff in Hv as [Hn%negb_false_iff Hu%negb_false_iff].
  destruct name as [| | | |name| |]; try done.
  destruct url as [| | | |url| |]; try done.
  cbn [asString mbind result_bind].
  destruct (fetchSubstackFeed _ _ url) as [posts|e] eqn:Hf; [|done].
  cbn [mbind result_bind mret result_ret].
  intros [= <- <-].
  exists body, name, url, description, posts.
  simpl in Hn, Hu. apply negb_true_iff, bool_decide_eq_false in Hn, Hu.
  split_and!; try done.
Qed.
End Slug.

(** X10. A slug holds no whitespace and no letter that lower-casing would
    change: each of its code units is a hyphen or the lower-case form of a
    code unit of the name. The slug of a slug, and of the lower-cased
    name, is the same slug. The command-line script uses it as id and as
    slug of the record. *)
Theorem slugOf_shape (name : text) :
  (∀ c, c ∈ slugOf name →
     isWhiteSpace c = false ∧ toLowerChar c = c
     ∧ (c = "-"%char ∨ ∃ a, a ∈ name ∧ c = toLowerChar a))
  ∧ slugOf (slugOf name) = slugOf name
  ∧ slugOf (Str.toLowerCase name) = slugOf name
  ∧ ∀ env url description ps,
      inf_id (Cli.influencerOf env name url description ps) = slugOf name
      ∧ inf_slug (Cli.influencerOf env name url description ps) = slugOf name.
Proof.
  split_and!.
  - intros c Hc. pose proof (slugOf_units _ _ Hc) as [Hws Hfrom].
    split_and!; [done| |done].
    destruct Hfrom as [->|(a & _ & ->)]; [done|apply toLowerChar_idemp].
  - unfold slugOf at 1. rewrite slugOf_lower.
    apply replace_plus_class_none. intros c Hc.
    by apply slugOf_units in Hc as [? _].
  - unfold slugOf. by rewrite toLowerCase_idemp.
  - done.
Qed.

(** X11. The record of a request that passes the checks: its id is its slug,
    the slug of the name; the post count is the number of posts of the
    feed, each cleaned; the description is the given one when truthy and
    the fixed sentence about the name otherwise. *)
Theorem prepare_influencer (env : RequestEnv) (i : Influencer)
    (ps : list Post) :
  prepare env = Ok (inr (i, ps)) →
  inf_id i = inf_slug i
  ∧ inf_slug i = slugOf (inf_name i)
  ∧ inf_name i ≠ [] ∧ substackUrl i ≠ []
  ∧ postCount i = Some (length ps)
  ∧ lastAnalyzed i = Some (savedNow env)
  ∧ truthy (inf_description i) = true
  ∧ (∃ posts,
       fetchSubstackFeed (parseURL env) (fetchedNow env) (substackUrl i)
         = Ok posts
       ∧ ps = map Cli.cleanPost posts)
  ∧ Forall (fun p => cleanContent p = cleanSubstackContent (content p)) ps.
Proof.
  intros (body & name & url & description & posts & _ & _ & Hn & _ & Hu
          & _ & Hf & -> & ->)%prepare_inr.
  cbn [inf_id inf_slug inf_name substackUrl postCount lastAnalyzed
       inf_description].
  split_and!; try done.
  - unfold orDefault. destruct (truthy description) eqn:Ht; [done|].
    simpl. done.
  - by exists posts.
  - apply Forall_forall. intros p Hp.
    by apply list_elem_of_fmap in Hp as (q & -> & _).
Qed.

Lemma prepare_influencer_sample :
  ∃ i ps,
    prepare validRequest = Ok (inr (i, ps))
    ∧ inf_id i = inf_slug i
    ∧ inf_slug i = str "ann-lee"
    ∧ postCount i = Some 1.
Proof.
  eexists _, _. split; [vm_compute; reflexivity|].
  pose proof (prepare_influencer validRequest _ _ eq_refl) as H.
  split_and!; [apply H|vm_compute; reflexivity|apply H].
Defined.

(** X12. The recorded feed address is the address the feed was fetched from,
    unless the given address ends with a slash: the retriever drops that
    slash, the record keeps it and ends with [//feed]. The endpoint and the
    command-line script record the address in the same way. *)
Theorem rssUrl_of_record (env : Cli.Env) (name u description : text)
    (ps : list Post) :
  rssUrl (Cli.influencerOf env name (u ++ str "/") description ps)
    = u ++ str "//feed"
  ∧ feedUrlOf (u ++ str "/") = u ++ str "/feed"
  ∧ rssUrl (Cli.influencerOf env name (u ++ str "/") description ps)
      ≠ feedUrlOf (u ++ str "/")
  ∧ (last u ≠ Some "/"%char →
     rssUrl (Cli.influencerOf env name u description ps) = feedUrlOf u)
  ∧ (∀ renv i ps', prepare renv = Ok (inr (i, ps')) →
       rssUrl i
       = rssUrl (Cli.influencerOf env (inf_name i) (substackUrl i)
                   description ps)).
Proof.
  assert (Str.endsWith (u ++ str "/") (str "/feed") = false) as Hends.
  { destruct (Str.endsWith _ _) eqn:He; [|done].
    apply (endsWith_last _ _ "d"%char) in He; [|done].
    rewrite last_app in He. done. }
  assert (feedUrlOf (u ++ str "/") = u ++ str "/feed") as Hfeed.
  { unfold feedUrlOf. rewrite Hends. by rewrite replaceFirst_trailing_slash. }
  split_and!.
  - cbn [Cli.influencerOf rssUrl]. rewrite Hends. by rewrite <- app_assoc.
  - done.
  - cbn [Cli.influencerOf rssUrl]. rewrite Hends, Hfeed, <- app_assoc.
    intros H%app_inv_head. done.
  - intros Hlast. cbn [Cli.influencerOf rssUrl]. unfold feedUrlOf.
    destruct (Str.endsWith u _); [done|].
    by rewrite replaceFirst_no_trailing_slash.
  - intros renv i ps' Hp.
    apply prepare_inr in Hp
      as (body & n & url & d & posts & _ & _ & _ & _ & _ & _ & _ & _ & ->).
    done.
Qed.

(** ** Store *)

Section StoreFacts.
Implicit Types (influencer x : Influencer) (roster : list Influencer)
  (st : Store) (analysis : NeuropsychAnalysis).

Lemma savedRoster_cons influencer x roster :
  savedRoster influencer (x :: roster)
  = if decide (inf_id x = inf_id influencer) then influencer :: roster
    else x :: savedRoster influencer roster.
Proof.
  unfold savedRoster. cbn [list_find].
  destruct (decide (inf_id x = inf_id influencer)); [done|].
  by destruct (list_find _ roster) as [[j y]|].
Qed.

Lemma savedRoster_ids influencer roster :
  inf_id <$> savedRoster influencer roster
  = if decide (inf_id influencer ∈ inf_id <$> roster) then inf_id <$> roster
    else (inf_id <$> roster) ++ [inf_id influencer].
Proof.
  induction roster as [|x roster IH].
  - rewrite decide_False by apply not_elem_of_nil. done.
  - rewrite savedRoster_cons.
    destruct (decide (inf_id x = inf_id influencer)) as [Hx|Hx].
    + rewrite decide_True by (rewrite fmap_cons, Hx; left).
      by rewrite !fmap_cons, Hx.
    + rewrite !fmap_cons, IH.
      destruct (decide (inf_id influencer ∈ inf_id <$> roster)) as [Hin|Hin].
      * rewrite decide_True by by right. done.
      * rewrite decide_False; [done|].
        intros [?|?]%elem_of_cons; congruence.
Qed.

Lemma savedRoster_idemp influencer roster :
  savedRoster influencer (savedRoster influencer roster)
  = savedRoster influencer roster.
Proof.
  induction roster as [|x roster IH].
  - unfold savedRoster at 2. cbn [list_find app].
    rewrite savedRoster_cons. by rewrite decide_True.
  - rewrite savedRoster_cons.
    destruct (decide (inf_id x = inf_id influencer)) as [Hx|Hx].
    + rewrite savedRoster_cons. by rewrite decide_True.
    + rewrite savedRoster_cons, decide_False by done. by rewrite IH.
Qed.

Lemma elem_of_savedRoster_inv influencer roster x :
  x ∈ savedRoster influencer roster → x = influencer ∨ x ∈ roster.
Proof.
  induction roster as [|y roster IH].
  - unfold savedRoster. cbn [list_find app].
    intros ->%list_elem_of_singleton. by left.
  - rewrite savedRoster_cons. destruct (decide _).
    + intros [->|?]%elem_of_cons; [by left|right; by right].
    + intros [->|H]%elem_of_cons; [right; left|].
      destruct (IH H) as [->|?]; [by left|right; by right].
Qed.

Lemma elem_of_savedRoster influencer roster :
  influencer ∈ savedRoster influencer roster.
Proof.
  induction roster as [|x roster IH].
  - unfold savedRoster. cbn [list_find app]. left.
  - rewrite savedRoster_cons. destruct (decide _); [left|by right].
Qed.

(** With slugs for ids, the record just saved is the one found under its
    slug, and the records of the other slugs are found as before. *)
Lemma find_slug_savedRoster influencer roster slug :
  Forall (fun i => inf_slug i = inf_id i) roster →
  inf_slug influencer = inf_id influencer →
  find (fun i => bool_decide (inf_slug i = slug)) (savedRoster influencer roster)
  = if decide (slug = inf_slug influencer) then Some influencer
    else find (fun i => bool_decide (inf_slug i = slug)) roster.
Proof.
  intros Hroster Hid. induction Hroster as [|x roster Hx Hroster IH].
  - unfold savedRoster. cbn [list_find app find].
    destruct (decide (slug = inf_slug influencer)) as [->|Hne].
    + by rewrite bool_decide_eq_true_2.
    + by rewrite bool_decide_eq_false_2.
  - rewrite savedRoster_cons.
    destruct (decide (inf_id x = inf_id influencer)) as [Heq|Hneq];
      cbn [find].
    + destruct (decide (slug = inf_slug influencer)) as [->|Hne].
      * by rewrite bool_decide_eq_true_2.
      * rewrite bool_decide_eq_false_2 by done.
        rewrite bool_decide_eq_false_2 by congruence. done.
    + rewrite IH.
      destruct (decide (slug = inf_slug influencer)) as [->|Hne]; [|done].
      rewrite bool_decide_eq_false_2 by congruence. done.
Qed.

Lemma analysisFile_inj id id' : analysisFile id = analysisFile id' → id = id'.
Proof. unfold analysisFile. apply app_inv_tail. Qed.

(** For a name without separator and NUL the file system looks at the
    length only. *)
Lemma fileNameOk_plainName id ext :
  plainName id → plainName ext →
  fileNameOk (id ++ ext) = bool_decide (utf8Length (id ++ ext) ≤ 255).
Proof.
  intros Hid Hext. unfold fileNameOk.
  assert (forallb (fun c => negb (bool_decide (c = "/"%char))
                            && negb (bool_decide (c = "000"%char)))
            (id ++ ext) = true) as ->.
  { apply forallb_forall. intros c Hc%list_elem_of_In.
    assert (c ≠ "/"%char ∧ c ≠ "000"%char) as [H1 H2].
    { apply elem_of_app in Hc as [Hc|Hc];
        [unfold plainName in Hid; rewrite Forall_forall in Hid; by apply Hid
        |unfold plainName in Hext; rewrite Forall_forall in Hext;
         by apply Hext]. }
    by rewrite !bool_decide_eq_false_2. }
  cbn [andb]. destruct (Nat.leb_spec (utf8Length (id ++ ext)) 255).
  - by rewrite bool_decide_eq_true_2.
  - rewrite bool_decide_eq_false_2; [done|lia].
Qed.

Lemma plainName_json : plainName (str ".json").
Proof. unfold plainName. apply (bool_decide_unpack _). vm_compute. reflexivity. Qed.

Lemma fileNameOk_analysisFile id :
  plainName id →
  fileNameOk (analysisFile id)
  = bool_decide (utf8Length (analysisFile id) ≤ 255).
Proof. intros Hid. apply fileNameOk_plainName; [done|apply plainName_json]. Qed.

Lemma saveAnalysis_Ok analysis st :
  fileNameOk (analysisFile (influencerId analysis)) = true →
  saveAnalysis analysis st
  = Ok {| influencersFile := influencersFile st;
          analysesDir :=
            <[analysisFile (influencerId analysis) := analysis]>
              (analysesDir st) |}.
Proof. intros H. unfold saveAnalysis, writeAnalysisFile. by rewrite H. Qed.

Lemma saveAnalysis_Throw analysis st :
  fileNameOk (analysisFile (influencerId analysis)) = false →
  ∃ e, saveAnalysis analysis st = Throw e.
Proof. intros H. unfold saveAnalysis, writeAnalysisFile. rewrite H. eauto. Qed.

Lemma saveAnalysis_inv analysis st st' :
  saveAnalysis analysis st = Ok st' →
  fileNameOk (analysisFile (influencerId analysis)) = true
  ∧ st' = {| influencersFile := influencersFile st;
             analysesDir :=
               <[analysisFile (influencerId analysis) := analysis]>
                 (analysesDir st) |}.
Proof.
  unfold saveAnalysis, writeAnalysisFile.
  destruct (fileNameOk _); [|done]. by intros [= <-].
Qed.

Lemma getAnalysis_rejected id st :
  fileNameOk (analysisFile id) = false → getAnalysis id st = None.
Proof. intros H. unfold getAnalysis. by rewrite H. Qed.

Lemma store_round_trip_analysis st analysis st' :
  saveAnalysis analysis st = Ok st' →
  getAnalysis (influencerId analysis) st' = Some analysis
  ∧ (∀ id, id ≠ influencerId analysis →
       getAnalysis id st' = getAnalysis id st)
  ∧ getInfluencers st' = getInfluencers st.
Proof.
  intros [Hok ->]%saveAnalysis_inv. unfold getAnalysis. cbn [analysesDir].
  split_and!.
  - rewrite Hok. apply lookup_insert_eq.
  - intros id Hid. destruct (fileNameOk (analysisFile id)); [|done].
    apply lookup_insert_ne. intros H. by apply analysisFile_inj in H.
  - done.
Qed.

Lemma slugsAreIds_saveInfluencer influencer st :
  slugsAreIds st → inf_slug influencer = inf_id influencer →
  slugsAreIds (saveInfluencer influencer st).
Proof.
  unfold slugsAreIds.
  change (getInfluencers (saveInfluencer influencer st))
    with (savedRoster influencer (getInfluencers st)).
  generalize (getInfluencers st). intros roster Hroster Hid.
  induction Hroster as [|x roster Hx Hroster IH].
  - unfold savedRoster. cbn [list_find app]. by constructor.
  - rewrite savedRoster_cons. destruct (decide _); by constructor.
Qed.
End StoreFacts.

(** X13. Writing and reading back, for an id without path separator and
    NUL. When the name of the analysis file has at most 255 bytes,
    [saveAnalysis] resolves: the analysis is the one read under its id and
    replaces an earlier one, the analyses of the other ids and the roster
    are untouched. When the name is longer, [saveAnalysis] rejects, and
    reading under that id gives [null]. Saving a record touches no
    analysis, keeps the ids of the roster in place, adding a new id at the
    end, and saving it twice is saving it once. *)
Theorem store_round_trip (st : Store) (analysis : NeuropsychAnalysis)
    (influencer : Influencer) :
  plainName (influencerId analysis) →
  (utf8Length (analysisFile (influencerId analysis)) ≤ 255 →
     ∃ st', saveAnalysis analysis st = Ok st'
       ∧ getAnalysis (influencerId analysis) st' = Some analysis
       ∧ (∀ id, plainName id → id ≠ influencerId analysis →
            getAnalysis id st' = getAnalysis id st)
       ∧ (∀ later, influencerId later = influencerId analysis →
            saveAnalysis later st' = saveAnalysis later st)
       ∧ getInfluencers st' = getInfluencers st)
  ∧ (255 < utf8Length (analysisFile (influencerId analysis)) →
       (∃ e, saveAnalysis analysis st = Throw e)
       ∧ getAnalysis (influencerId analysis) st = None)
  ∧ (∀ id, getAnalysis id (saveInfluencer influencer st) = getAnalysis id st)
  ∧ influencer ∈ getInfluencers (saveInfluencer influencer st)
  ∧ inf_id <$> getInfluencers (saveInfluencer influencer st)
    = (if decide (inf_id influencer ∈ inf_id <$> getInfluencers st)
       then inf_id <$> getInfluencers st
       else (inf_id <$> getInfluencers st) ++ [inf_id influencer])
  ∧ saveInfluencer influencer (saveInfluencer influencer st)
    = saveInfluencer influencer st.
Proof.
  intros Hplain.
  pose proof (fileNameOk_analysisFile _ Hplain) as Hname.
  split_and!.
  - intros Hlen. rewrite bool_decide_eq_true_2 in Hname by done.
    eexists. split; [by apply saveAnalysis_Ok|].
    destruct (store_round_trip_analysis st analysis _
                (saveAnalysis_Ok analysis st Hname)) as (Hread & Hother & Hroster).
    split_and!; [done| |  |done].
    + intros id _ Hid. by apply Hother.
    + intros later Hid.
      rewrite !saveAnalysis_Ok by by rewrite Hid.
      cbn [analysesDir influencersFile]. by rewrite Hid, insert_insert_eq.
  - intros Hlen. rewrite bool_decide_eq_false_2 in Hname by lia.
    split; [by apply saveAnalysis_Throw|by apply getAnalysis_rejected].
  - done.
  - apply elem_of_savedRoster.
  - apply savedRoster_ids.
  - unfold saveInfluencer. cbn [analysesDir]. f_equal. f_equal.
    apply savedRoster_idemp.
Qed.

Lemma store_round_trip_sample :
  (∃ st',
     saveAnalysis (Analyzer.getDefaultAnalysis (str "ann-lee") [] [])
       sampleStore = Ok st'
     ∧ getAnalysis (str "ann-lee") st'
       = Some (Analyzer.getDefaultAnalysis (str "ann-lee") [] [])
     ∧ getAnalysis (str "bo-chan") st' = getAnalysis (str "bo-chan") sampleStore)
  ∧ (∃ e,
       saveAnalysis (Analyzer.getDefaultAnalysis longName [] []) sampleStore
       = Throw e)
  ∧ getAnalysis longName sampleStore = None.
Proof.
  assert (plainName (str "ann-lee")) as Hann
    by (unfold plainName; apply (bool_decide_unpack _); vm_compute;
        reflexivity).
  assert (plainName (str "bo-chan")) as Hbo
    by (unfold plainName; apply (bool_decide_unpack _); vm_compute;
        reflexivity).
  assert (plainName longName) as Hlong
    by (unfold plainName; apply (bool_decide_unpack _); vm_compute;
        reflexivity).
  destruct (store_round_trip sampleStore
              (Analyzer.getDefaultAnalysis (str "ann-lee") [] [])
              (sampleInfluencer "Ann Lee" "ann-lee" 7) Hann)
    as (Hshort & _).
  destruct Hshort as (st' & Hsave & Hread & Hother & _).
  { apply (bool_decide_unpack _). vm_compute. reflexivity. }
  destruct (store_round_trip sampleStore
              (Analyzer.getDefaultAnalysis longName [] [])
              (sampleInfluencer "Ann Lee" "ann-lee" 7) Hlong)
    as (_ & Hrejected & _).
  destruct Hrejected as [Hthrow Hnull].
  { apply (bool_decide_unpack _). vm_compute. reflexivity. }
  split_and!; [|exact Hthrow|exact Hnull].
  exists st'. split_and!; [exact Hsave|exact Hread|].
  apply Hother; [exact Hbo|discriminate].
Defined.

(** ** Endpoint, page and command-line script *)

Section Outcomes.
Implicit Types (st : Store) (openai : option Analyzer.OpenAI).

(** The assembler's report is about the subject and the posts it was
    given. *)
Lemma analyzeNeuropsychology_report env openai now subject ps :
  ∃ report openai',
    Analyzer.analyzeNeuropsychology env openai now subject ps
      = (Ok report, openai')
    ∧ influencerId report = subject
    ∧ analyzedAt report = now
    ∧ posts report = ps.
Proof.
  unfold Analyzer.analyzeNeuropsychology.
  destruct (Analyzer.analyzeBrandProfile env openai _) as [profile openai'].
  eexists _, _. split; [reflexivity|]. done.
Qed.

Lemma POST_inr env st openai i ps :
  prepare env = Ok (inr (i, ps)) →
  ∃ report openai',
    POST env st openai
    = match saveAnalysis report (saveInfluencer i st) with
      | Ok st' =>
          ({| status := 200; payload := SuccessPayload i (inf_id i) |},
           st', openai')
      | Throw _ => (failure, saveInfluencer i st, openai')
      end
    ∧ influencerId report = inf_id i
    ∧ analyzedAt report = analyzedNow env
    ∧ posts report = ps.
Proof.
  intros Hp. unfold POST. rewrite Hp.
  destruct (analyzeNeuropsychology_report (analyzerEnv env) openai
              (analyzedNow env) (inf_id i) ps)
    as (report & openai' & -> & Hr).
  exists report, openai'. split; [|done].
  by destruct (saveAnalysis report (saveInfluencer i st)).
Qed.

(** The early return of the checks is the validation error. *)
Lemma prepare_inl env response :
  prepare env = Ok (inl response) → response = validationError.
Proof.
  unfold prepare.
  destruct (requestJson env) as [body|e]; [|done]. cbn [mbind result_bind].
  destruct (getProp body "name") as [name|e]; [|done].
  cbn [mbind result_bind].
  destruct (getProp body "substackUrl") as [url|e]; [|done].
  cbn [mbind result_bind].
  destruct (getProp body "description") as [description|e]; [|done].
  cbn [mbind result_bind].
  destruct (negb (truthy name) || negb (truthy url)).
  { by intros [= <-]. }
  destruct (asString name) as [n|e]; [|done]. cbn [mbind result_bind].
  destruct (asString url) as [u|e]; [|done]. cbn [mbind result_bind].
  by destruct (fetchSubstackFeed _ _ u).
Qed.

(** The run of the endpoint once the checks have yielded a record whose
    id has no separator and no NUL: the length of the file name
    decides. *)
Lemma POST_record env st openai i ps :
  prepare env = Ok (inr (i, ps)) → plainName (inf_id i) →
  ∃ report openai',
    influencerId report = inf_id i
    ∧ analyzedAt report = analyzedNow env
    ∧ posts report = ps
    ∧ (utf8Length (analysisFile (inf_id i)) ≤ 255 →
         ∃ st', saveAnalysis report (saveInfluencer i st) = Ok st'
           ∧ POST env st openai
             = ({| status := 200; payload := SuccessPayload i (inf_id i) |},
                st', openai'))
    ∧ (255 < utf8Length (analysisFile (inf_id i)) →
         POST env st openai = (failure, saveInfluencer i st, openai')).
Proof.
  intros Hp Hplain.
  destruct (POST_inr env st openai i ps Hp)
    as (report & openai' & HP & Hid & Hat & Hps).
  exists report, openai'. split_and!; [done..| |].
  - intros Hlen.
    assert (fileNameOk (analysisFile (influencerId report)) = true) as Hok.
    { rewrite Hid, fileNameOk_analysisFile by done.
      by apply bool_decide_eq_true_2. }
    rewrite (saveAnalysis_Ok report _ Hok) in HP. eexists.
    split; [by apply saveAnalysis_Ok|exact HP].
  - intros Hlen.
    assert (fileNameOk (analysisFile (influencerId report)) = false) as Hno.
    { rewrite Hid, fileNameOk_analysisFile by done.
      apply bool_decide_eq_false_2. lia. }
    destruct (saveAnalysis_Throw report (saveInfluencer i st) Hno) as [e He].
    by rewrite He in HP.
Qed.
End Outcomes.

(** X14. The endpoint, when the id of the record it builds has no path
    separator and no NUL. It answers with 200, 400 or 500: 400 exactly
    when the checks fail; 200 exactly when the part before the first write
    yields a record and the name of its analysis file has at most 255
    bytes; 500 exactly when that part throws, or yields a record whose
    file name is longer. With 200 the record and a report about its id and
    the cleaned posts are written, and the answer carries the record and
    its id. With the longer name the record is written and the analysis is
    not: reading it gives [null]. When the checks fail or the first part
    throws, the store is left as it was. *)
Theorem POST_outcomes (env : RequestEnv) (st : Store)
    (openai : option Analyzer.OpenAI) :
  (∀ i ps, prepare env = Ok (inr (i, ps)) → plainName (inf_id i)) →
  (status (POST env st openai).1.1 = 200
   ∨ status (POST env st openai).1.1 = 400
   ∨ status (POST env st openai).1.1 = 500)
  ∧ (status (POST env st openai).1.1 = 400 ↔
       prepare env = Ok (inl validationError))
  ∧ (status (POST env st openai).1.1 = 200 ↔
       ∃ i ps, prepare env = Ok (inr (i, ps))
         ∧ utf8Length (analysisFile (inf_id i)) ≤ 255)
  ∧ (status (POST env st openai).1.1 = 500 ↔
       (∃ e, prepare env = Throw e)
       ∨ ∃ i ps, prepare env = Ok (inr (i, ps))
           ∧ 255 < utf8Length (analysisFile (inf_id i)))
  ∧ (∀ i ps, prepare env = Ok (inr (i, ps)) →
       ∃ report,
         influencerId report = inf_id i
         ∧ analyzedAt report = analyzedNow env
         ∧ posts report = ps
         ∧ (utf8Length (analysisFile (inf_id i)) ≤ 255 →
              (POST env st openai).1.1
                = {| status := 200; payload := SuccessPayload i (inf_id i) |}
              ∧ saveAnalysis report (saveInfluencer i st)
                = Ok (POST env st openai).1.2
              ∧ getAnalysis (inf_id i) (POST env st openai).1.2 = Some report
              ∧ i ∈ getInfluencers (POST env st openai).1.2)
         ∧ (255 < utf8Length (analysisFile (inf_id i)) →
              (POST env st openai).1.1 = failure
              ∧ (POST env st openai).1.2 = saveInfluencer i st
              ∧ getAnalysis (inf_id i) (POST env st openai).1.2 = None))
  ∧ ((∃ e, prepare env = Throw e) ∨ prepare env = Ok (inl validationError) →
       (POST env st openai).1.2 = st)
  ∧ (status (POST env st openai).1.1 ≠ 200 →
       (POST env st openai).1.1 = validationError
       ∨ (POST env st openai).1.1 = failure).
Proof.
  intros Hplain.
  destruct (prepare env) as [[response|[i ps]]|e] eqn:Hp.
  - pose proof (prepare_inl env response Hp) as ->.
    unfold POST. rewrite Hp. cbn.
    split_and!; try done; try (by auto).
    + split; [done|]. by intros (i & ps & ? & _).
    + split; [done|]. by intros [[e ?]|(i & ps & ? & _)].
  - specialize (Hplain i ps eq_refl).
    destruct (POST_record env st openai i ps Hp Hplain)
      as (report & openai' & Hid & Hat & Hps & Hshort & Hlong).
    destruct (decide (utf8Length (analysisFile (inf_id i)) ≤ 255))
      as [Hlen|Hlen].
    + destruct (Hshort Hlen) as (st' & Hsave & ->). cbn [fst snd status].
      destruct (store_round_trip_analysis _ _ _ Hsave)
        as (Hread & _ & Hroster).
      split_and!; try done; try (by auto).
      * split; [by eauto|done].
      * split; [done|].
        intros [[e ?]|(i' & ps' & [= <- <-] & ?)]; [done|lia].
      * intros i' ps' [= <- <-]. exists report.
        split_and!; [done..| |intros ?; lia].
        intros _. split_and!; [done|done|by rewrite <- Hid|].
        rewrite Hroster. apply elem_of_savedRoster.
      * by intros [[e ?]|?].
    + rewrite Hlong by lia. cbn [fst snd status failure].
      split_and!; try done; try (by auto).
      * split; [done|]. intros (i' & ps' & [= <- <-] & ?). lia.
      * split; [intros _|done]. right. exists i, ps. split; [done|lia].
      * intros i' ps' [= <- <-]. exists report.
        split_and!; [done..|intros ?; lia|].
        intros _. split_and!; [done|done|].
        apply getAnalysis_rejected.
        rewrite fileNameOk_analysisFile by done.
        by apply bool_decide_eq_false_2.
      * by intros [[e ?]|?].
  - unfold POST. rewrite Hp. cbn.
    split_and!; try done; try (by auto).
    + split; [done|]. by intros (i & ps & ? & _).
    + split; [by eauto|done].
Qed.

Lemma POST_outcomes_sample :
  status (POST validRequest emptyStore None).1.1 = 200
  ∧ status (POST longNameRequest emptyStore None).1.1 = 500
  ∧ (inf_name <$> getInfluencers (POST longNameRequest emptyStore None).1.2)
    = [longName]
  ∧ getAnalysis longName (POST longNameRequest emptyStore None).1.2 = None.
Proof.
  assert (∀ i ps, prepare validRequest = Ok (inr (i, ps)) →
            plainName (inf_id i)) as Hvalid.
  { intros i ps Hp. vm_compute in Hp. injection Hp as <- _.
    unfold plainName. apply (bool_decide_unpack _). vm_compute. reflexivity. }
  assert (∀ i ps, prepare longNameRequest = Ok (inr (i, ps)) →
            plainName (inf_id i)) as Hlong.
  { intros i ps Hp. vm_compute in Hp. injection Hp as <- _.
    unfold plainName. apply (bool_decide_unpack _). vm_compute. reflexivity. }
  destruct (POST_outcomes validRequest emptyStore None Hvalid)
    as (_ & _ & H200 & _).
  destruct (POST_outcomes longNameRequest emptyStore None Hlong)
    as (_ & _ & _ & H500 & Hrecord & _).
  split_and!.
  - apply H200. eexists _, _. split; [vm_compute; reflexivity|].
    apply (bool_decide_unpack _). vm_compute. reflexivity.
  - apply H500. right. eexists _, _. split; [vm_compute; reflexivity|].
    apply (bool_decide_unpack _). vm_compute. reflexivity.
  - vm_compute. reflexivity.
  - destruct (Hrecord _ _ eq_refl) as (report & _ & _ & _ & _ & Hrejected).
    apply Hrejected. apply (bool_decide_unpack _). vm_compute. reflexivity.
Defined.

(** X15. What makes the endpoint answer 500: a body that cannot be read, a
    body that is [null], a truthy name or address that is not a string,
    and a feed that cannot be fetched. *)
Theorem POST_failure_causes (env : RequestEnv) (st : Store)
    (openai : option Analyzer.OpenAI) :
  ((∃ e, requestJson env = Throw e)
   ∨ requestJson env = Ok JNull
   ∨ (∃ body name url,
        requestJson env = Ok body
        ∧ getProp body "name" = Ok name ∧ truthy name = true
        ∧ getProp body "substackUrl" = Ok url ∧ truthy url = true
        ∧ ((∀ s, name ≠ JStr s)
           ∨ (∀ s, url ≠ JStr s)
           ∨ ∃ u e, url = JStr u
               ∧ parseURL env (feedUrlOf u) = Throw e))) →
  POST env st openai = (failure, st, openai).
Proof.
  intros H. unfold POST.
  assert (∃ e, prepare env = Throw e) as [e ->]; [|done].
  unfold prepare.
  destruct H as [[e ->]|[->|(body & name & url & -> & Hn & Htn & Hu & Htu & H)]];
    [by eauto..|].
  cbn [mbind result_bind]. rewrite Hn. cbn [mbind result_bind].
  rewrite Hu. cbn [mbind result_bind].
  destruct (getProp body "description") as [description|e] eqn:Hd.
  2:{ by eauto. }
  cbn [mbind result_bind]. rewrite Htn, Htu. cbn [negb orb].
  destruct name as [| | | |n| |]; try (by cbn; eauto).
  cbn [asString mbind result_bind].
  destruct url as [| | | |u| |]; try (by cbn; eauto).
  cbn [asString mbind result_bind].
  destruct H as [H|[H|(u' & e & [= <-] & He)]];
    [by destruct (H n)|by destruct (H u)|].
  change (fetchSubstackFeed (parseURL env) (fetchedNow env) u)
    with (fetchRSSFeed (parseURL env) (fetchedNow env) (feedUrlOf u)).
  unfold fetchRSSFeed. rewrite He. cbn. eauto.
Qed.

Lemma POST_failure_causes_sample :
  POST {| requestJson :=
            Ok (JObj [(str "name", JNum 7);
                      (str "substackUrl", JStr (str "https://x.substack.com"))]);
          parseURL := fun _ => Ok sampleFeed;
          fetchedNow := []; savedNow := []; analyzedNow := [];
          analyzerEnv := keylessEnv |} sampleStore None
  = (failure, sampleStore, None).
Proof.
  apply POST_failure_causes. right. right.
  exists (JObj [(str "name", JNum 7);
                (str "substackUrl", JStr (str "https://x.substack.com"))]),
    (JNum 7), (JStr (str "https://x.substack.com")).
  split_and!; [reflexivity..|]. left. intros s. discriminate.
Defined.

(** X16. The analysis page after a request, over a roster whose records
    have their slug as id, the ids without path separator and NUL. After
    a request answered with 200 the page of the slug of the record the
    answer carries shows that record and the report just written. When
    the first part yields a record and the answer is not 200, the page of
    its slug shows the record with the note that the analysis is pending.
    In both cases the pages of the other slugs show what they showed.
    After any request the records still have their slug as id, without
    separator and NUL. *)
Theorem POST_then_page (env : RequestEnv) (st : Store)
    (openai : option Analyzer.OpenAI) :
  slugsAreIds st →
  Forall (fun j => plainName (inf_id j)) (getInfluencers st) →
  (∀ i ps, prepare env = Ok (inr (i, ps)) → plainName (inf_id i)) →
  (status (POST env st openai).1.1 = 200 →
     ∃ i report,
       payload (POST env st openai).1.1 = SuccessPayload i (inf_id i)
       ∧ InfluencerAnalysisPage (inf_slug i) (POST env st openai).1.2
         = AnalysisShown i report
       ∧ influencerId report = inf_id i
       ∧ analyzedAt report = analyzedNow env
       ∧ ∀ slug, slug ≠ inf_slug i →
           InfluencerAnalysisPage slug (POST env st openai).1.2
           = InfluencerAnalysisPage slug st)
  ∧ (∀ i ps, prepare env = Ok (inr (i, ps)) →
       status (POST env st openai).1.1 ≠ 200 →
       InfluencerAnalysisPage (inf_slug i) (POST env st openai).1.2
         = AnalysisPending i
       ∧ ∀ slug, slug ≠ inf_slug i →
           InfluencerAnalysisPage slug (POST env st openai).1.2
           = InfluencerAnalysisPage slug st)
  ∧ slugsAreIds (POST env st openai).1.2
  ∧ Forall (fun j => plainName (inf_id j))
      (getInfluencers (POST env st openai).1.2).
Proof.
  intros Hst Hroster Hplain.
  destruct (prepare env) as [[response|[i ps]]|e] eqn:Hp.
  - pose proof (prepare_inl env response Hp) as ->.
    unfold POST. rewrite Hp. cbn. split_and!; done.
  - specialize (Hplain i ps eq_refl).
    destruct (POST_record env st openai i ps Hp Hplain)
      as (report & openai' & Hid & Hat & Hps & Hshort & Hlong).
    pose proof (prepare_inr env i ps Hp)
      as (body & name & url & d & posts0 & _ & _ & _ & _ & _ & _ & _ & _ & Hi).
    assert (inf_slug i = inf_id i) as Hslug by by rewrite Hi.
    clear Hi.
    assert (∀ slug,
      getInfluencer slug (saveInfluencer i st)
      = if decide (slug = inf_slug i) then Some i else getInfluencer slug st)
      as Hget.
    { intros slug. unfold getInfluencer.
      change (getInfluencers (saveInfluencer i st))
        with (savedRoster i (getInfluencers st)).
      by apply find_slug_savedRoster. }
    assert (Forall (fun j => plainName (inf_id j))
              (getInfluencers (saveInfluencer i st))) as Hroster'.
    { change (getInfluencers (saveInfluencer i st))
        with (savedRoster i (getInfluencers st)).
      apply Forall_forall. intros j [->|Hj]%elem_of_savedRoster_inv; [done|].
      rewrite Forall_forall in Hroster. by apply Hroster. }
    assert (∀ slug j, slug ≠ inf_slug i → getInfluencer slug st = Some j →
              inf_id j ≠ inf_id i) as Hother.
    { intros slug j Hne Hj. unfold getInfluencer in Hj.
      apply find_some in Hj as [Hin Hjs]. apply bool_decide_eq_true in Hjs.
      apply list_elem_of_In in Hin.
      unfold slugsAreIds in Hst. rewrite Forall_forall in Hst.
      specialize (Hst j Hin). cbv beta in Hst. congruence. }
    destruct (decide (utf8Length (analysisFile (inf_id i)) ≤ 255))
      as [Hlen|Hlen].
    + destruct (Hshort Hlen) as (st' & Hsave & ->). cbn [fst snd status payload].
      destruct (store_round_trip_analysis _ _ _ Hsave)
        as (Hread & Hrest & Hsame).
      assert (∀ slug, getInfluencer slug st'
                       = getInfluencer slug (saveInfluencer i st)) as Hget'.
      { intros slug. unfold getInfluencer. by rewrite Hsame. }
      split_and!.
      * intros _. exists i, report. split_and!; [done| |done|done|].
        -- unfold InfluencerAnalysisPage.
           rewrite Hget', Hget, decide_True by done.
           by rewrite <- Hid, Hread.
        -- intros slug Hne. unfold InfluencerAnalysisPage.
           rewrite Hget', Hget, decide_False by done.
           destruct (getInfluencer slug st) as [j|] eqn:Hj; [|done].
           rewrite Hrest; [done|]. rewrite Hid. by eapply Hother.
      * intros i' ps' _ Hno. done.
      * unfold slugsAreIds. rewrite Hsame.
        by apply slugsAreIds_saveInfluencer.
      * by rewrite Hsame.
    + rewrite Hlong by lia. cbn [fst snd status failure].
      split_and!.
      * done.
      * intros i' ps' [= <- <-] _. split.
        -- unfold InfluencerAnalysisPage. rewrite Hget, decide_True by done.
           rewrite getAnalysis_rejected; [done|].
           rewrite fileNameOk_analysisFile by done.
           by apply bool_decide_eq_false_2.
        -- intros slug Hne. unfold InfluencerAnalysisPage.
           by rewrite Hget, decide_False by done.
      * by apply slugsAreIds_saveInfluencer.
      * done.
  - unfold POST. rewrite Hp. cbn. split_and!; done.
Qed.

Lemma POST_then_page_sample :
  (∃ i report,
     InfluencerAnalysisPage (str "ann-lee")
       (POST validRequest emptyStore None).1.2
     = AnalysisShown i report
     ∧ inf_name i = str "Ann Lee"
     ∧ influencerId report = str "ann-lee")
  ∧ (∃ i,
       InfluencerAnalysisPage longName
         (POST longNameRequest emptyStore None).1.2
       = AnalysisPending i
       ∧ inf_name i = longName).
Proof.
  assert (slugsAreIds emptyStore) as Hst by constructor.
  assert (Forall (fun j => plainName (inf_id j)) (getInfluencers emptyStore))
    as Hroster by constructor.
  assert (∀ i ps, prepare validRequest = Ok (inr (i, ps)) →
            plainName (inf_id i)) as Hvalid.
  { intros i ps Hp. vm_compute in Hp. injection Hp as <- _.
    unfold plainName. apply (bool_decide_unpack _). vm_compute. reflexivity. }
  assert (∀ i ps, prepare longNameRequest = Ok (inr (i, ps)) →
            plainName (inf_id i)) as Hlong.
  { intros i ps Hp. vm_compute in Hp. injection Hp as <- _.
    unfold plainName. apply (bool_decide_unpack _). vm_compute. reflexivity. }
  destruct (POST_then_page validRequest emptyStore None Hst Hroster Hvalid)
    as (Hshown & _).
  destruct (POST_then_page longNameRequest emptyStore None Hst Hroster Hlong)
    as (_ & Hpending & _).
  split.
  - destruct Hshown as (i & report & Hpayload & Hpage & Hid & _);
      [vm_compute; reflexivity|].
    vm_compute in Hpayload. injection Hpayload as Hi _. subst i.
    eexists _, report. split_and!; [exact Hpage|reflexivity|exact Hid].
  - destruct (Hpending _ _ eq_refl) as [Hpage _]; [vm_compute; discriminate|].
    eexists. split; [exact Hpage|reflexivity].
Defined.

(** X17. The command-line script, for a name whose slug has no path
    separator and no NUL. A feed that cannot be fetched makes it throw
    the retriever's message and write nothing. Otherwise it builds the
    record, which counts all the posts of the feed, writes it, and builds
    the report about the first 10 of them, cleaned. When the name of the
    analysis file has at most 255 bytes the report is written as well and
    read back under the slug, and the script returns both; when the name
    is longer the script throws after the record was written. *)
Theorem Cli_analyzeInfluencer_outcome (env : Cli.Env) (st : Store)
    (openai : option Analyzer.OpenAI) (name substackUrl description : text) :
  plainName (slugOf name) →
  match fetchSubstackFeed (Cli.parseURL env) (Cli.fetchedNow env) substackUrl
  with
  | Throw e =>
      Cli.analyzeInfluencer env st openai name substackUrl description
        = (Throw (str "Failed to fetch RSS feed"), st, openai)
  | Ok feedPosts =>
      ∃ influencer report openai',
        inf_id influencer = slugOf name
        ∧ postCount influencer = Some (length feedPosts)
        ∧ influencerId report = slugOf name
        ∧ posts report = take 10 (map Cli.cleanPost feedPosts)
        ∧ length (posts report) = length feedPosts `min` 10
        ∧ (utf8Length (analysisFile (slugOf name)) ≤ 255 →
             ∃ st',
               Cli.analyzeInfluencer env st openai name substackUrl description
                 = (Ok (influencer, report), st', openai')
               ∧ saveAnalysis report (saveInfluencer influencer st) = Ok st'
               ∧ getAnalysis (slugOf name) st' = Some report
               ∧ influencer ∈ getInfluencers st')
        ∧ (255 < utf8Length (analysisFile (slugOf name)) →
             ∃ e,
               Cli.analyzeInfluencer env st openai name substackUrl description
                 = (Throw e, saveInfluencer influencer st, openai'))
  end.
Proof.
  intros Hplain. unfold Cli.analyzeInfluencer.
  destruct (fetchSubstackFeed _ _ substackUrl) as [feedPosts|e] eqn:Hf.
  - destruct (analyzeNeuropsychology_report (Cli.analyzerEnv env) openai
                (Cli.analyzedNow env)
                (inf_id (Cli.influencerOf env name substackUrl description
                           (map Cli.cleanPost feedPosts)))
                (take 10 (map Cli.cleanPost feedPosts)))
      as (report & openai' & -> & Hid & _ & Hps).
    change (inf_id (Cli.influencerOf env name substackUrl description
                      (map Cli.cleanPost feedPosts)))
      with (slugOf name) in Hid.
    exists (Cli.influencerOf env name substackUrl description
              (map Cli.cleanPost feedPosts)), report, openai'.
    split_and!.
    + reflexivity.
    + cbn [Cli.influencerOf postCount]. by rewrite length_map.
    + done.
    + done.
    + rewrite Hps, length_take, length_map. lia.
    + intros Hlen.
      assert (fileNameOk (analysisFile (influencerId report)) = true) as Hok.
      { rewrite Hid, fileNameOk_analysisFile by done.
        by apply bool_decide_eq_true_2. }
      rewrite (saveAnalysis_Ok report _ Hok). eexists.
      split; [reflexivity|]. split; [done|].
      destruct (store_round_trip_analysis _ _ _
                  (saveAnalysis_Ok report
                     (saveInfluencer
                        (Cli.influencerOf env name substackUrl description
                           (map Cli.cleanPost feedPosts)) st) Hok))
        as (Hread & _ & Hroster).
      split; [by rewrite <- Hid|].
      rewrite Hroster. apply elem_of_savedRoster.
    + intros Hlen.
      assert (fileNameOk (analysisFile (influencerId report)) = false) as Hno.
      { rewrite Hid, fileNameOk_analysisFile by done.
        apply bool_decide_eq_false_2. lia. }
      destruct (saveAnalysis_Throw report
                  (saveInfluencer
                     (Cli.influencerOf env name substackUrl description
                        (map Cli.cleanPost feedPosts)) st) Hno) as [e ->].
      by exists e.
  - unfold fetchSubstackFeed, fetchRSSFeed in Hf.
    destruct (Cli.parseURL env _); [done|]. by injection Hf as <-.
Qed.

Lemma Cli_analyzeInfluencer_sample :
  (∃ influencer report st' openai',
     Cli.analyzeInfluencer sampleCliEnv emptyStore None (str "Ann Lee")
       (str "https://annlee.substack.com") (str "Notes")
     = (Ok (influencer, report), st', openai')
     ∧ inf_id influencer = str "ann-lee"
     ∧ postCount influencer = Some 1
     ∧ length (posts report) = 1
     ∧ getAnalysis (str "ann-lee") st' = Some report)
  ∧ (∃ influencer e openai',
       Cli.analyzeInfluencer sampleCliEnv emptyStore None longName
         (str "https://annlee.substack.com") (str "Notes")
       = (Throw e, saveInfluencer influencer emptyStore, openai')
       ∧ inf_id influencer = longName).
Proof.
  assert (plainName (slugOf (str "Ann Lee"))) as Hplain
    by (unfold plainName; apply (bool_decide_unpack _); vm_compute;
        reflexivity).
  assert (plainName (slugOf longName)) as Hplain'
    by (unfold plainName; apply (bool_decide_unpack _); vm_compute;
        reflexivity).
  pose proof (Cli_analyzeInfluencer_outcome sampleCliEnv emptyStore None
                (str "Ann Lee") (str "https://annlee.substack.com")
                (str "Notes") Hplain) as H.
  pose proof (Cli_analyzeInfluencer_outcome sampleCliEnv emptyStore None
                longName (str "https://annlee.substack.com")
                (str "Notes") Hplain') as H'.
  destruct (fetchSubstackFeed (Cli.parseURL sampleCliEnv)
              (Cli.fetchedNow sampleCliEnv)
              (str "https://annlee.substack.com")) as [feedPosts|e] eqn:Hf;
    [|by vm_compute in Hf].
  assert (length feedPosts = 1) as Hone
    by (vm_compute in Hf; by injection Hf as <-).
  split.
  - destruct H as (influencer & report & openai' & Hid & Hcount & _ & _
                   & Hlen & Hshort & _).
    destruct Hshort as (st' & Hrun & _ & Hread & _).
    { apply (bool_decide_unpack _). vm_compute. reflexivity. }
    exists influencer, report, st', openai'.
    rewrite Hone in Hcount, Hlen.
    split_and!; [exact Hrun| |exact Hcount|exact Hlen|exact Hread].
    rewrite Hid. vm_compute. reflexivity.
  - destruct H' as (influencer & report & openai' & Hid & _ & _ & _ & _ & _
                    & Hlong).
    destruct Hlong as (e & Hrun).
    { apply (bool_decide_unpack _). vm_compute. reflexivity. }
    exists influencer, e, openai'. split; [exact Hrun|].
    rewrite Hid. vm_compute. reflexivity.
Defined.

(** ** Scripts *)

Section Scripts.
Implicit Types (dir : Fetcher.PostsDir) (st : Store) (slug : text).

Lemma postsFile_inj slug slug' :
  Fetcher.postsFile slug = Fetcher.postsFile slug' → slug = slug'.
Proof. unfold Fetcher.postsFile. apply app_inv_tail. Qed.

Lemma lookupConfig_cases slug :
  (slug = str "greg-isenberg"
   ∧ Script.lookupConfig slug = Some Script.gregIsenberg)
  ∨ (slug = str "dan-koe" ∧ Script.lookupConfig slug = Some Script.danKoe)
  ∨ (slug = str "justin-welsh"
     ∧ Script.lookupConfig slug = Some Script.justinWelsh)
  ∨ ((slug ∉ Batch.slugs) ∧ Script.lookupConfig slug = None).
Proof.
  unfold Script.lookupConfig, Script.influencerConfigs. cbn [find fst snd].
  destruct (bool_decide_reflect (str "greg-isenberg" = slug)) as [<-|H1];
    [by left|].
  destruct (bool_decide_reflect (str "dan-koe" = slug)) as [<-|H2];
    [right; by left|].
  destruct (bool_decide_reflect (str "justin-welsh" = slug)) as [<-|H3];
    [right; right; by left|].
  right. right. right. split; [|done].
  unfold Batch.slugs. cbn [map].
  rewrite !elem_of_cons, elem_of_nil. intros [?|[?|[?|[]]]]; congruence.
Qed.

Lemma lookupConfig_Some slug config :
  Script.lookupConfig slug = Some config ↔
  (slug, config) ∈ Script.influencerConfigs.
Proof.
  unfold Script.influencerConfigs. rewrite !elem_of_cons, elem_of_nil.
  destruct (lookupConfig_cases slug)
    as [[-> ->]|[[-> ->]|[[-> ->]|[Hno ->]]]].
  - split; [intros [= <-]; auto|].
    intros [[= <-]|[[= ? ?]|[[= ? ?]|[]]]]; done.
  - split; [intros [= <-]; auto|].
    intros [[= ? ?]|[[= <-]|[[= ? ?]|[]]]]; done.
  - split; [intros [= <-]; auto|].
    intros [[= ? ?]|[[= ? ?]|[[= <-]|[]]]]; done.
  - split; [done|]. intros H. exfalso. apply Hno.
    unfold Batch.slugs. cbn [map]. rewrite !elem_of_cons.
    destruct H as [[= -> _]|[[= -> _]|[[= -> _]|[]]]]; auto.
Qed.

Lemma lookupConfig_slugs slug :
  is_Some (Script.lookupConfig slug) ↔ slug ∈ Batch.slugs.
Proof.
  destruct (lookupConfig_cases slug)
    as [[-> ->]|[[-> ->]|[[-> ->]|[Hno ->]]]].
  - split; [intros _|by eauto]. unfold Batch.slugs. cbn [map]. by left.
  - split; [intros _|by eauto]. unfold Batch.slugs. cbn [map].
    right. by left.
  - split; [intros _|by eauto]. unfold Batch.slugs. cbn [map].
    right. right. by left.
  - split; [by intros [? ?]|done].
Qed.

Lemma plainName_posts : plainName (str "-posts.json").
Proof. unfold plainName. apply (bool_decide_unpack _). vm_compute. reflexivity. Qed.

Lemma fileNameOk_postsFile slug :
  plainName slug →
  fileNameOk (Fetcher.postsFile slug)
  = bool_decide (utf8Length (Fetcher.postsFile slug) ≤ 255).
Proof. intros Hs. apply fileNameOk_plainName; [done|apply plainName_posts]. Qed.

(** The file system takes the file names of the three slugs. *)
Lemma fileNameOk_slugs slug :
  slug ∈ Batch.slugs →
  fileNameOk (analysisFile slug) = true
  ∧ fileNameOk (Fetcher.postsFile slug) = true.
Proof.
  unfold Batch.slugs. cbn [map]. rewrite !elem_of_cons, elem_of_nil.
  intros [->|[->|[->|[]]]]; split; vm_compute; reflexivity.
Qed.

Lemma analyzeInfluencer_slug (readPosts : text → result (list Post))
    now slug report :
  Script.analyzeInfluencer readPosts now slug = Ok report →
  slug ∈ Batch.slugs.
Proof.
  unfold Script.analyzeInfluencer.
  destruct (readPosts slug) as [ps|e]; cbn [mbind result_bind]; [|done].
  destruct (Script.lookupConfig slug) as [config|] eqn:Hc;
    cbn [mbind result_bind mret result_ret]; [|done].
  intros _. apply lookupConfig_slugs. by rewrite Hc.
Qed.

Lemma readPosts_rejected dir slug :
  fileNameOk (Fetcher.postsFile slug) = false →
  ∃ e, Fetcher.readPosts dir slug = Throw e.
Proof. intros H. unfold Fetcher.readPosts. rewrite H. eauto. Qed.
End Scripts.

(** X18. The batch analysis of a slug returns exactly when the posts file of
    the slug can be read and the slug is one of the three configured ones;
    a readable file of another slug makes it throw. The report is filed
    under the slug, keeps at most 25 posts and takes its profile and
    mission from the table. *)
Theorem Script_analyzeInfluencer_outcome
    (readPosts : text → result (list Post)) (now slug : text) :
  ((∃ report, Script.analyzeInfluencer readPosts now slug = Ok report) ↔
     slug ∈ Batch.slugs ∧ ∃ ps, readPosts slug = Ok ps)
  ∧ (∀ e, readPosts slug = Throw e →
       Script.analyzeInfluencer readPosts now slug = Throw e)
  ∧ (∀ report, Script.analyzeInfluencer readPosts now slug = Ok report →
       ∃ ps config,
         readPosts slug = Ok ps
         ∧ (slug, config) ∈ Script.influencerConfigs
         ∧ influencerId report = slug
         ∧ analyzedAt report = now
         ∧ posts report = take 25 ps
         ∧ length (posts report) = length ps `min` 25
         ∧ brandProfile report = Script.brandProfileOf config
         ∧ missionVision report = Script.missionVisionOf config
         ∧ psychologicalTriggers report
           = Script.analyzePsychologicalTriggers ps).
Proof.
  unfold Script.analyzeInfluencer. split_and!.
  - rewrite <- lookupConfig_slugs.
    destruct (readPosts slug) as [ps|e]; cbn [mbind result_bind].
    + destruct (Script.lookupConfig slug) as [config|];
        cbn [mbind result_bind mret result_ret].
      * split; [by eauto|]. intros _. by eexists.
      * split; [by intros [? ?]|]. by intros [[? ?] _].
    + split; [by intros [? ?]|]. by intros [_ [? ?]].
  - by intros e ->.
  - intros report.
    destruct (readPosts slug) as [ps|e]; cbn [mbind result_bind]; [|done].
    destruct (Script.lookupConfig slug) as [config|] eqn:Hc;
      cbn [mbind result_bind mret result_ret]; [|done].
    intros [= <-]. exists ps, config.
    apply lookupConfig_Some in Hc.
    split_and!; try done. cbn [posts]. rewrite length_take. lia.
Qed.

(** X19. One fetch of the post fetcher, for a slug without path separator
    and NUL: at most [maxPosts] posts are returned, each cleaned, and the
    files of the other slugs are untouched. When the feed was fetched and
    the name of the slug's posts file has at most 255 bytes, the first
    [maxPosts] posts are saved under it, where the batch script reads them
    back. When the name is longer the write rejects, and when the feed
    cannot be fetched there is nothing to write: the empty list is
    returned and the directory is as it was. *)
Theorem fetchAndSavePosts_outcome (parseURL : text → result Feed)
    (now : text) (config : Fetcher.FetchConfig) (dir : Fetcher.PostsDir) :
  plainName (Fetcher.fc_slug config) →
  length (Fetcher.fetchAndSavePosts parseURL now config dir).1
    ≤ Fetcher.maxPosts config
  ∧ Forall (fun p => cleanContent p = cleanSubstackContent (content p))
      (Fetcher.fetchAndSavePosts parseURL now config dir).1
  ∧ (∀ slug, plainName slug → slug ≠ Fetcher.fc_slug config →
       Fetcher.readPosts (Fetcher.fetchAndSavePosts parseURL now config dir).2
         slug
       = Fetcher.readPosts dir slug)
  ∧ match fetchSubstackFeed parseURL now (Fetcher.feedUrl config) with
    | Ok feedPosts =>
        (utf8Length (Fetcher.postsFile (Fetcher.fc_slug config)) ≤ 255 →
           (Fetcher.fetchAndSavePosts parseURL now config dir).1
             = map Cli.cleanPost (take (Fetcher.maxPosts config) feedPosts)
           ∧ Fetcher.readPosts
               (Fetcher.fetchAndSavePosts parseURL now config dir).2
               (Fetcher.fc_slug config)
             = Ok (Fetcher.fetchAndSavePosts parseURL now config dir).1)
        ∧ (255 < utf8Length (Fetcher.postsFile (Fetcher.fc_slug config)) →
             Fetcher.fetchAndSavePosts parseURL now config dir = ([], dir)
             ∧ ∃ e, Fetcher.readPosts dir (Fetcher.fc_slug config) = Throw e)
    | Throw _ =>
        Fetcher.fetchAndSavePosts parseURL now config dir = ([], dir)
    end.
Proof.
  intros Hplain. pose proof (fileNameOk_postsFile _ Hplain) as Hname.
  unfold Fetcher.fetchAndSavePosts.
  destruct (fetchSubstackFeed parseURL now (Fetcher.feedUrl config))
    as [feedPosts|e]; cbn [fst snd].
  - destruct (decide (utf8Length (Fetcher.postsFile (Fetcher.fc_slug config))
                      ≤ 255)) as [Hlen|Hlen].
    + rewrite bool_decide_eq_true_2 in Hname by done. rewrite Hname.
      cbn [fst snd]. split_and!.
      * rewrite length_map, length_take. lia.
      * apply Forall_forall. intros p Hp.
        by apply list_elem_of_fmap in Hp as (q & -> & _).
      * intros slug _ Hne. unfold Fetcher.readPosts.
        destruct (fileNameOk (Fetcher.postsFile slug)); [|done].
        rewrite lookup_insert_ne; [done|].
        intros H. by apply postsFile_inj in H.
      * intros _. split; [done|].
        unfold Fetcher.readPosts. by rewrite Hname, lookup_insert_eq.
      * intros ?. lia.
    + rewrite bool_decide_eq_false_2 in Hname by done. rewrite Hname.
      cbn [fst snd]. split_and!.
      * simpl. lia.
      * by constructor.
      * done.
      * intros ?. lia.
      * intros _. split; [done|]. by apply readPosts_rejected.
  - split_and!; [simpl; lia|by constructor|done|done].
Qed.

Lemma fetchAndSavePosts_sample :
  (Fetcher.readPosts
     (Fetcher.fetchAndSavePosts (fun _ => Ok sampleFeed) []
        (sampleFetchConfig (str "dan-koe")) ∅).2 (str "dan-koe")
   = Ok (Fetcher.fetchAndSavePosts (fun _ => Ok sampleFeed) []
           (sampleFetchConfig (str "dan-koe")) ∅).1
   ∧ length (Fetcher.fetchAndSavePosts (fun _ => Ok sampleFeed) []
               (sampleFetchConfig (str "dan-koe")) ∅).1 = 1)
  ∧ Fetcher.fetchAndSavePosts (fun _ => Ok sampleFeed) []
      (sampleFetchConfig longName) ∅ = ([], ∅).
Proof.
  assert (plainName (Fetcher.fc_slug (sampleFetchConfig (str "dan-koe"))))
    as Hdan
    by (unfold plainName; apply (bool_decide_unpack _); vm_compute;
        reflexivity).
  assert (plainName (Fetcher.fc_slug (sampleFetchConfig longName))) as Hlong
    by (unfold plainName; apply (bool_decide_unpack _); vm_compute;
        reflexivity).
  pose proof (fetchAndSavePosts_outcome (fun _ => Ok sampleFeed) []
                (sampleFetchConfig (str "dan-koe")) ∅ Hdan)
    as (_ & _ & _ & H).
  pose proof (fetchAndSavePosts_outcome (fun _ => Ok sampleFeed) []
                (sampleFetchConfig longName) ∅ Hlong)
    as (_ & _ & _ & H').
  change (fetchSubstackFeed (fun _ => Ok sampleFeed) []
            (Fetcher.feedUrl (sampleFetchConfig (str "dan-koe"))))
    with (Ok (imap (postOfItem sampleFeed []) (items sampleFeed)) : result _)
    in H.
  change (fetchSubstackFeed (fun _ => Ok sampleFeed) []
            (Fetcher.feedUrl (sampleFetchConfig longName)))
    with (Ok (imap (postOfItem sampleFeed []) (items sampleFeed)) : result _)
    in H'.
  cbv beta iota in H, H'.
  destruct H as [Hshort _]. destruct H' as [_ Hrejected].
  split.
  - destruct Hshort as [Hposts Hread].
    { apply (bool_decide_unpack _). vm_compute. reflexivity. }
    split; [exact Hread|]. rewrite Hposts. reflexivity.
  - apply Hrejected. apply (bool_decide_unpack _). vm_compute. reflexivity.
Defined.

Section Pipeline.
Implicit Types (dir : Fetcher.PostsDir) (st : Store) (slug : text)
  (config : Fetcher.FetchConfig).

Lemma readPosts_fetchAndSavePosts parseURL now config dir slug :
  fileNameOk (Fetcher.postsFile (Fetcher.fc_slug config)) = true →
  Fetcher.readPosts (Fetcher.fetchAndSavePosts parseURL now config dir).2 slug
  = match fetchSubstackFeed parseURL now (Fetcher.feedUrl config) with
    | Ok feedPosts =>
        if decide (slug = Fetcher.fc_slug config)
        then Ok (map Cli.cleanPost (take (Fetcher.maxPosts config) feedPosts))
        else Fetcher.readPosts dir slug
    | Throw _ => Fetcher.readPosts dir slug
    end.
Proof.
  intros Hok. unfold Fetcher.fetchAndSavePosts.
  destruct (fetchSubstackFeed _ _ _) as [feedPosts|e]; [|done].
  rewrite Hok. cbn [snd]. unfold Fetcher.readPosts.
  destruct (decide (slug = Fetcher.fc_slug config)) as [->|Hne].
  - by rewrite Hok, lookup_insert_eq.
  - destruct (fileNameOk (Fetcher.postsFile slug)); [|done].
    rewrite lookup_insert_ne; [done|]. intros H. by apply postsFile_inj in H.
Qed.

Lemma fetchAll_unfold parseURL now dir :
  Fetcher.fetchAll parseURL now dir
  = foldl (fun acc config =>
             (acc.1 ++ [(Fetcher.fc_name config, Fetcher.fc_slug config,
                         length (Fetcher.fetchAndSavePosts parseURL now config
                                   acc.2).1)],
              (Fetcher.fetchAndSavePosts parseURL now config acc.2).2))
      ([], dir) Fetcher.influencers.
Proof.
  unfold Fetcher.fetchAll, Fetcher.influencers. cbn [foldl fst snd].
  destruct (Fetcher.fetchAndSavePosts parseURL now _ dir) as [ps1 dir1].
  cbn [fst snd].
  destruct (Fetcher.fetchAndSavePosts parseURL now _ dir1) as [ps2 dir2].
  cbn [fst snd].
  by destruct (Fetcher.fetchAndSavePosts parseURL now _ dir2) as [ps3 dir3].
Qed.

Lemma getAnalysis_analyzeAndSave env dir st slug id :
  getAnalysis id (Batch.analyzeAndSave env dir st slug)
  = match Script.analyzeInfluencer (Fetcher.readPosts dir)
            (Batch.analyzedNow env slug) slug with
    | Ok report => if decide (id = slug) then Some report else getAnalysis id st
    | Throw _ => getAnalysis id st
    end.
Proof.
  unfold Batch.analyzeAndSave.
  destruct (Script.analyzeInfluencer _ _ slug) as [report|e] eqn:Hrun;
    cbn [mbind result_bind tryCatch]; [|done].
  apply analyzeInfluencer_slug, fileNameOk_slugs in Hrun as [Hok _].
  unfold writeAnalysisFile. rewrite Hok. cbn [tryCatch].
  unfold getAnalysis. cbn [analysesDir].
  destruct (decide (id = slug)) as [->|Hne].
  - by rewrite Hok, lookup_insert_eq.
  - destruct (fileNameOk (analysisFile id)); [|done].
    rewrite lookup_insert_ne; [done|]. intros H.
    by apply analysisFile_inj in H.
Qed.

Lemma influencersFile_analyzeAndSave env dir st slug :
  influencersFile (Batch.analyzeAndSave env dir st slug) = influencersFile st.
Proof.
  unfold Batch.analyzeAndSave, writeAnalysisFile.
  destruct (Script.analyzeInfluencer _ _ slug);
    cbn [mbind result_bind tryCatch]; [|done].
  by destruct (fileNameOk _).
Qed.

(** What the second loop of [main] makes of a roster. *)
Lemma updateCounts_Ok env dir influencers :
  ∀ index updated,
    Batch.updateCounts env dir index influencers = Ok updated →
    Forall2 (fun old new =>
               inf_id new = inf_id old ∧ inf_name new = inf_name old
               ∧ inf_slug new = inf_slug old
               ∧ ∃ ps, Fetcher.readPosts dir (inf_slug old) = Ok ps
                   ∧ postCount new = Some (length ps))
      influencers updated.
Proof.
  induction influencers as [|i influencers IH]; intros index updated;
    cbn [Batch.updateCounts].
  - intros [= <-]. constructor.
  - destruct (Fetcher.readPosts dir (inf_slug i)) as [ps|e] eqn:Hps;
      cbn [mbind result_bind]; [|done].
    destruct (Batch.updateCounts env dir (S index) influencers)
      as [rest|e] eqn:Hrest; cbn [mbind result_bind mret result_ret]; [|done].
    intros [= <-]. constructor; [|by eapply IH].
    cbn. split_and!; try done. by exists ps.
Qed.

Lemma updateCounts_returns env dir influencers :
  ∀ index,
    (∃ updated, Batch.updateCounts env dir index influencers = Ok updated) ↔
    Forall (fun i => ∃ ps, Fetcher.readPosts dir (inf_slug i) = Ok ps)
      influencers.
Proof.
  induction influencers as [|i influencers IH]; intros index;
    cbn [Batch.updateCounts].
  - split; [by constructor|by eauto].
  - rewrite Forall_cons, <- (IH (S index)).
    destruct (Fetcher.readPosts dir (inf_slug i)) as [ps|e];
      cbn [mbind result_bind].
    + destruct (Batch.updateCounts env dir (S index) influencers) as [rest|e];
        cbn [mbind result_bind mret result_ret].
      * split; [intros _; by eauto|by eauto].
      * split; [by intros [? ?]|]. by intros [_ [? ?]].
    + split; [by intros [? ?]|]. by intros [[? ?] _].
Qed.
End Pipeline.

(** X20. The post fetcher followed by the batch analysis. After the three
    fetches the posts file of a subject whose feed was fetched holds its
    first 25 posts, cleaned, and the batch analysis of that subject
    returns a report about these posts; the file of a subject whose feed
    failed is as it was. The summary has one line per subject, in order. *)
Theorem fetchAll_then_analyze (parseURL : text → result Feed)
    (now : text) (dir : Fetcher.PostsDir) :
  Forall (fun config =>
    match fetchSubstackFeed parseURL now (Fetcher.feedUrl config) with
    | Ok feedPosts =>
        Fetcher.readPosts (Fetcher.fetchAll parseURL now dir).2
          (Fetcher.fc_slug config)
        = Ok (map Cli.cleanPost (take 25 feedPosts))
        ∧ ∀ now', ∃ report,
            Script.analyzeInfluencer
              (Fetcher.readPosts (Fetcher.fetchAll parseURL now dir).2)
              now' (Fetcher.fc_slug config)
            = Ok report
            ∧ posts report = map Cli.cleanPost (take 25 feedPosts)
    | Throw _ =>
        Fetcher.readPosts (Fetcher.fetchAll parseURL now dir).2
          (Fetcher.fc_slug config)
        = Fetcher.readPosts dir (Fetcher.fc_slug config)
    end) Fetcher.influencers
  ∧ (Fetcher.fetchAll parseURL now dir).1.*1
    = (fun config => (Fetcher.fc_name config, Fetcher.fc_slug config))
        <$> Fetcher.influencers.
Proof.
  assert (∀ config, config ∈ Fetcher.influencers →
    Fetcher.readPosts (Fetcher.fetchAll parseURL now dir).2
      (Fetcher.fc_slug config)
    = match fetchSubstackFeed parseURL now (Fetcher.feedUrl config) with
      | Ok feedPosts => Ok (map Cli.cleanPost (take 25 feedPosts))
      | Throw _ => Fetcher.readPosts dir (Fetcher.fc_slug config)
      end) as Hread.
  { intros config Hin. rewrite fetchAll_unfold.
    unfold Fetcher.influencers in *. cbn [foldl fst snd].
    rewrite !readPosts_fetchAndSavePosts by (vm_compute; reflexivity).
    repeat (apply elem_of_cons in Hin as [->|Hin]);
      [..|by apply elem_of_nil in Hin];
      cbn [Fetcher.fc_slug Fetcher.feedUrl Fetcher.maxPosts];
      destruct (fetchSubstackFeed parseURL now
                  (str "https://latecheckout.substack.com/feed"));
      destruct (fetchSubstackFeed parseURL now
                  (str "https://letters.thedankoe.com/feed"));
      destruct (fetchSubstackFeed parseURL now
                  (str "https://thejustinwelsh.substack.com/feed"));
      repeat case_decide; done. }
  split.
  - apply Forall_forall. intros config Hin.
    specialize (Hread config Hin).
    destruct (fetchSubstackFeed parseURL now (Fetcher.feedUrl config))
      as [feedPosts|e]; [|done].
    split; [done|]. intros now'.
    unfold Script.analyzeInfluencer. rewrite Hread. cbn [mbind result_bind].
    assert (is_Some (Script.lookupConfig (Fetcher.fc_slug config)))
      as [c ->].
    { apply lookupConfig_slugs. unfold Fetcher.influencers in Hin.
      repeat (apply elem_of_cons in Hin as [->|Hin]);
        [..|by apply elem_of_nil in Hin];
        unfold Batch.slugs; cbn; rewrite !elem_of_cons; auto. }
    cbn [mbind result_bind mret result_ret]. eexists. split; [done|].
    cbn [posts]. apply take_ge. rewrite length_map, length_take. lia.
  - rewrite fetchAll_unfold. done.
Qed.

(** X21. The [main] of the batch script, over a roster whose slugs are plain
    file names. An analysis is written for each of the three slugs whose
    posts file can be read, and no other analysis is touched. The roster
    is rewritten only when it and the posts file of each of its records
    can be read: ids, names and slugs stay, in order, and each record gets
    the number of posts of its file. Otherwise [main] rejects and the
    roster file is as it was. *)
Theorem Batch_main_outcome (env : Batch.Env) (dir : Fetcher.PostsDir)
    (st : Store) :
  Forall (fun i => plainName (inf_slug i)) (getInfluencers st) →
  (∀ id, plainName id →
     getAnalysis id (Batch.main env dir st).2
     = if decide (id ∈ Batch.slugs)
       then match Script.analyzeInfluencer (Fetcher.readPosts dir)
                    (Batch.analyzedNow env id) id with
            | Ok report => Some report
            | Throw _ => getAnalysis id st
            end
       else getAnalysis id st)
  ∧ ((Batch.main env dir st).1 = Ok () ↔
       ∃ roster, influencersFile st = Some roster
         ∧ Forall (fun i => ∃ ps, Fetcher.readPosts dir (inf_slug i) = Ok ps)
             roster)
  ∧ ((Batch.main env dir st).1 = Ok () →
       ∃ roster updated,
         influencersFile st = Some roster
         ∧ influencersFile (Batch.main env dir st).2 = Some updated
         ∧ Forall2 (fun old new =>
                      inf_id new = inf_id old ∧ inf_name new = inf_name old
                      ∧ inf_slug new = inf_slug old
                      ∧ ∃ ps, Fetcher.readPosts dir (inf_slug old) = Ok ps
                          ∧ postCount new = Some (length ps))
             roster updated)
  ∧ ((Batch.main env dir st).1 ≠ Ok () →
       influencersFile (Batch.main env dir st).2 = influencersFile st).
Proof.
  intros _. unfold Batch.main. cbv zeta.
  set (st1 := foldl (Batch.analyzeAndSave env dir) st Batch.slugs).
  assert (influencersFile st1 = influencersFile st) as Hfile.
  { unfold st1, Batch.slugs. cbn [map foldl].
    by rewrite !influencersFile_analyzeAndSave. }
  assert (∀ id,
     getAnalysis id st1
     = if decide (id ∈ Batch.slugs)
       then match Script.analyzeInfluencer (Fetcher.readPosts dir)
                    (Batch.analyzedNow env id) id with
            | Ok report => Some report
            | Throw _ => getAnalysis id st
            end
       else getAnalysis id st) as Hana.
  { intros id.
    assert (getAnalysis id st1
            = match Script.analyzeInfluencer (Fetcher.readPosts dir)
                      (Batch.analyzedNow env (str "justin-welsh"))
                      (str "justin-welsh") with
              | Ok report =>
                  if decide (id = str "justin-welsh") then Some report
                  else getAnalysis id
                         (foldl (Batch.analyzeAndSave env dir) st
                            [str "greg-isenberg"; str "dan-koe"])
              | Throw _ =>
                  getAnalysis id
                    (foldl (Batch.analyzeAndSave env dir) st
                       [str "greg-isenberg"; str "dan-koe"])
              end) as -> by apply getAnalysis_analyzeAndSave.
    cbn [foldl]. rewrite !getAnalysis_analyzeAndSave.
    destruct (decide (id ∈ Batch.slugs)) as [Hin|Hnin].
    - unfold Batch.slugs in Hin. cbn [map] in Hin.
      rewrite !elem_of_cons, elem_of_nil in Hin.
      destruct Hin as [->|[->|[->|[]]]];
        destruct (Script.analyzeInfluencer _ _ (str "justin-welsh"));
        destruct (Script.analyzeInfluencer _ _ (str "dan-koe"));
        destruct (Script.analyzeInfluencer _ _ (str "greg-isenberg"));
        repeat case_decide; done.
    - assert (id ≠ str "greg-isenberg" ∧ id ≠ str "dan-koe"
              ∧ id ≠ str "justin-welsh") as (H1 & H2 & H3).
      { unfold Batch.slugs in Hnin. cbn [map] in Hnin.
        rewrite !elem_of_cons in Hnin. split_and!; intros ->; apply Hnin; auto. }
      destruct (Script.analyzeInfluencer _ _ (str "justin-welsh"));
        destruct (Script.analyzeInfluencer _ _ (str "dan-koe"));
        destruct (Script.analyzeInfluencer _ _ (str "greg-isenberg"));
        repeat case_decide; done. }
  assert (∀ id roster', getAnalysis id
            {| influencersFile := roster'; analysesDir := analysesDir st1 |}
          = getAnalysis id st1) as Hsame by done.
  rewrite Hfile.
  destruct (influencersFile st) as [roster|] eqn:Hroster.
  - pose proof (updateCounts_returns env dir roster 0) as Hret.
    pose proof (updateCounts_Ok env dir roster 0) as Hok.
    destruct (Batch.updateCounts env dir 0 roster) as [updated|e];
      cbn [fst snd].
    + split_and!.
      * intros id. by rewrite Hsame, Hana.
      * split; [intros _|done]. exists roster. split; [done|].
        apply Hret. by eauto.
      * intros _. exists roster, updated. split_and!; [done..|]. by apply Hok.
      * done.
    + split_and!.
      * done.
      * split; [done|]. intros (roster' & [= <-] & Hall).
        apply Hret in Hall as [? ?]. done.
      * done.
      * intros _. by rewrite Hfile.
  - cbn [fst snd]. split_and!.
    + done.
    + split; [done|]. by intros (roster' & ? & _).
    + done.
    + intros _. by rewrite Hfile.
Qed.

Lemma Batch_main_sample :
  (Batch.main
     {| Batch.analyzedNow := fun _ => str "2025-01-02T00:00:00.000Z";
        Batch.updatedNow := fun _ => str "2025-01-02T00:00:01.000Z" |}
     samplePostsDir sampleStore).1 = Ok ()
  ∧ (∃ report,
       getAnalysis (str "dan-koe")
         (Batch.main
            {| Batch.analyzedNow := fun _ => str "2025-01-02T00:00:00.000Z";
               Batch.updatedNow := fun _ => str "2025-01-02T00:00:01.000Z" |}
            samplePostsDir sampleStore).2 = Some report
       ∧ influencerId report = str "dan-koe"
       ∧ posts report = [samplePost])
  ∧ getAnalysis (str "greg-isenberg")
      (Batch.main
         {| Batch.analyzedNow := fun _ => str "2025-01-02T00:00:00.000Z";
            Batch.updatedNow := fun _ => str "2025-01-02T00:00:01.000Z" |}
         samplePostsDir sampleStore).2 = None
  ∧ getAnalysis (str "ann-lee")
      (Batch.main
         {| Batch.analyzedNow := fun _ => str "2025-01-02T00:00:00.000Z";
            Batch.updatedNow := fun _ => str "2025-01-02T00:00:01.000Z" |}
         samplePostsDir sampleStore).2 = None
  ∧ (∃ updated,
       influencersFile
         (Batch.main
            {| Batch.analyzedNow := fun _ => str "2025-01-02T00:00:00.000Z";
               Batch.updatedNow := fun _ => str "2025-01-02T00:00:01.000Z" |}
            samplePostsDir sampleStore).2 = Some updated
       ∧ inf_id <$> updated = [str "ann-lee"; str "bo-chan"]
       ∧ postCount <$> updated = [Some 1; Some 2]).
Proof.
  pose proof (Batch_main_outcome
                {| Batch.analyzedNow := fun _ => str "2025-01-02T00:00:00.000Z";
                   Batch.updatedNow :=
                     fun _ => str "2025-01-02T00:00:01.000Z" |}
                samplePostsDir sampleStore)
    as (Hana & Hok & Hroster & _).
  { unfold plainName. apply (bool_decide_unpack _). vm_compute. reflexivity. }
  cbn [Batch.analyzedNow] in Hana.
  assert (∀ slug, plainName (str slug)
                  ↔ bool_decide (plainName (str slug)) = true) as Hdec.
  { intros slug. by rewrite bool_decide_eq_true. }
  assert (Fetcher.readPosts samplePostsDir (str "ann-lee") = Ok [samplePost])
    as Hann by (vm_compute; reflexivity).
  assert (Fetcher.readPosts samplePostsDir (str "bo-chan")
          = Ok [samplePost; samplePost])
    as Hbo by (vm_compute; reflexivity).
  assert ((Batch.main
             {| Batch.analyzedNow := fun _ => str "2025-01-02T00:00:00.000Z";
                Batch.updatedNow :=
                  fun _ => str "2025-01-02T00:00:01.000Z" |}
             samplePostsDir sampleStore).1 = Ok ()) as Hrun.
  { apply Hok. eexists. split; [reflexivity|].
    repeat constructor; eexists; [exact Hann|exact Hbo]. }
  split_and!.
  - exact Hrun.
  - rewrite Hana by (apply Hdec; vm_compute; reflexivity).
    rewrite decide_True by (apply (bool_decide_unpack _); vm_compute;
                            reflexivity).
    destruct (Script.analyzeInfluencer (Fetcher.readPosts samplePostsDir)
                (str "2025-01-02T00:00:00.000Z") (str "dan-koe"))
      as [report|e] eqn:Hreport; [|by vm_compute in Hreport].
    exists report. split; [reflexivity|].
    vm_compute in Hreport. injection Hreport as <-. split; reflexivity.
  - rewrite Hana by (apply Hdec; vm_compute; reflexivity).
    rewrite decide_True by (apply (bool_decide_unpack _); vm_compute;
                            reflexivity).
    destruct (Script.analyzeInfluencer (Fetcher.readPosts samplePostsDir)
                (str "2025-01-02T00:00:00.000Z") (str "greg-isenberg"))
      as [report|e] eqn:Hreport; [by vm_compute in Hreport|].
    reflexivity.
  - rewrite Hana by (apply Hdec; vm_compute; reflexivity).
    rewrite decide_False; [reflexivity|].
    apply (bool_decide_unpack _). vm_compute. reflexivity.
  - destruct (Hroster Hrun) as (roster & updated & Hold & Hnew & Hall).
    injection Hold as <-. exists updated. split; [exact Hnew|].
    apply Forall2_cons_inv_l in Hall
      as (a & rest & (Ha1 & _ & _ & psa & Hpsa & Hca) & Hall & ->).
    apply Forall2_cons_inv_l in Hall
      as (b & rest' & (Hb1 & _ & _ & psb & Hpsb & Hcb) & Hall & ->).
    apply Forall2_nil_inv_l in Hall as ->.
    cbn [fmap list_fmap]. rewrite Ha1, Hb1, Hca, Hcb.
    change (Fetcher.readPosts samplePostsDir (str "ann-lee") = Ok psa) in Hpsa.
    change (Fetcher.readPosts samplePostsDir (str "bo-chan") = Ok psb) in Hpsb.
    rewrite Hann in Hpsa. rewrite Hbo in Hpsb.
    injection Hpsa as <-. injection Hpsb as <-. split; reflexivity.
Defined.

(** ** Search *)

Section Search.
Implicit Types (i : Influencer) (roster : list Influencer) (term : text).

Lemma includes_nil s : Str.includes s [] = true.
Proof. by destruct s. Qed.

Lemma filterResult_Ok {A} (p : A → result bool) (l found : list A) :
  filterResult p l = Ok found →
  found `sublist_of` l
  ∧ ∀ x, x ∈ found ↔ x ∈ l ∧ p x = Ok true.
Proof.
  revert found. induction l as [|x l IH]; intros found; cbn [filterResult].
  - intros [= <-]. split; [done|]. intros x. rewrite elem_of_nil. tauto.
  - destruct (p x) as [keep|e] eqn:Hx; cbn [mbind result_bind]; [|done].
    destruct (filterResult p l) as [kept|e]; cbn [mbind result_bind]; [|done].
    destruct (IH kept eq_refl) as [Hsub Hin].
    intros [= <-]. destruct keep.
    + split; [by apply sublist_skip|]. intros y.
      rewrite !elem_of_cons, Hin. split.
      * intros [->|[? ?]]; auto.
      * intros [[->|?] ?]; auto.
    + split; [by apply sublist_cons|]. intros y.
      rewrite elem_of_cons, Hin. split.
      * intros [? ?]; auto.
      * intros [[->|?] ?]; [congruence|auto].
Qed.

Lemma filterResult_returns {A} (p : A → result bool) (l : list A) :
  (∃ found, filterResult p l = Ok found) ↔
  Forall (fun x => ∃ keep, p x = Ok keep) l.
Proof.
  induction l as [|x l IH]; cbn [filterResult].
  - split; [by constructor|by eauto].
  - rewrite Forall_cons, <- IH.
    destruct (p x) as [keep|e]; cbn [mbind result_bind].
    + destruct (filterResult p l) as [kept|e];
        cbn [mbind result_bind mret result_ret].
      * split; [by eauto|by eauto].
      * split; [by intros [? ?]|]. by intros [_ [? ?]].
    + split; [by intros [? ?]|]. by intros [[? ?] _].
Qed.

Lemma matchesSearch_Ok term i keep :
  matchesSearch term i = Ok keep ↔
  (Str.includes (Str.toLowerCase (inf_name i)) term = true ∧ keep = true)
  ∨ (Str.includes (Str.toLowerCase (inf_name i)) term = false
     ∧ ∃ d, inf_description i = JStr d
         ∧ keep = Str.includes (Str.toLowerCase d) term).
Proof.
  unfold matchesSearch.
  destruct (Str.includes (Str.toLowerCase (inf_name i)) term).
  - split; [intros [= <-]; by left|]. by intros [[_ ->]|[? _]].
  - destruct (inf_description i) as [| | | |d| |];
      cbn [asString mbind result_bind mret result_ret];
      try (split; [done|by intros [[? _]|[_ (d' & ? & _)]]]).
    split.
    + intros [= <-]. right. split; [done|]. by exists d.
    + intros [[? _]|[_ (d' & [= <-] & ->)]]; done.
Qed.
Lemma matchesSearch_nil i : matchesSearch [] i = Ok true.
Proof. unfold matchesSearch. by rewrite includes_nil. Qed.
End Search.

(** X22. The search of the persistence adapter returns the records of the
    roster, in its order, whose lower-cased name or description contains
    the lower-cased query. The description is read only when the name does
    not match: the search throws exactly when the roster has a record
    whose name does not match and whose description is not a string. The
    empty query returns the whole roster, whatever the descriptions. *)
Theorem searchInfluencers_results (query : text) (st : Store) :
  (∀ found, searchInfluencers query st = Ok found →
     found `sublist_of` getInfluencers st
     ∧ ∀ i, i ∈ found ↔
         i ∈ getInfluencers st
         ∧ (Str.includes (Str.toLowerCase (inf_name i))
              (Str.toLowerCase query) = true
            ∨ ∃ d, inf_description i = JStr d
                ∧ Str.includes (Str.toLowerCase d) (Str.toLowerCase query)
                  = true))
  ∧ ((∃ found, searchInfluencers query st = Ok found) ↔
       Forall (fun i =>
                 Str.includes (Str.toLowerCase (inf_name i))
                   (Str.toLowerCase query) = true
                 ∨ ∃ d, inf_description i = JStr d) (getInfluencers st))
  ∧ searchInfluencers [] st = Ok (getInfluencers st)
  ∧ searchInfluencers (Str.toLowerCase query) st = searchInfluencers query st.
Proof.
  unfold searchInfluencers. cbv zeta. split_and!.
  - intros found Hfound. apply filterResult_Ok in Hfound as [Hsub Hin].
    split; [done|]. intros i. rewrite Hin, matchesSearch_Ok.
    split.
    + intros [Hi [[Hn _]|[_ (d & Hd & Hk)]]]; split; eauto.
    + intros [Hi [Hn|(d & Hd & Hk)]]; (split; [done|]); [by left|].
      destruct (Str.includes (Str.toLowerCase (inf_name i))
                  (Str.toLowerCase query)) eqn:Hname; [by left|].
      right. split; [done|]. exists d. by rewrite Hk.
  - rewrite filterResult_returns. apply Forall_iff. intros i. split.
    + intros [keep [[Hn _]|[_ (d & Hd & _)]]%matchesSearch_Ok]; eauto.
    + intros H.
      destruct (Str.includes (Str.toLowerCase (inf_name i))
                  (Str.toLowerCase query)) eqn:Hname.
      * exists true. apply matchesSearch_Ok. by left.
      * destruct H as [?|[d Hd]]; [done|].
        eexists. apply matchesSearch_Ok. right. split; [done|]. by exists d.
  - change (Str.toLowerCase []) with (@nil ascii).
    induction (getInfluencers st) as [|i l IH].
    + done.
    + cbn [filterResult]. rewrite matchesSearch_nil.
      cbn [mbind result_bind]. by rewrite IH.
  - by rewrite toLowerCase_idemp.
Qed.

(** ** Client and brand profile *)

(** X23. The completion client is made at most once: with a non-empty key
    and no client yet, one is made from the key and kept; a client that
    exists is used and kept as it is, whatever the key is now; without a
    key, or with an empty one, no client is used and the state is left
    alone. *)
Theorem getOpenAIClient_state (env : Analyzer.Env)
    (openai : option Analyzer.OpenAI) :
  (Analyzer.OPENAI_API_KEY env = None ∨ Analyzer.OPENAI_API_KEY env = Some [] →
     Analyzer.getOpenAIClient env openai = (None, openai))
  ∧ (∀ key client, Analyzer.OPENAI_API_KEY env = Some key → key ≠ [] →
       openai = Some client →
       Analyzer.getOpenAIClient env openai = (Some client, Some client))
  ∧ (∀ key, Analyzer.OPENAI_API_KEY env = Some key → key ≠ [] →
       openai = None →
       Analyzer.getOpenAIClient env openai
       = (Some {| Analyzer.apiKey := key |},
          Some {| Analyzer.apiKey := key |}))
  ∧ (∀ content client,
       (Analyzer.analyzeBrandProfile env openai content).2 = Some client →
       ∀ env' content',
         (Analyzer.analyzeBrandProfile env'
            (Analyzer.analyzeBrandProfile env openai content).2 content').2
         = Some client).
Proof.
  split_and!.
  - intros [Hk|Hk]; unfold Analyzer.getOpenAIClient; by rewrite Hk.
  - intros key client Hk Hne ->. unfold Analyzer.getOpenAIClient.
    rewrite Hk. by rewrite bool_decide_eq_false_2.
  - intros key Hk Hne ->. unfold Analyzer.getOpenAIClient.
    rewrite Hk. by rewrite bool_decide_eq_false_2.
  - intros content client Hc env' content'. rewrite Hc.
    unfold Analyzer.analyzeBrandProfile, Analyzer.getOpenAIClient.
    destruct (Analyzer.OPENAI_API_KEY env') as [key|]; [|done].
    by destruct (bool_decide (key = [])).
Qed.

(** X24. The brand profile is the default one when there is no usable key, when
    the service throws and when its answer is [null]; it depends on no
    more than the first 3000 code units of the text. An answer that is
    neither an object nor [null] gives the defaults of the model-backed
    path: the same three scores, but not the default profile. *)
Theorem analyzeBrandProfile_fallback (env : Analyzer.Env)
    (openai : option Analyzer.OpenAI) (content : text) :
  (Analyzer.OPENAI_API_KEY env = None ∨ Analyzer.OPENAI_API_KEY env = Some [] →
     Analyzer.analyzeBrandProfile env openai content
     = (Analyzer.getDefaultBrandProfile, openai))
  ∧ ((∀ client, (∃ e, Analyzer.chat env client (Analyzer.brandPrompt content)
                        = Throw e)
                ∨ Analyzer.chat env client (Analyzer.brandPrompt content)
                  = Ok JNull) →
     (Analyzer.analyzeBrandProfile env openai content).1
     = Analyzer.getDefaultBrandProfile)
  ∧ (∀ content', take 3000 content' = take 3000 content →
       Analyzer.analyzeBrandProfile env openai content'
       = Analyzer.analyzeBrandProfile env openai content)
  ∧ (∀ answer,
       (∀ fields, answer ≠ JObj fields) → answer ≠ JNull →
       answer ≠ JUndefined →
       ∃ p, Analyzer.profileOfAnswer answer = Ok p
         ∧ authority (positioning p) = JNum 75
         ∧ relatability (positioning p) = JNum 80
         ∧ expertise (positioning p) = JNum 85
         ∧ p ≠ Analyzer.getDefaultBrandProfile).
Proof.
  split_and!.
  - intros Hk. unfold Analyzer.analyzeBrandProfile.
    assert (Analyzer.getOpenAIClient env openai = (None, openai)) as ->; [|done].
    destruct Hk as [Hk|Hk]; unfold Analyzer.getOpenAIClient; by rewrite Hk.
  - intros Hchat. unfold Analyzer.analyzeBrandProfile.
    destruct (Analyzer.getOpenAIClient env openai) as [[client|] openai'];
      [|done].
    cbn [fst]. by destruct (Hchat client) as [[e ->]| ->].
  - intros content' Htake. unfold Analyzer.analyzeBrandProfile,
      Analyzer.brandPrompt. by rewrite Htake.
  - intros answer Hobj Hnull Hundef.
    destruct answer; try done; [..|by destruct (Hobj fields)];
      (eexists; split; [reflexivity|]; split_and!; [reflexivity..|];
       intros H; apply (f_equal uniqueValue) in H; by vm_compute in H).
Qed.

(** ** Static loader *)

Section LoaderFacts.
Implicit Types (v inf : jsval) (fields : list (text * jsval)) (k : text).

Lemma lookupField_app k fields fields' :
  lookupField k (fields ++ fields')
  = match lookupField k fields' with
    | Some v => Some v
    | None => lookupField k fields
    end.
Proof.
  induction fields as [|[k' v] fields IH]; cbn [app lookupField].
  - by destruct (lookupField k fields').
  - rewrite IH. destruct (lookupField k fields') as [v'|]; [done|].
    done.
Qed.

Lemma orDefault_truthy v d : truthy d = true → truthy (orDefault v d) = true.
Proof. unfold orDefault. by destruct (truthy v) eqn:Hv. Qed.

Lemma orDefault_keeps v d : truthy v = true → orDefault v d = v.
Proof. unfold orDefault. by intros ->. Qed.

Lemma mapResult_Ok {A B} (f : A → result B) (l : list A) (out : list B) :
  Loader.mapResult f l = Ok out → Forall2 (fun x y => f x = Ok y) l out.
Proof.
  revert out. induction l as [|x l IH]; intros out; cbn [Loader.mapResult].
  - intros [= <-]. constructor.
  - destruct (f x) as [y|e] eqn:Hx; cbn [mbind result_bind]; [|done].
    destruct (Loader.mapResult f l) as [ys|e];
      cbn [mbind result_bind mret result_ret]; [|done].
    intros [= <-]. constructor; [done|]. by apply IH.
Qed.

Lemma mapResult_returns {A B} (f : A → result B) (l : list A) :
  (∃ out, Loader.mapResult f l = Ok out) ↔
  Forall (fun x => ∃ y, f x = Ok y) l.
Proof.
  induction l as [|x l IH]; cbn [Loader.mapResult].
  - split; [by constructor|by eauto].
  - rewrite Forall_cons, <- IH.
    destruct (f x) as [y|e]; cbn [mbind result_bind].
    + destruct (Loader.mapResult f l) as [ys|e];
        cbn [mbind result_bind mret result_ret].
      * split; [by eauto|by eauto].
      * split; [by intros [? ?]|]. by intros [_ [? ?]].
    + split; [by intros [? ?]|]. by intros [[? ?] _].
Qed.

Lemma withDefaults_returns toStr inf :
  (∃ out, Loader.withDefaults toStr inf = Ok out) ↔
  inf ≠ JNull ∧ inf ≠ JUndefined.
Proof.
  unfold Loader.withDefaults.
  destruct inf; cbn; split; try done; try (by eauto); try (by intros [? ?]).
  all: by intros [? ?].
Qed.

Lemma lookupField_None k fields : k ∉ fields.*1 → lookupField k fields = None.
Proof.
  induction fields as [|[k' v] fields IH]; cbn [lookupField fmap list_fmap fst];
    [done|].
  intros Hk. rewrite not_elem_of_cons in Hk. destruct Hk as [Hne Hk].
  rewrite IH by done. by rewrite decide_False.
Qed.

Lemma lookupField_Some k v fields :
  NoDup fields.*1 → (k, v) ∈ fields → lookupField k fields = Some v.
Proof.
  induction fields as [|[k' v'] fields IH]; cbn [lookupField fmap list_fmap fst].
  - by intros _ ?%elem_of_nil.
  - intros [Hk' Hnd]%NoDup_cons [[= -> ->]|Hin]%elem_of_cons.
    + rewrite lookupField_None by done. by rewrite decide_True.
    + by rewrite IH.
Qed.

Lemma str_inj (a b : string) : str a = str b → a = b.
Proof.
  unfold str. intros H. apply (f_equal string_of_list_ascii) in H.
  by rewrite !string_of_list_ascii_of_string in H.
Qed.

(** Reading a key of an object literal that spreads a value and then sets
    keys of its own. *)
Lemma read_overrides v (k : string) (own : list (text * jsval)) :
  NoDup own.*1 →
  (∀ x, (str k, x) ∈ own → Loader.read (JObj (Loader.spread v ++ own)) k = x)
  ∧ (str k ∉ own.*1 → ∀ fields, v = JObj fields →
     Loader.read (JObj (Loader.spread v ++ own)) k = Loader.read v k).
Proof.
  intros Hnd. unfold Loader.read. rewrite lookupField_app. split.
  - intros x Hx. by rewrite (lookupField_Some _ x).
  - intros Hk fields ->. by rewrite lookupField_None.
Qed.

Lemma read_getProp v (k : string) x :
  getProp v k = Ok x → x = Loader.read v k.
Proof. destruct v; cbn; by intros [= <-]. Qed.
End LoaderFacts.

(** What [withDefaults] leaves and what it sets in a record. *)
Lemma read_withDefaults toStr fields o :
  Loader.withDefaults toStr (JObj fields) = Ok o →
  (∃ fs, o = JObj fs)
  ∧ Loader.read o "name" = Loader.read (JObj fields) "name"
  ∧ Loader.read o "bio" = Loader.read (JObj fields) "bio"
  ∧ Loader.read o "description"
    = orDefault (Loader.read (JObj fields) "description")
        (orDefault (Loader.read (JObj fields) "bio")
           (JStr (str "Analysis of "
                  ++ toStr (Loader.read (JObj fields) "name")
                  ++ str "'s content"))).
Proof.
  unfold Loader.withDefaults.
  cbn [getProp mbind result_bind mret result_ret]. intros [= <-].
  match goal with
  | |- context [JObj (?sp ++ ?own)] =>
      set (fields' := own);
      assert (NoDup fields'.*1) as Hnd
        by (apply (bool_decide_unpack _); vm_compute; reflexivity)
  end.
  split_and!.
  - by eexists.
  - refine (proj2 (read_overrides (JObj fields) "name" fields' Hnd)
                    _ fields eq_refl).
    subst fields'. apply (bool_decide_unpack _). vm_compute. reflexivity.
  - refine (proj2 (read_overrides (JObj fields) "bio" fields' Hnd)
                    _ fields eq_refl).
    subst fields'. apply (bool_decide_unpack _). vm_compute. reflexivity.
  - apply (proj1 (read_overrides (JObj fields) "description" fields' Hnd)).
    subst fields'. repeat constructor.
Qed.

Lemma Loader_getInfluencers_total toStr influencersData :
  Forall (fun inf => inf ≠ JNull ∧ inf ≠ JUndefined) influencersData ↔
  ∃ out, Loader.getInfluencers toStr influencersData = Ok out.
Proof.
  unfold Loader.getInfluencers. rewrite mapResult_returns.
  apply Forall_iff. intros inf. symmetry. apply withDefaults_returns.
Qed.

(** X26. The roster of the static loader. It is built unless an element of the
    imported array is [null]. It has one record per element, in order;
    in each record [description], [substackUrl] and [rssUrl] read truthy
    and [postCount] reads truthy or 0; a truthy value of the element under
    one of these four keys is kept, a missing description is taken from
    [bio]; every other key of an element that is an object reads as it
    did. *)
Theorem Loader_getInfluencers_defaults (toStr : jsval → text)
    (influencersData : list jsval) :
  ((∃ out, Loader.getInfluencers toStr influencersData = Ok out) ↔
     Forall (fun inf => inf ≠ JNull ∧ inf ≠ JUndefined) influencersData)
  ∧ ∀ out, Loader.getInfluencers toStr influencersData = Ok out →
      Forall2 (fun inf o =>
        truthy (Loader.read o "description") = true
        ∧ truthy (Loader.read o "substackUrl") = true
        ∧ truthy (Loader.read o "rssUrl") = true
        ∧ (truthy (Loader.read o "postCount") = true
           ∨ Loader.read o "postCount" = JNum 0)
        ∧ (∀ k, k ∈ Loader.influencerKeys →
             truthy (Loader.read inf k) = true →
             Loader.read o k = Loader.read inf k)
        ∧ (truthy (Loader.read inf "description") = false →
           truthy (Loader.read inf "bio") = true →
           Loader.read o "description" = Loader.read inf "bio")
        ∧ (∀ k fields, k ∉ Loader.influencerKeys → inf = JObj fields →
             Loader.read o k = Loader.read inf k))
        influencersData out.
Proof.
  unfold Loader.getInfluencers. split.
  - rewrite mapResult_returns. apply Forall_iff. intros inf.
    apply withDefaults_returns.
  - intros out Hout%mapResult_Ok.
    eapply Forall2_impl; [exact Hout|]. clear. intros inf o.
    unfold Loader.withDefaults.
    destruct (getProp inf "description") as [d|] eqn:Hd;
      cbn [mbind result_bind]; [|done].
    destruct (getProp inf "bio") as [b|] eqn:Hb;
      cbn [mbind result_bind]; [|done].
    destruct (getProp inf "name") as [n|] eqn:Hn;
      cbn [mbind result_bind]; [|done].
    destruct (getProp inf "substackUrl") as [s|] eqn:Hs;
      cbn [mbind result_bind]; [|done].
    destruct (getProp inf "rssUrl") as [r|] eqn:Hr;
      cbn [mbind result_bind]; [|done].
    destruct (getProp inf "postCount") as [p|] eqn:Hp;
      cbn [mbind result_bind]; [|done].
    destruct (getProp inf "stats") as [st|] eqn:Hst;
      cbn [mbind result_bind mret result_ret]; [|done].
    intros [= <-].
    apply read_getProp in Hd, Hb, Hs, Hr, Hp. subst d b s r p.
    match goal with
    | |- context [JObj (Loader.spread inf ++ ?own)] =>
        set (fields' := own);
        assert (NoDup fields'.*1) as Hnd
          by (apply (bool_decide_unpack _); vm_compute; reflexivity)
    end.
    assert (∀ k x, (str k, x) ∈ fields' →
              Loader.read (JObj (Loader.spread inf ++ fields')) k = x) as Hown.
    { intros k x. by apply read_overrides. }
    rewrite (Hown "description"%string _ ltac:(subst fields'; repeat constructor)).
    rewrite (Hown "substackUrl"%string _ ltac:(subst fields'; repeat constructor)).
    rewrite (Hown "rssUrl"%string _ ltac:(subst fields'; repeat constructor)).
    rewrite (Hown "postCount"%string _ ltac:(subst fields'; repeat constructor)).
    split_and!.
    + by do 2 apply orDefault_truthy.
    + by apply orDefault_truthy.
    + by apply orDefault_truthy.
    + unfold orDefault.
      destruct (truthy (Loader.read inf "postCount")) eqn:Hcount; [by left|].
      destruct (truthy (Loader.read st "posts")) eqn:Hposts;
        [by left|by right].
    + intros k Hk Ht. unfold Loader.influencerKeys in Hk.
      repeat (apply elem_of_cons in Hk as [->|Hk]);
        [..|by apply elem_of_nil in Hk].
      * rewrite (Hown "description"%string _
                   ltac:(subst fields'; repeat constructor)).
        by apply orDefault_keeps.
      * rewrite (Hown "substackUrl"%string _
                   ltac:(subst fields'; repeat constructor)).
        by apply orDefault_keeps.
      * rewrite (Hown "rssUrl"%string _
                   ltac:(subst fields'; repeat constructor)).
        by apply orDefault_keeps.
      * rewrite (Hown "postCount"%string _
                   ltac:(subst fields'; repeat constructor)).
        by apply orDefault_keeps.
    + intros Hfd Hfb. unfold orDefault. by rewrite Hfd, Hfb.
    + intros k fields Hk Hinf.
      eapply (proj2 (read_overrides inf k fields' Hnd)); [|exact Hinf].
      subst fields'. cbn [fmap list_fmap fst].
      unfold Loader.influencerKeys in Hk.
      rewrite !not_elem_of_cons in Hk. rewrite !not_elem_of_cons.
      destruct Hk as (H1 & H2 & H3 & H4 & _).
      split_and!;
        [intros H; apply H1, str_inj; exact H
        |intros H; apply H2, str_inj; exact H
        |intros H; apply H3, str_inj; exact H
        |intros H; apply H4, str_inj; exact H
        |apply not_elem_of_nil].
Qed.

(** X27. The record of a slug in the static loader: [null] when no record of
    the roster has the slug, else the first record that has it, with its
    defaults filled in. *)
Theorem Loader_getInfluencer_slug (toStr : jsval → text)
    (influencersData : list jsval) (slug : text) :
  ∀ found, Loader.getInfluencer toStr influencersData slug = Ok found →
    ∃ influencers,
      Loader.getInfluencers toStr influencersData = Ok influencers
      ∧ ((found = JNull
          ∧ Forall (fun i => Loader.read i "slug" ≠ JStr slug) influencers)
         ∨ (∃ n inf, influencers !! n = Some found
              ∧ influencersData !! n = Some inf
              ∧ Loader.withDefaults toStr inf = Ok found
              ∧ Loader.read found "slug" = JStr slug
              ∧ ∀ m i, m < n → influencers !! m = Some i →
                  Loader.read i "slug" ≠ JStr slug)).
Proof.
  intros found. unfold Loader.getInfluencer.
  destruct (Loader.getInfluencers toStr influencersData) as [influencers|e]
    eqn:Hget; cbn [mbind result_bind mret result_ret]; [|done].
  intros [= <-]. exists influencers. split; [done|].
  assert (∀ i, Loader.hasSlug slug i = true ↔ Loader.read i "slug" = JStr slug)
    as Hslug.
  { intros i. unfold Loader.hasSlug.
    destruct (Loader.read i "slug"); try (split; done).
    rewrite bool_decide_eq_true. split; [by intros ->|by intros [= ->]]. }
  apply mapResult_Ok in Hget. clear -Hget Hslug.
  induction Hget as [|inf i data influencers Hi Hrest IH]; cbn [find].
  - left. split; [done|constructor].
  - destruct (Loader.hasSlug slug i) eqn:Hs; cbn [default].
    + right. exists 0, inf. split_and!; try done; [by apply Hslug|].
      intros m j Hm. lia.
    + assert (Loader.read i "slug" ≠ JStr slug) as Hne.
      { intros H%Hslug. congruence. }
      destruct IH as [[-> Hall]|(n & inf' & Hn & Hd & Hw & Hr & Hfirst)].
      * left. split; [done|]. by constructor.
      * right. exists (S n), inf'. split_and!; try done.
        intros [|m] j Hm; cbn; [by intros [= <-]|].
        apply Hfirst. lia.
Qed.

(** X28. The analysis of the static loader is [null] exactly when the map has
    nothing truthy under the id. Otherwise each of the eight keys it sets
    reads truthy (the time stamp when the clock reading is not empty): a
    truthy value of the stored analysis is kept, a missing time stamp is
    taken from [date], and every other key of a stored object reads as it
    did. *)
Theorem Loader_getAnalysis_defaults (analysesMap : text → jsval)
    (now influencerId : text) :
  (Loader.getAnalysis analysesMap now influencerId = JNull ↔
     truthy (analysesMap influencerId) = false)
  ∧ (truthy (analysesMap influencerId) = true →
     (∀ k, k ∈ Loader.analysisKeys → k ≠ "analyzedAt"%string →
        truthy (Loader.read (Loader.getAnalysis analysesMap now influencerId) k)
        = true)
     ∧ (now ≠ [] →
        truthy (Loader.read (Loader.getAnalysis analysesMap now influencerId)
                  "analyzedAt") = true)
     ∧ (∀ k, k ∈ Loader.analysisKeys →
          truthy (Loader.read (analysesMap influencerId) k) = true →
          Loader.read (Loader.getAnalysis analysesMap now influencerId) k
          = Loader.read (analysesMap influencerId) k)
     ∧ (truthy (Loader.read (analysesMap influencerId) "analyzedAt") = false →
        truthy (Loader.read (analysesMap influencerId) "date") = true →
        Loader.read (Loader.getAnalysis analysesMap now influencerId)
          "analyzedAt"
        = Loader.read (analysesMap influencerId) "date")
     ∧ (∀ k fields, k ∉ Loader.analysisKeys →
          analysesMap influencerId = JObj fields →
          Loader.read (Loader.getAnalysis analysesMap now influencerId) k
          = Loader.read (analysesMap influencerId) k)).
Proof.
  unfold Loader.getAnalysis. cbv zeta.
  generalize (analysesMap influencerId). intros analysis.
  destruct (truthy analysis) eqn:Htruthy; cbn [negb]; [|done].
  split; [done|]. intros _.
  match goal with
  | |- context [JObj (Loader.spread analysis ++ ?own)] =>
      set (fields' := own);
      assert (NoDup fields'.*1) as Hnd
        by (apply (bool_decide_unpack _); vm_compute; reflexivity)
  end.
  assert (∀ k x, (str k, x) ∈ fields' →
            Loader.read (JObj (Loader.spread analysis ++ fields')) k = x)
    as Hown.
  { intros k x. by apply read_overrides. }
  pose proof (Hown "analyzedAt"%string _
                ltac:(subst fields'; repeat constructor)) as E1.
  pose proof (Hown "posts"%string _
                ltac:(subst fields'; repeat constructor)) as E2.
  pose proof (Hown "brandProfile"%string _
                ltac:(subst fields'; repeat constructor)) as E3.
  pose proof (Hown "languagePatterns"%string _
                ltac:(subst fields'; repeat constructor)) as E4.
  pose proof (Hown "psychologicalTriggers"%string _
                ltac:(subst fields'; repeat constructor)) as E5.
  pose proof (Hown "transformationNarrative"%string _
                ltac:(subst fields'; repeat constructor)) as E6.
  pose proof (Hown "missionVision"%string _
                ltac:(subst fields'; repeat constructor)) as E7.
  pose proof (Hown "overallAssessment"%string _
                ltac:(subst fields'; repeat constructor)) as E8.
  split_and!.
  - intros k Hk Hne. unfold Loader.analysisKeys in Hk.
    repeat (apply elem_of_cons in Hk as [->|Hk]);
      [..|by apply elem_of_nil in Hk]; [done|..].
    + rewrite E2. by apply orDefault_truthy.
    + rewrite E3. by apply orDefault_truthy.
    + rewrite E4. by apply orDefault_truthy.
    + rewrite E5. by apply orDefault_truthy.
    + rewrite E6. by apply orDefault_truthy.
    + rewrite E7. by apply orDefault_truthy.
    + rewrite E8. by apply orDefault_truthy.
  - intros Hnow. rewrite E1. do 2 apply orDefault_truthy.
    cbn [truthy]. by rewrite bool_decide_eq_false_2.
  - intros k Hk Ht. unfold Loader.analysisKeys in Hk.
    repeat (apply elem_of_cons in Hk as [->|Hk]);
      [..|by apply elem_of_nil in Hk].
    + rewrite E1. by apply orDefault_keeps.
    + rewrite E2. by apply orDefault_keeps.
    + rewrite E3. by apply orDefault_keeps.
    + rewrite E4. by apply orDefault_keeps.
    + rewrite E5. by apply orDefault_keeps.
    + rewrite E6. by apply orDefault_keeps.
    + rewrite E7. by apply orDefault_keeps.
    + rewrite E8. by apply orDefault_keeps.
  - intros Hat Hdate. rewrite E1. unfold orDefault. by rewrite Hat, Hdate.
  - intros k fields Hk Hobj.
    eapply (proj2 (read_overrides analysis k fields' Hnd)); [|exact Hobj].
    subst fields'. cbn [fmap list_fmap fst].
    unfold Loader.analysisKeys in Hk.
    rewrite !not_elem_of_cons in Hk. rewrite !not_elem_of_cons.
    destruct Hk as (H1 & H2 & H3 & H4 & H5 & H6 & H7 & H8 & _).
    split_and!;
      [intros H; apply H1, str_inj; exact H
      |intros H; apply H2, str_inj; exact H
      |intros H; apply H3, str_inj; exact H
      |intros H; apply H4, str_inj; exact H
      |intros H; apply H5, str_inj; exact H
      |intros H; apply H6, str_inj; exact H
      |intros H; apply H7, str_inj; exact H
      |intros H; apply H8, str_inj; exact H
      |apply not_elem_of_nil].
Qed.

(** X29. The search of the static loader returns records of its roster, in
    order. It does not throw when every element of the imported array is
    an object whose name is a string and whose description and bio are
    strings or falsy: a description that is missing has been filled in,
    and a bio is read only when it is truthy. *)
Theorem Loader_searchInfluencers_guarded (toStr : jsval → text)
    (influencersData : list jsval) (query : text) :
  (∀ found, Loader.searchInfluencers toStr influencersData query = Ok found →
     ∃ influencers,
       Loader.getInfluencers toStr influencersData = Ok influencers
       ∧ found `sublist_of` influencers)
  ∧ (Forall (fun inf =>
               (∃ fields, inf = JObj fields)
               ∧ (∃ n, Loader.read inf "name" = JStr n)
               ∧ (truthy (Loader.read inf "description") = true →
                  ∃ d, Loader.read inf "description" = JStr d)
               ∧ (truthy (Loader.read inf "bio") = true →
                  ∃ b, Loader.read inf "bio" = JStr b))
       influencersData →
     ∃ found, Loader.searchInfluencers toStr influencersData query = Ok found).
Proof.
  unfold Loader.searchInfluencers. split.
  - intros found.
    destruct (Loader.getInfluencers toStr influencersData) as [influencers|e];
      cbn [mbind result_bind]; [|done].
    intros Hfound%filterResult_Ok. exists influencers. by destruct Hfound.
  - intros Hdata.
    destruct (proj1 (Loader_getInfluencers_total toStr influencersData))
      as [influencers Hget].
    { eapply Forall_impl; [exact Hdata|]. by intros inf ([fields ->] & _). }
    rewrite Hget. cbn [mbind result_bind]. cbv zeta.
    apply filterResult_returns.
    apply mapResult_Ok in Hget.
    apply Forall_forall. intros o Ho.
    apply list_elem_of_lookup in Ho as [n Ho].
    destruct (Forall2_lookup_r _ _ _ _ _ Hget Ho) as (inf & Hinf & Hw).
    rewrite Forall_lookup in Hdata.
    destruct (Hdata n inf Hinf) as ([fields ->] & [name Hname] & Hd & Hb).
    apply read_withDefaults in Hw as ([fs ->] & Hn' & Hb' & Hd').
    unfold Loader.matchesSearch. cbn [getProp mbind result_bind].
    change (default JUndefined (lookupField (str "name") fs))
      with (Loader.read (JObj fs) "name").
    change (default JUndefined (lookupField (str "description") fs))
      with (Loader.read (JObj fs) "description").
    change (default JUndefined (lookupField (str "bio") fs))
      with (Loader.read (JObj fs) "bio").
    rewrite Hn', Hname, Hb', Hd'. cbn [asString mbind result_bind].
    destruct (Str.includes (Str.toLowerCase name) (Str.toLowerCase query));
      [by eauto|].
    assert (∃ d, orDefault (Loader.read (JObj fields) "description")
                   (orDefault (Loader.read (JObj fields) "bio")
                      (JStr (str "Analysis of "
                             ++ toStr (Loader.read (JObj fields) "name")
                             ++ str "'s content")))
                 = JStr d) as [d ->].
    { unfold orDefault.
      destruct (truthy (Loader.read (JObj fields) "description")) eqn:Htd;
        [by apply Hd|].
      destruct (truthy (Loader.read (JObj fields) "bio")) eqn:Htb;
        [by apply Hb|]. by eexists. }
    assert (∃ keep,
      (if truthy (Loader.read (JObj fields) "bio")
       then asString (Loader.read (JObj fields) "bio")
            ≫= (fun b => mret (Str.includes (Str.toLowerCase b)
                                 (Str.toLowerCase query)))
       else Ok false) = Ok keep) as [keepBio HkeepBio].
    { destruct (truthy (Loader.read (JObj fields) "bio")) eqn:Htb;
        [|by eauto].
      destruct (Hb eq_refl) as [b ->]. cbn. by eauto. }
    destruct (truthy (JStr d)); cbn [asString mbind result_bind mret result_ret].
    + destruct (Str.includes (Str.toLowerCase d) (Str.toLowerCase query));
        [by eauto|]. by eauto.
    + by eauto.
Qed.

Lemma Loader_getInfluencer_slug_sample :
  ∃ found,
    Loader.getInfluencer (fun _ => []) sampleRosterData (str "bo-chan")
      = Ok found
    ∧ Loader.read found "description" = JStr (str "Writer")
    ∧ ∃ influencers,
        Loader.getInfluencers (fun _ => []) sampleRosterData = Ok influencers
        ∧ ((found = JNull
            ∧ Forall (fun i => Loader.read i "slug" ≠ JStr (str "bo-chan"))
                influencers)
           ∨ (∃ n inf, influencers !! n = Some found
                ∧ sampleRosterData !! n = Some inf
                ∧ Loader.withDefaults (fun _ => []) inf = Ok found
                ∧ Loader.read found "slug" = JStr (str "bo-chan")
                ∧ ∀ m i, m < n → influencers !! m = Some i →
                    Loader.read i "slug" ≠ JStr (str "bo-chan"))).
Proof.
  eexists. split; [vm_compute; reflexivity|].
  split; [vm_compute; reflexivity|].
  apply (Loader_getInfluencer_slug (fun _ => []) sampleRosterData
           (str "bo-chan")).
  vm_compute. reflexivity.
Defined.
